(** * GrokFlow constraint engine: rule matching and supervision

    A shallow embedding of [grokflow_constraints.py]: the rule store
    ([ConstraintManager]) with its keyword index, pattern cache and the
    two matching entry points, and the analytics side
    ([ConstraintSupervisor]) with precision, drift, health and
    suggestions.

    Modelling conventions.
    - Python [str] values are [string]s of 8-bit characters; [lower],
      [split], [strip] and [isalnum] act on the ASCII range.
    - Python [int] is [Z]; Python [float] is modelled by exact rationals
      [Q] (no rounding error), compared with [Qeq], [Qlt], [Qle]; the
      built-in [round], which goes by the binary value, is an interface.
    - A call that can raise returns an [outcome]; the exceptions are the
      ones [re.compile] raises besides [re.error], which is kept apart.
    - A rule dictionary is a record whose fields hold the value that the
      source reads with [dict.get(key, default)]: an absent key is
      represented by its default.
    - The returned list of rule dictionaries aliases the stored ones, so
      a match result is a list of positions in the store. *)

From Stdlib Require Import String Ascii ZArith QArith Qminmax Qround List Bool Lia Lqa
  DecimalString.
From stdpp Require Import base option list gmap strings.

Close Scope Q_scope.
Open Scope string_scope.
Open Scope list_scope.
Open Scope Z_scope.

(** ** Python string primitives *)

Module PyStr.

Definition code (c : ascii) : nat := nat_of_ascii c.

Definition between (lo hi n : nat) : bool := Nat.leb lo n && Nat.leb n hi.

Definition isupper (c : ascii) : bool := between 65 90 (code c).
Definition isdigit (c : ascii) : bool := between 48 57 (code c).
Definition isalpha (c : ascii) : bool :=
  between 65 90 (code c) || between 97 122 (code c).

(** [str.isspace] on one ASCII character: TAB..CR, FS..US and space. *)
Definition isspace (c : ascii) : bool :=
  between 9 13 (code c) || between 28 32 (code c).

Definition lower_char (c : ascii) : ascii :=
  if isupper c then ascii_of_nat (code c + 32) else c.

(** [s.lower()] *)
Fixpoint lower (s : string) : string :=
  match s with
  | EmptyString => EmptyString
  | String c s' => String (lower_char c) (lower s')
  end.

(** [s.startswith(p)] *)
Fixpoint startswith (p s : string) : bool :=
  match p, s with
  | EmptyString, _ => true
  | String _ _, EmptyString => false
  | String a p', String b s' => if Ascii.eqb a b then startswith p' s' else false
  end.

(** [sub in s] *)
Fixpoint contains (sub s : string) : bool :=
  startswith sub s ||
  match s with
  | EmptyString => false
  | String _ s' => contains sub s'
  end.

(** [s.replace(old, new)] for a non-empty [old]: leftmost, non-overlapping
    occurrences.  [skip] counts the characters of an occurrence already
    replaced that are still to be dropped. *)
Fixpoint replace_from (old new : string) (skip : nat) (s : string) : string :=
  match s with
  | EmptyString => EmptyString
  | String c s' =>
      match skip with
      | S k => replace_from old new k s'
      | O =>
          if startswith old s
          then (new ++ replace_from old new (String.length old - 1) s')%string
          else String c (replace_from old new O s')
      end
  end.

Definition replace (old new s : string) : string := replace_from old new O s.

(** [s.split()]: maximal runs of non-blank characters.  [cur] is the run
    being read. *)
Fixpoint split_from (cur : string) (s : string) : list string :=
  match s with
  | EmptyString => if String.eqb cur EmptyString then [] else [cur]
  | String c s' =>
      if isspace c
      then (if String.eqb cur EmptyString then split_from EmptyString s' else cur :: split_from EmptyString s')
      else split_from (cur ++ String c EmptyString)%string s'
  end.

Definition split (s : string) : list string := split_from EmptyString s.

(** [s.split(sep)] for a one-character separator: empty fields are kept
    and the result is never empty. *)
Fixpoint split_on_from (sep : ascii) (cur : string) (s : string) : list string :=
  match s with
  | EmptyString => [cur]
  | String c s' =>
      if Ascii.eqb c sep
      then cur :: split_on_from sep EmptyString s'
      else split_on_from sep (cur ++ String c EmptyString)%string s'
  end.

Definition split_on (sep : ascii) (s : string) : list string :=
  split_on_from sep EmptyString s.

Fixpoint lstrip (s : string) : string :=
  match s with
  | EmptyString => EmptyString
  | String c s' => if isspace c then lstrip s' else s
  end.

Fixpoint rstrip (s : string) : string :=
  match s with
  | EmptyString => EmptyString
  | String c s' =>
      let r := rstrip s' in
      if isspace c && String.eqb r EmptyString then EmptyString else String c r
  end.

(** [s.strip()] *)
Definition strip (s : string) : string := rstrip (lstrip s).

Fixpoint all_chars (p : ascii -> bool) (s : string) : bool :=
  match s with
  | EmptyString => true
  | String c s' => p c && all_chars p s'
  end.

(** [s.isalnum()]: false on the empty string. *)
Definition isalnum (s : string) : bool :=
  negb (String.eqb s EmptyString) && all_chars (fun c => isalpha c || isdigit c) s.

(** Python slice bounds: a negative bound counts from the end, and every
    bound is clamped to [0, len]. *)
Definition clamp (len i : Z) : Z :=
  if i <? 0 then Z.max 0 (i + len) else Z.min i len.

(** [l[start:stop]], each bound optional. *)
Definition slice {A} (l : list A) (start stop : option Z) : list A :=
  let len := Z.of_nat (length l) in
  let a := match start with Some i => clamp len i | None => 0 end in
  let b := match stop with Some j => clamp len j | None => len end in
  take (Z.to_nat (b - a)) (drop (Z.to_nat a) l).

(** [s[:n]] on a string. *)
Definition str_prefix (n : nat) (s : string) : string := String.substring 0 n s.

(** [any(l)], [all(l)] *)
Definition any (l : list bool) : bool := existsb (fun b => b) l.
Definition all (l : list bool) : bool := forallb (fun b => b) l.

End PyStr.

(** ** Exceptions

    The exception classes, other than [re.error], that [re.compile] raises
    or that a handler of the source names; each is a subclass of
    [Exception]. *)

Inductive exception :=
| KeyError
| TypeError
| OverflowError
| RecursionError.

(** A call that returns a value or raises. *)
Inductive outcome (A : Type) :=
| Returns (a : A)
| Raises (e : exception).

Arguments Returns {A} a.
Arguments Raises {A} e.

(** ** The pattern engine

    Python's [re] module is a collaborator, taken as an interface.
    [re_compile p] is what [re.compile(p, re.IGNORECASE)] does: it gives a
    compiled pattern, raises [re.error] for a pattern with a syntax error,
    or raises another exception ([OverflowError] for a repetition count
    that is too large, [RecursionError] for groups nested too deeply).
    [re_search r q] is [bool(r.search(q))], which has a value for every
    compiled pattern and string. *)

Inductive compiled (regex : Type) :=
| Compiled (r : regex)
| ReError
| CompileRaises (e : exception).

Arguments Compiled {regex} r.
Arguments ReError {regex}.
Arguments CompileRaises {regex} e.

Class RegexEngine := {
  regex : Type;
  re_compile : string -> compiled regex;
  re_search : regex -> string -> bool
}.

(** ** Rounding

    Python's [round(x, ndigits)] on a float goes by the binary value of
    [x], which the exact rationals of this model do not have; it is a
    collaborator, taken as an interface. *)

Class FloatRounding := {
  round : Q -> nat -> Q
}.

(** ** The rule store *)

Module ConstraintManager.

(** One rule dictionary.  [version] is [constraint.get("version", 1)],
    [enabled] is [constraint.get("enabled", True)], [trigger_patterns],
    [trigger_logic] and [context_filters] default to [[]], ["OR"] and
    [{}]; an absent or empty [constraint_id] is [EmptyString]. *)
Record Constraint := mkConstraint {
  constraint_id : string;
  version : Z;
  description : string;
  trigger_keywords : list string;
  trigger_patterns : list string;
  trigger_logic : string;
  context_filters : gmap string (list string);
  enforcement_action : string;
  enforcement_message : string;
  created : string;
  triggered_count : Z;
  last_triggered : option string;
  enabled : bool;
  false_positive_count : Z
}.

(** The two writes of a match: [triggered_count += 1] and
    [last_triggered = now]. *)
Definition record_match (now : string) (c : Constraint) : Constraint :=
  {| constraint_id := constraint_id c; version := version c;
     description := description c; trigger_keywords := trigger_keywords c;
     trigger_patterns := trigger_patterns c; trigger_logic := trigger_logic c;
     context_filters := context_filters c;
     enforcement_action := enforcement_action c;
     enforcement_message := enforcement_message c; created := created c;
     triggered_count := triggered_count c + 1; last_triggered := Some now;
     enabled := enabled c; false_positive_count := false_positive_count c |}.

Definition set_enabled (b : bool) (c : Constraint) : Constraint :=
  {| constraint_id := constraint_id c; version := version c;
     description := description c; trigger_keywords := trigger_keywords c;
     trigger_patterns := trigger_patterns c; trigger_logic := trigger_logic c;
     context_filters := context_filters c;
     enforcement_action := enforcement_action c;
     enforcement_message := enforcement_message c; created := created c;
     triggered_count := triggered_count c; last_triggered := last_triggered c;
     enabled := b; false_positive_count := false_positive_count c |}.

(** [_extract_keyword_from_pattern] *)
Definition _extract_keyword_from_pattern (pattern : string) : option string :=
  let cleaned := PyStr.replace ".+" EmptyString (PyStr.replace ".*" EmptyString pattern) in
  let cleaned := PyStr.replace "$" EmptyString (PyStr.replace "^" EmptyString cleaned) in
  let cleaned := PyStr.replace "\s*" EmptyString (PyStr.replace "\b" EmptyString cleaned) in
  match PyStr.split_on "|" cleaned with
  | [] => None
  | part :: _ =>
      let keyword := PyStr.strip part in
      if negb (String.eqb keyword EmptyString)
         && Nat.leb 3 (String.length keyword)
         && PyStr.isalnum (PyStr.replace "_" EmptyString keyword)
      then Some (PyStr.lower keyword)
      else None
  end.

(** One entry of the index is made and the id appended unless present. *)
Definition index_add (key cid : string) (idx : gmap string (list string))
  : gmap string (list string) :=
  let ids : list string := default [] (idx !! key) in
  if bool_decide (cid ∈ ids) then <[key := ids]> idx
  else <[key := ids ++ [cid]]> idx.

Definition index_pattern (cid : string) (idx : gmap string (list string))
  (pattern : string) : gmap string (list string) :=
  match _extract_keyword_from_pattern pattern with
  | Some simple_keyword =>
      if Nat.leb 3 (String.length simple_keyword)
      then index_add simple_keyword cid idx else idx
  | None => idx
  end.

Definition index_constraint (idx : gmap string (list string)) (c : Constraint)
  : gmap string (list string) :=
  let cid := constraint_id c in
  if String.eqb cid EmptyString then idx
  else
    let idx1 := fold_left (fun i kw => index_add kw cid i) (trigger_keywords c) idx in
    fold_left (index_pattern cid) (trigger_patterns c) idx1.

(** The index that [_rebuild_keyword_index] computes from the rules. *)
Definition build_index (cs : list Constraint) : gmap string (list string) :=
  fold_left index_constraint cs ∅.

(** [{c["constraint_id"]: c for c in self.constraints if c.get("constraint_id")}]:
    the stored dictionary is named by its position; a later rule with the
    same id replaces an earlier one. *)
Fixpoint constraint_map_from (pos : nat) (cs : list Constraint)
  (mp : gmap string nat) : gmap string nat :=
  match cs with
  | [] => mp
  | c :: cs' =>
      constraint_map_from (S pos) cs'
        (if String.eqb (constraint_id c) EmptyString then mp
         else <[constraint_id c := pos]> mp)
  end.

Definition constraint_map (cs : list Constraint) : gmap string nat :=
  constraint_map_from 0 cs ∅.

(** [_check_context_filters] *)
Definition filter_ok (key : string) (context : gmap string string)
  (filters : gmap string (list string)) : bool :=
  match filters !! key with
  | None => true
  | Some allowed =>
      match context !! key with
      | Some v => bool_decide (v ∈ allowed)
      | None => false
      end
  end.

Definition _check_context_filters (context : gmap string string)
  (filters : gmap string (list string)) : bool :=
  if bool_decide (filters = ∅) then true
  else if negb (filter_ok "query_type" context filters) then false
  else if negb (filter_ok "vibe_mode" context filters) then false
  else true.

(** [_check_keywords_phase1] *)
Definition _check_keywords_phase1 (query : string) (c : Constraint) : bool :=
  let query_lower := PyStr.lower query in
  existsb (fun keyword => PyStr.contains keyword query_lower) (trigger_keywords c).

(** The combination step of [_check_patterns_phase2]. *)
Definition apply_trigger_logic (logic : string) (all_matches : list bool) : bool :=
  match all_matches with
  | [] => false
  | _ =>
      if String.eqb logic "OR" then PyStr.any all_matches
      else if String.eqb logic "AND" then PyStr.all all_matches
      else if String.eqb logic "NOT" then negb (PyStr.any all_matches)
      else PyStr.any all_matches
  end.

Section WithEngine.
Context `{RegexEngine}.

(** The manager object: the rules, the keyword index and the cache of
    compiled patterns. *)
Record Manager := mkManager {
  constraints : list Constraint;
  keyword_index : gmap string (list string);
  _regex_cache : gmap string regex
}.

Definition _rebuild_keyword_index (m : Manager) : Manager :=
  {| constraints := constraints m;
     keyword_index := build_index (constraints m);
     _regex_cache := _regex_cache m |}.

(** [_save_constraints]: [io_ok] tells whether the file was written; the
    index is rebuilt only then. *)
Definition _save_constraints (io_ok : bool) (m : Manager) : bool * Manager :=
  if io_ok then (true, _rebuild_keyword_index m) else (false, m).

(** [ConstraintManager(config_dir)] over the rules read from disk. *)
Definition init (loaded : list Constraint) : Manager :=
  _rebuild_keyword_index
    {| constraints := loaded; keyword_index := ∅; _regex_cache := ∅ |}.

Definition or_default (message : option string) (dflt : string) : string :=
  match message with
  | Some s => if String.eqb s EmptyString then dflt else s
  | None => dflt
  end.

(** [add_constraint]; [new_id] is [str(uuid.uuid4())[:8]] and [now] the
    clock reading. *)
Definition add_constraint (new_id now : string) (io_ok : bool)
  (descr : string) (keywords : list string) (action : string)
  (message : option string) (m : Manager) : string * Manager :=
  let constraint :=
    {| constraint_id := new_id; version := 1; description := descr;
       trigger_keywords := map (fun kw => PyStr.strip (PyStr.lower kw)) keywords;
       trigger_patterns := []; trigger_logic := "OR"; context_filters := ∅;
       enforcement_action := action;
       enforcement_message := or_default message descr; created := now;
       triggered_count := 0; last_triggered := None; enabled := true;
       false_positive_count := 0 |} in
  let m1 := {| constraints := constraints m ++ [constraint];
               keyword_index := keyword_index m;
               _regex_cache := _regex_cache m |} in
  (new_id, snd (_save_constraints io_ok m1)).

(** The validation loop of [add_constraint_v2]: every pattern is
    compiled; an [re.error] is passed over, any other exception leaves the
    loop and the function. *)
Fixpoint validate_patterns (patterns : list string) : option exception :=
  match patterns with
  | [] => None
  | pattern :: rest =>
      match re_compile pattern with
      | CompileRaises e => Some e
      | Compiled _ | ReError => validate_patterns rest
      end
  end.

(** [add_constraint_v2]: it raises, before anything is stored, when the
    validation of the patterns does. *)
Definition add_constraint_v2 (new_id now : string) (io_ok : bool)
  (descr : string) (patterns keywords : option (list string))
  (logic : string) (filters : option (gmap string (list string)))
  (action : string) (message : option string) (m : Manager)
  : outcome (string * Manager) :=
  let logic :=
    if String.eqb logic "OR" || String.eqb logic "AND" || String.eqb logic "NOT"
    then logic else "OR" in
  let constraint :=
    {| constraint_id := new_id; version := 2; description := descr;
       trigger_keywords :=
         map (fun kw => PyStr.strip (PyStr.lower kw)) (default [] keywords);
       trigger_patterns := default [] patterns; trigger_logic := logic;
       context_filters := default ∅ filters;
       enforcement_action := action;
       enforcement_message := or_default message descr; created := now;
       triggered_count := 0; last_triggered := None; enabled := true;
       false_positive_count := 0 |} in
  let m1 := {| constraints := constraints m ++ [constraint];
               keyword_index := keyword_index m;
               _regex_cache := _regex_cache m |} in
  match validate_patterns (default [] patterns) with
  | Some e => Raises e
  | None => Returns (new_id, snd (_save_constraints io_ok m1))
  end.

(** The store after a call of [add_constraint_v2]: as it was when the
    call raised. *)
Definition after_add (m : Manager) (r : outcome (string * Manager)) : Manager :=
  match r with
  | Returns (_, m') => m'
  | Raises _ => m
  end.

(** [get_constraint]: exact id or prefix of at least 4 characters, first
    stored match. *)
Definition get_constraint (m : Manager) (cid : string) : option Constraint :=
  if Nat.ltb (String.length cid) 4 then None
  else List.find (fun c => PyStr.startswith cid (constraint_id c)) (constraints m).

(** [disable_constraint] / [enable_constraint] *)
Fixpoint set_enabled_first (b : bool) (cid : string) (cs : list Constraint)
  : option (list Constraint) :=
  match cs with
  | [] => None
  | c :: cs' =>
      if PyStr.startswith cid (constraint_id c) then Some (set_enabled b c :: cs')
      else option_map (cons c) (set_enabled_first b cid cs')
  end.

Definition toggle_constraint (b : bool) (io_ok : bool) (cid : string)
  (m : Manager) : bool * Manager :=
  if Nat.ltb (String.length cid) 4 then (false, m)
  else match set_enabled_first b cid (constraints m) with
       | None => (false, m)
       | Some cs =>
           (true, snd (_save_constraints io_ok
                         {| constraints := cs; keyword_index := keyword_index m;
                            _regex_cache := _regex_cache m |}))
       end.

Definition disable_constraint := toggle_constraint false.
Definition enable_constraint := toggle_constraint true.

(** *** Legacy matching: [check_constraints] *)

Definition legacy_step (now query_lower : string)
  (acc : list nat * list Constraint) (pos : nat) : list nat * list Constraint :=
  let '(triggered, cs) := acc in
  match cs !! pos with
  | None => acc
  | Some c =>
      if negb (enabled c) then acc
      else if existsb (fun keyword => PyStr.contains keyword query_lower)
                (trigger_keywords c)
      then (triggered ++ [pos], <[pos := record_match now c]> cs)
      else acc
  end.

Definition check_constraints (now : string) (io_ok : bool) (query : string)
  (m : Manager) : list nat * Manager :=
  let '(triggered, cs) :=
    fold_left (legacy_step now (PyStr.lower query))
      (seq 0 (length (constraints m))) ([], constraints m) in
  let m1 := {| constraints := cs; keyword_index := keyword_index m;
               _regex_cache := _regex_cache m |} in
  (triggered,
   match triggered with
   | [] => m1
   | _ => snd (_save_constraints io_ok m1)
   end).

(** *** Advanced matching: [check_constraints_v2] *)

(** [_get_candidate_constraint_ids] *)
Definition query_words (query : string) : list string :=
  PyStr.split (PyStr.replace "." " " (PyStr.replace "," " " (PyStr.lower query))).

Definition add_word_candidates (idx : gmap string (list string))
  (candidate_ids : gset string) (word : string) : gset string :=
  match idx !! word with
  | Some ids => candidate_ids ∪ list_to_set ids
  | None => candidate_ids
  end.

Definition _get_candidate_constraint_ids (m : Manager) (query : string)
  : gset string :=
  fold_left (add_word_candidates (keyword_index m)) (query_words query) ∅.

(** [_check_regex_pattern]: what the call does and the cache after it.
    Only [re.error] is caught; another exception of [re.compile] leaves
    the function, the cache being as before. *)
Definition _check_regex_pattern (cache : gmap string regex)
  (query pattern : string) : outcome bool * gmap string regex :=
  match cache !! pattern with
  | Some r => (Returns (re_search r query), cache)
  | None =>
      match re_compile pattern with
      | Compiled r => (Returns (re_search r query), <[pattern := r]> cache)
      | ReError =>
          (Returns (PyStr.contains (PyStr.lower pattern) (PyStr.lower query)),
           cache)
      | CompileRaises e => (Raises e, cache)
      end
  end.

(** The loop over the patterns in [_check_patterns_phase2]; it ends at
    the first pattern whose check raises. *)
Fixpoint pattern_matches_loop (cache : gmap string regex) (query : string)
  (patterns : list string) : outcome (list bool) * gmap string regex :=
  match patterns with
  | [] => (Returns [], cache)
  | pattern :: rest =>
      match _check_regex_pattern cache query pattern with
      | (Returns b, cache1) =>
          match pattern_matches_loop cache1 query rest with
          | (Returns bs, cache2) => (Returns (b :: bs), cache2)
          | (Raises e, cache2) => (Raises e, cache2)
          end
      | (Raises e, cache1) => (Raises e, cache1)
      end
  end.

Definition keyword_matches (query : string) (keywords : list string) : list bool :=
  map (fun keyword => PyStr.contains keyword (PyStr.lower query)) keywords.

(** [_check_patterns_phase2] *)
Definition _check_patterns_phase2 (cache : gmap string regex) (query : string)
  (c : Constraint) : outcome bool * gmap string regex :=
  match pattern_matches_loop cache query (trigger_patterns c) with
  | (Returns pattern_matches, cache1) =>
      let all_matches :=
        pattern_matches ++ keyword_matches query (trigger_keywords c) in
      (Returns (apply_trigger_logic (trigger_logic c) all_matches), cache1)
  | (Raises e, cache1) => (Raises e, cache1)
  end.

(** The rules that the loop of [check_constraints_v2] visits, by position. *)
Definition constraints_to_check (m : Manager) (candidate_ids : gset string)
  : list nat :=
  if bool_decide (candidate_ids = ∅) then seq 0 (length (constraints m))
  else omap (fun cid => constraint_map (constraints m) !! cid)
            (elements candidate_ids).

(** One pass of the loop body.  When [_check_patterns_phase2] raises, the
    handler [except Exception] decides the rule by
    [_check_keywords_phase1]. *)
Definition v2_step (now query : string) (context : gmap string string)
  (acc : list nat * list Constraint * gmap string regex) (pos : nat)
  : list nat * list Constraint * gmap string regex :=
  let '(triggered, cs, cache) := acc in
  match cs !! pos with
  | None => acc
  | Some c =>
      if negb (enabled c) then acc
      else if (version c =? 2)
              && negb (_check_context_filters context (context_filters c))
      then acc
      else
        let '(matched, cache1) :=
          if version c =? 1 then (_check_keywords_phase1 query c, cache)
          else if version c =? 2
          then match _check_patterns_phase2 cache query c with
               | (Returns matched, cache1) => (matched, cache1)
               | (Raises _, cache1) => (_check_keywords_phase1 query c, cache1)
               end
          else (false, cache) in
        if matched
        then (triggered ++ [pos], <[pos := record_match now c]> cs, cache1)
        else (triggered, cs, cache1)
  end.

Definition check_constraints_v2 (now : string) (io_ok : bool) (query : string)
  (context : option (gmap string string)) (m : Manager) : list nat * Manager :=
  let context := default ∅ context in
  let candidate_ids := _get_candidate_constraint_ids m query in
  let '(triggered, cs, cache) :=
    fold_left (v2_step now query context)
      (constraints_to_check m candidate_ids) ([], constraints m, _regex_cache m) in
  let m1 := {| constraints := cs; keyword_index := keyword_index m;
               _regex_cache := cache |} in
  (triggered,
   match triggered with
   | [] => m1
   | _ => snd (_save_constraints io_ok m1)
   end).

(** The dictionaries behind a result. *)
Definition deref (m : Manager) (refs : list nat) : list Constraint :=
  omap (fun pos => constraints m !! pos) refs.

(** *** What one rule decides, without the cache *)

(** One pattern predicate: the compiled search, or the literal test when
    the pattern has a syntax error; it has no value when compiling the
    pattern raises another exception. *)
Definition pattern_pred (query pattern : string) : option bool :=
  match re_compile pattern with
  | Compiled r => Some (re_search r query)
  | ReError => Some (PyStr.contains (PyStr.lower pattern) (PyStr.lower query))
  | CompileRaises _ => None
  end.

(** The ordered list of predicate outcomes of a rule: patterns first,
    keywords after; there is none when some pattern predicate has no
    value. *)
Definition predicates (query : string) (c : Constraint) : option (list bool) :=
  (fun pattern_matches =>
     pattern_matches ++ keyword_matches query (trigger_keywords c))
  <$> mapM (pattern_pred query) (trigger_patterns c).

(** Whether the loop body of [check_constraints_v2] records a match for
    the rule [c]. *)
Definition rule_fires (query : string) (context : gmap string string)
  (c : Constraint) : bool :=
  enabled c
  && negb ((version c =? 2)
           && negb (_check_context_filters context (context_filters c)))
  && (if version c =? 1 then _check_keywords_phase1 query c
      else if version c =? 2
           then match predicates query c with
                | Some all_matches =>
                    apply_trigger_logic (trigger_logic c) all_matches
                | None => _check_keywords_phase1 query c
                end
           else false).

Definition fires_at (query : string) (context : gmap string string)
  (cs : list Constraint) (pos : nat) : bool :=
  match cs !! pos with
  | Some c => rule_fires query context c
  | None => false
  end.

(** Every cached entry is what compiling its key gives. *)
Definition cache_ok (cache : gmap string regex) : Prop :=
  forall pattern r, cache !! pattern = Some r -> re_compile pattern = Compiled r.

(** The store after the matches at [triggered] were recorded. *)
Definition recorded (now : string) (triggered : list nat)
  (cs : list Constraint) (pos : nat) : option Constraint :=
  if bool_decide (pos ∈ triggered) then record_match now <$> cs !! pos
  else cs !! pos.

(** The positions that a scan of every stored rule would return: the
    reference against which the indexed path is compared. *)
Definition full_scan_matches (query : string) (context : gmap string string)
  (m : Manager) : list nat :=
  List.filter (fires_at query context (constraints m))
    (seq 0 (length (constraints m))).

(** The two guards at the head of the loop body of
    [check_constraints_v2]: a rule they stop is passed over. *)
Definition skipped (context : gmap string string) (c : Constraint) : Prop :=
  enabled c = false
  \/ (version c = 2
      /\ _check_context_filters context (context_filters c) = false).

(** Every position of [triggered] holds an enabled rule. *)
Definition all_enabled (triggered : list nat) (cs : list Constraint) : Prop :=
  forall p, p ∈ triggered -> exists r, cs !! p = Some r /\ enabled r = true.

(** The id [cid] is listed under [key] in the index. *)
Definition indexed (idx : gmap string (list string)) (key cid : string) : Prop :=
  exists ids, idx !! key = Some ids /\ cid ∈ ids.

End WithEngine.

End ConstraintManager.

(** An instance of the engine interface for running examples.  It reads a
    pattern as a literal, searched case-insensitively; as [re.compile]
    does, it raises [OverflowError] for the repetition count
    [{99999999999}] and rejects with [re.error] a pattern that opens a
    group without closing it. *)
#[local] Instance literal_engine : RegexEngine := {|
  regex := string;
  re_compile := fun pattern =>
    if PyStr.contains "{99999999999}" pattern then CompileRaises OverflowError
    else if PyStr.contains "(" pattern && negb (PyStr.contains ")" pattern)
    then ReError else Compiled pattern;
  re_search := fun r query =>
    PyStr.contains (PyStr.lower r) (PyStr.lower query)
|}.

(** ** Sample stores *)

Module Examples.
Import ConstraintManager.

Section Stores.
Context `{RegexEngine}.

(** One version-2 rule scoped by a [language] filter. *)
Definition language_store : Manager :=
  after_add (init [])
    (add_constraint_v2 "c0ffee01" "t0" true "No mock data in Python"
       None (Some ["mock"]) "OR" (Some {[ "language" := ["python"] ]})
       "block" None (init [])).

(** One version-2 rule scoped by a [query_type] filter. *)
Definition query_type_store : Manager :=
  after_add (init [])
    (add_constraint_v2 "c0ffee02" "t0" true "No mock data when generating"
       None (Some ["mock"]) "OR" (Some {[ "query_type" := ["generate"] ]})
       "block" None (init [])).

(** A legacy rule followed by a version-2 rule with a pattern that
    [re.compile] rejects, the first one disabled afterwards. *)
Definition mixed_store : Manager :=
  let m1 := snd (add_constraint "aaaa1111" "t0" true "Never use mock data"
                   ["Mock"; "demo"] "warn" None (init [])) in
  let m2 := after_add m1
              (add_constraint_v2 "bbbb2222" "t1" true "Unclosed group"
                 (Some ["a("]) (Some ["data"]) "AND" None "block" None m1) in
  snd (disable_constraint true "aaaa" m2).

(** Three version-2 keyword rules: [data] and [mock] under OR, [prod]
    under NOT. *)
Definition shadow_store : Manager :=
  let m1 := after_add (init [])
              (add_constraint_v2 "aaaa0001" "t0" true "Data handling"
                 None (Some ["data"]) "OR" None "warn" None (init [])) in
  let m2 := after_add m1
              (add_constraint_v2 "bbbb0002" "t1" true "No mock"
                 None (Some ["mock"]) "OR" None "block" None m1) in
  after_add m2
    (add_constraint_v2 "cccc0003" "t2" true "Only outside production"
       None (Some ["prod"]) "NOT" None "warn" None m2).




End Stores.

End Examples.

(** ** The supervisor *)

Module ConstraintSupervisor.

(** Python [max(a, b)] and [min(a, b)] on numbers: the first argument wins
    unless the second is strictly larger (smaller). *)
Definition Qltb (a b : Q) : bool := negb (Qle_bool b a).
Definition py_max (a b : Q) : Q := if Qltb a b then b else a.
Definition py_min (a b : Q) : Q := if Qltb b a then b else a.

(** One entry of [trigger_history]. *)
Record Trigger := mkTrigger {
  timestamp : string;
  query : string;
  result : string
}.

(** One suggestion dictionary. *)
Record Suggestion := mkSuggestion {
  type : string;
  reason : string;
  suggestion : string;
  confidence : Q
}.

(** The analytics record of one rule. *)
Record Analytics := mkAnalytics {
  constraint_id : string;
  total_triggers : Z;
  false_positives : Z;
  true_positives : Z;
  unknown : Z;
  auto_disabled_count : Z;
  last_analyzed : option string;
  precision : Q;
  effectiveness_score : Q;
  drift_score : Q;
  trigger_history : list Trigger;
  suggested_improvements : list Suggestion
}.

(** [self.analytics]: the version tag and the records by rule id.  The
    [global_stats] and [learned_patterns] entries are not read or written
    by the operations below. *)
Record Store := mkStore {
  analytics_version : string;
  created : string;
  constraints : gmap string Analytics
}.

(** [_create_default_analytics] *)
Definition _create_default_analytics (now : string) : Store :=
  {| analytics_version := "1.0.0"; created := now; constraints := ∅ |}.

(** The record made by [record_trigger] on first use. *)
Definition new_record (cid : string) : Analytics :=
  {| constraint_id := cid; total_triggers := 0; false_positives := 0;
     true_positives := 0; unknown := 0; auto_disabled_count := 0;
     last_analyzed := None; precision := 0; effectiveness_score := 0;
     drift_score := 0; trigger_history := []; suggested_improvements := [] |}.

Definition is_true_positive (t : Trigger) : bool :=
  String.eqb (result t) "true_positive".

(** [_calculate_precision] *)
Definition _calculate_precision (trigger_list : list Trigger) : Q :=
  match trigger_list with
  | [] => 0
  | _ =>
      let tp := Z.of_nat (length (List.filter is_true_positive trigger_list)) in
      let total := Z.of_nat (length trigger_list) in
      if 0 <? total then (inject_Z tp / inject_Z total)%Q else 0
  end.

Definition Qsum (l : list Q) : Q := fold_left Qplus l 0%Q.

(** [_calculate_variance] *)
Definition _calculate_variance (values : list bool) : Q :=
  match values with
  | [] => 0
  | _ =>
      let numeric_values := map (fun v : bool => if v then 1%Q else 0%Q) values in
      let n := inject_Z (Z.of_nat (length numeric_values)) in
      let mean := (Qsum numeric_values / n)%Q in
      (Qsum (map (fun x => (x - mean) ^ 2)%Q numeric_values) / n)%Q
  end.

(** The body of [detect_drift] once the record is found: the drift of a
    trigger history for a window size. *)
Definition drift_of_history (trigger_history : list Trigger) (window_size : Z) : Q :=
  let len := Z.of_nat (length trigger_history) in
  if len <? window_size then 0
  else
    let recent := PyStr.slice trigger_history (Some (- window_size)) None in
    let older :=
      if 2 * window_size <=? len
      then PyStr.slice trigger_history (Some (- (2 * window_size)))
             (Some (- window_size))
      else [] in
    let recent_precision := _calculate_precision recent in
    let older_precision :=
      match older with
      | [] => recent_precision
      | _ => _calculate_precision older
      end in
    let precision_decline := py_max 0 (older_precision - recent_precision)%Q in
    let variance := _calculate_variance (map is_true_positive recent) in
    let drift_score :=
      (precision_decline * (7 # 10) + variance * (3 # 10))%Q in
    py_min drift_score 1.

(** [detect_drift] *)
Definition detect_drift (st : Store) (cid : string) (window_size : Z) : Q :=
  match constraints st !! cid with
  | None => 0
  | Some analytics => drift_of_history (trigger_history analytics) window_size
  end.

Definition set_metrics (a : Analytics) (p e d : Q) (analyzed : option string)
  : Analytics :=
  {| constraint_id := constraint_id a; total_triggers := total_triggers a;
     false_positives := false_positives a; true_positives := true_positives a;
     unknown := unknown a; auto_disabled_count := auto_disabled_count a;
     last_analyzed := analyzed; precision := p; effectiveness_score := e;
     drift_score := d; trigger_history := trigger_history a;
     suggested_improvements := suggested_improvements a |}.

Definition put (st : Store) (cid : string) (a : Analytics) : Store :=
  {| analytics_version := analytics_version st; created := created st;
     constraints := <[cid := a]> (constraints st) |}.

(** [_recalculate_metrics]: the three derived fields are written one after
    the other into the same record; the drift is computed on the store
    that already holds the new precision and effectiveness. *)
Definition _recalculate_metrics (now : string) (st : Store) (cid : string) : Store :=
  match constraints st !! cid with
  | None => st
  | Some analytics =>
      let tp := true_positives analytics in
      let fp := false_positives analytics in
      let total := tp + fp in
      let p := if 0 <? total then (inject_Z tp / inject_Z total)%Q else 0%Q in
      let trigger_rate := py_min (inject_Z total / 100) 1 in
      let e := (p * trigger_rate)%Q in
      let a1 := set_metrics analytics p e (drift_score analytics)
                  (last_analyzed analytics) in
      let st1 := put st cid a1 in
      let d := detect_drift st1 cid 10 in
      put st1 cid (set_metrics a1 p e d (Some now))
  end.

(** The counter and history updates of [record_trigger]. *)
Definition count_feedback (now query user_feedback : string) (a : Analytics)
  : Analytics :=
  let is_tp := String.eqb user_feedback "true_positive" in
  let is_fp := String.eqb user_feedback "false_positive" in
  let history :=
    trigger_history a
    ++ [ {| timestamp := now; query := PyStr.str_prefix 100 query;
            result := user_feedback |} ] in
  {| constraint_id := constraint_id a;
     total_triggers := total_triggers a + 1;
     false_positives :=
       if is_tp then false_positives a
       else if is_fp then false_positives a + 1 else false_positives a;
     true_positives := if is_tp then true_positives a + 1 else true_positives a;
     unknown :=
       if is_tp then unknown a else if is_fp then unknown a else unknown a + 1;
     auto_disabled_count := auto_disabled_count a;
     last_analyzed := last_analyzed a; precision := precision a;
     effectiveness_score := effectiveness_score a;
     drift_score := drift_score a;
     trigger_history :=
       if Nat.ltb 50 (length history)
       then PyStr.slice history (Some (-50)) None else history;
     suggested_improvements := suggested_improvements a |}.

(** [record_trigger]; the outcome of writing the file is ignored by the
    source, which returns [True]. *)
Definition record_trigger (now : string) (cid query user_feedback : string)
  (st : Store) : bool * Store :=
  let analytics := default (new_record cid) (constraints st !! cid) in
  let st1 := put st cid (count_feedback now query user_feedback analytics) in
  (true, _recalculate_metrics now st1 cid).

(** A sequence of [record_trigger] calls, each given as the clock
    reading, the rule id, the query and the feedback. *)
Definition run_triggers (calls : list (string * string * string * string))
  (st : Store) : Store :=
  fold_left (fun st '(now, cid, query, user_feedback) =>
               snd (record_trigger now cid query user_feedback st))
    calls st.

(** The record that [_recalculate_metrics] leaves for a rule whose record
    was [analytics]. *)
Definition recalculated (now : string) (analytics : Analytics) : Analytics :=
  let tp := true_positives analytics in
  let fp := false_positives analytics in
  let total := tp + fp in
  let p := if 0 <? total then (inject_Z tp / inject_Z total)%Q else 0%Q in
  let e := (p * py_min (inject_Z total / 100) 1)%Q in
  set_metrics analytics p e (drift_of_history (trigger_history analytics) 10)
    (Some now).

(** The derived fields of a record agree with its counters and history. *)
Definition metrics_ok (a : Analytics) : Prop :=
  0 <= true_positives a /\ 0 <= false_positives a
  /\ precision a
     = (if 0 <? true_positives a + false_positives a
        then (inject_Z (true_positives a)
              / inject_Z (true_positives a + false_positives a))%Q
        else 0%Q)
  /\ effectiveness_score a
     = (precision a
        * py_min (inject_Z (true_positives a + false_positives a) / 100) 1)%Q
  /\ drift_score a = drift_of_history (trigger_history a) 10.

(** *** Reference notions for the drift formula *)

(** The 0/1 indicator of a true positive. *)
Definition indicator (t : Trigger) : Q := if is_true_positive t then 1%Q else 0%Q.

(** Population variance: the mean of the squared deviations from the
    mean. *)
Definition population_variance (xs : list Q) : Q :=
  let n := inject_Z (Z.of_nat (length xs)) in
  let mean := (Qsum xs / n)%Q in
  (Qsum (map (fun x => (x - mean) ^ 2)%Q xs) / n)%Q.

(** The fraction of true positives in a window. *)
Definition window_precision (window : list Trigger) : Q :=
  (inject_Z (Z.of_nat (length (List.filter is_true_positive window)))
   / inject_Z (Z.of_nat (length window)))%Q.

(** The last [n] entries of a list. *)
Definition last_entries {A} (n : nat) (l : list A) : list A :=
  drop (length l - n) l.

(** [_generate_health_recommendations] *)
Definition _generate_health_recommendations (precision fp_rate drift_score : Q)
  : list string :=
  let recommendations :=
    (if Qltb precision (70 # 100)
     then ["Low precision - Consider narrowing trigger patterns or adding context filters"]
     else [])
    ++ (if Qltb (30 # 100) fp_rate
        then ["High false positive rate - Review recent false positives and adjust patterns"]
        else [])
    ++ (if Qltb (50 # 100) drift_score
        then ["High drift detected - Constraint effectiveness is declining over time"]
        else [])
    ++ (if Qltb (70 # 100) drift_score
        then ["CRITICAL: Very high drift - Consider disabling or rewriting this constraint"]
        else []) in
  match recommendations with
  | [] => ["Constraint is performing well - no action needed"]
  | _ => recommendations
  end.

(** The dictionary returned by [analyze_constraint_health]. *)
Inductive Health :=
| HealthMessage (status message : string)
| HealthMetrics (cid status : string)
    (precision fp_rate effectiveness_score drift_score : Q)
    (total_triggers true_positives false_positives : Z)
    (recommendations : list string).

Definition status (h : Health) : string :=
  match h with
  | HealthMessage s _ => s
  | HealthMetrics _ s _ _ _ _ _ _ _ _ => s
  end.

(** The status thresholds of [analyze_constraint_health]. *)
Definition health_status (precision drift_score : Q) : string :=
  if Qle_bool (90 # 100) precision && Qltb drift_score (2 # 10) then "healthy"
  else if Qle_bool (75 # 100) precision && Qltb drift_score (5 # 10)
  then "acceptable"
  else if Qle_bool (50 # 100) precision || Qltb drift_score (7 # 10)
  then "needs_review"
  else "unhealthy".

Section HealthReport.
Context `{FloatRounding}.

(** [analyze_constraint_health] *)
Definition analyze_constraint_health (st : Store) (cid : string) : Health :=
  match constraints st !! cid with
  | None => HealthMessage "no_data" "No analytics data available"
  | Some analytics =>
      let tp := true_positives analytics in
      let fp := false_positives analytics in
      let total := tp + fp in
      if total =? 0
      then HealthMessage "no_triggers" "Constraint has not been triggered yet"
      else
        let precision :=
          if 0 <? total then (inject_Z tp / inject_Z total)%Q else 0%Q in
        let fp_rate :=
          if 0 <? total then (inject_Z fp / inject_Z total)%Q else 0%Q in
        let effectiveness := effectiveness_score analytics in
        let drift_score := drift_score analytics in
        HealthMetrics cid (health_status precision drift_score)
          (round precision 3) (round fp_rate 3) (round effectiveness 3)
          (round drift_score 3) total tp fp
          (_generate_health_recommendations precision fp_rate drift_score)
  end.

End HealthReport.

(** The one-character string holding a double quote. *)
Definition dquote : string := String (ascii_of_nat 34) EmptyString.

Section Suggestions.
Context `{RegexEngine}.

(** [f"{x:.2f}"], the two-decimal rendering of a number, is left to the
    caller. *)
Variable format_2f : Q -> string.

Definition narrow_pattern_suggestion (fp_rate : Q) (pattern : string)
  : Suggestion :=
  let new_pattern := PyStr.replace ".*" "\b" pattern in
  {| type := "narrow_pattern";
     reason := ("Pattern '" ++ pattern ++ "' too broad (FP rate: "
                ++ format_2f fp_rate ++ ")")%string;
     suggestion := ("Consider narrowing to '" ++ new_pattern
                    ++ "' (word boundary)")%string;
     confidence := 75 # 100 |}.

(** The false-positive rate that [suggest_improvements] computes:
    [false_positives / max(total_triggers, 1)]. *)
Definition suggestion_fp_rate (analytics : Analytics) : Q :=
  (inject_Z (false_positives analytics)
   / inject_Z (Z.max (total_triggers analytics) 1))%Q.

(** [suggest_improvements] *)
Definition suggest_improvements (st : Store) (manager : ConstraintManager.Manager)
  (cid : string) : list Suggestion :=
  match constraints st !! cid, ConstraintManager.get_constraint manager cid with
  | Some analytics, Some constraint =>
      let precision := precision analytics in
      let fp_rate := suggestion_fp_rate analytics in
      (if Qltb (20 # 100) fp_rate
       then map (narrow_pattern_suggestion fp_rate)
              (List.filter (PyStr.contains ".*")
                 (ConstraintManager.trigger_patterns constraint))
       else [])
      ++ (if Qltb (15 # 100) fp_rate
             && bool_decide (ConstraintManager.context_filters constraint = ∅)
          then [ {| type := "add_context_filter";
                    reason := "High false positive rate without context filters";
                    suggestion :=
                      ("Consider restricting to 'generate' mode only: {"
                       ++ dquote ++ "query_type" ++ dquote ++ ": ["
                       ++ dquote ++ "generate" ++ dquote ++ "]}")%string;
                    confidence := 65 # 100 |} ]
          else [])
      ++ (if Qltb (95 # 100) precision
             && String.eqb (ConstraintManager.enforcement_action constraint) "warn"
          then [ {| type := "increase_enforcement";
                    reason := ("Very high precision (" ++ format_2f precision
                               ++ ")")%string;
                    suggestion := "Consider escalating enforcement from 'warn' to 'block'";
                    confidence := 80 # 100 |} ]
          else [])
      ++ (if Qltb precision (50 # 100)
          then [ {| type := "disable_constraint";
                    reason := ("Very low precision (" ++ format_2f precision
                               ++ ")")%string;
                    suggestion := "Consider disabling this constraint and reviewing patterns";
                    confidence := 90 # 100 |} ]
          else [])
  | _, _ => []
  end.

End Suggestions.

End ConstraintSupervisor.

(** An instance of the rounding interface for running examples: the
    nearest multiple of [10^-ndigits] of the exact rational, ties to the
    even one.  It differs from Python where the rational is a tie and its
    float is not (1/80 to three digits); no statement depends on it. *)
Definition round_half_even (y : Q) : Z :=
  let f := Qfloor y in
  let d := (y - inject_Z f)%Q in
  if ConstraintSupervisor.Qltb d (1 # 2) then f
  else if ConstraintSupervisor.Qltb (1 # 2) d then f + 1
  else if Z.even f then f else f + 1.

#[local] Instance decimal_rounding : FloatRounding := {|
  round := fun x ndigits =>
    let scale := inject_Z (10 ^ Z.of_nat ndigits) in
    (inject_Z (round_half_even (x * scale)) / scale)%Q
|}.

(** ** Sample feedback *)

Module FeedbackExamples.
Import ConstraintSupervisor.

(** Three false positives, then seven true positives, for one rule. *)
Definition three_false_seven_true : list (string * string * string * string) :=
  [ ("t01", "abc12345", "Create mock API", "false_positive");
    ("t02", "abc12345", "Mock interview tips", "false_positive");
    ("t03", "abc12345", "Explain mock objects", "false_positive");
    ("t04", "abc12345", "Use mock data here", "true_positive");
    ("t05", "abc12345", "Add mock users", "true_positive");
    ("t06", "abc12345", "Return mock response", "true_positive");
    ("t07", "abc12345", "Seed with mock rows", "true_positive");
    ("t08", "abc12345", "Mock the payment call", "true_positive");
    ("t09", "abc12345", "Fill with mock values", "true_positive");
    ("t10", "abc12345", "Generate mock orders", "true_positive") ].

Definition store_after_feedback : Store :=
  run_triggers three_false_seven_true (_create_default_analytics "t00").

(** A rule with a broad pattern, and three false positives recorded for
    it. *)
Definition broad_rule_manager : ConstraintManager.Manager :=
  ConstraintManager.after_add (ConstraintManager.init [])
    (ConstraintManager.add_constraint_v2 "dddd4444" "t0" true
       "No mock endpoints" (Some ["mock.*api"]) None "OR" None "warn" None
       (ConstraintManager.init [])).

Definition broad_rule_store : Store :=
  run_triggers
    [ ("t1", "dddd4444", "mock trial api", "false_positive");
      ("t2", "dddd4444", "mockingbird api", "false_positive");
      ("t3", "dddd4444", "mock exam api", "false_positive") ]
    (_create_default_analytics "t0").

End FeedbackExamples.

(** ** Further operations of the rule store *)

Module ManagerOps.
Import ConstraintManager.

(** The entry [most_triggered] of the statistics. *)
Record MostTriggered := mkMostTriggered {
  mt_constraint_id : string;
  mt_description : string;
  mt_triggered_count : Z
}.

(** The dictionary returned by [get_stats]. *)
Record Stats := mkStats {
  total_constraints : nat;
  enabled_constraints : nat;
  total_triggers : Z;
  most_triggered : option MostTriggered
}.

(** The loop of [get_stats] that keeps the first rule with the largest
    positive count. *)
Definition most_triggered_step (acc : Z * option MostTriggered) (c : Constraint)
  : Z * option MostTriggered :=
  let '(max_count, best) := acc in
  let count := triggered_count c in
  if max_count <? count
  then (count, Some {| mt_constraint_id := constraint_id c;
                       mt_description := description c;
                       mt_triggered_count := count |})
  else acc.

(** [sum(c.get("triggered_count", 0) for c in self.constraints)] *)
Definition sum_triggers (cs : list Constraint) : Z :=
  fold_right (fun c s => triggered_count c + s) 0 cs.

(** The first rule whose id starts with [cid] leaves the list. *)
Fixpoint remove_first (cid : string) (cs : list Constraint)
  : option (list Constraint) :=
  match cs with
  | [] => None
  | c :: cs' =>
      if PyStr.startswith cid (constraint_id c) then Some cs'
      else option_map (cons c) (remove_first cid cs')
  end.

(** [c] is the first stored rule whose id starts with [cid]. *)
Definition first_match (cid : string) (cs pre : list Constraint)
  (c : Constraint) (post : list Constraint) : Prop :=
  cs = pre ++ c :: post
  /\ PyStr.startswith cid (constraint_id c) = true
  /\ forall c', c' ∈ pre -> PyStr.startswith cid (constraint_id c') = false.

Section WithEngine.
Context `{RegexEngine}.

(** [remove_constraint] *)
Definition remove_constraint (io_ok : bool) (cid : string) (m : Manager)
  : bool * Manager :=
  if Nat.ltb (String.length cid) 4 then (false, m)
  else match remove_first cid (constraints m) with
       | None => (false, m)
       | Some cs =>
           (true, snd (_save_constraints io_ok
                         {| constraints := cs; keyword_index := keyword_index m;
                            _regex_cache := _regex_cache m |}))
       end.

(** [list_constraints] *)
Definition list_constraints (enabled_only : bool) (m : Manager) : list Constraint :=
  if enabled_only then List.filter enabled (constraints m) else constraints m.

(** [get_stats] *)
Definition get_stats (m : Manager) : Stats :=
  {| total_constraints := length (constraints m);
     enabled_constraints := length (List.filter enabled (constraints m));
     total_triggers := sum_triggers (constraints m);
     most_triggered := snd (fold_left most_triggered_step (constraints m) (0, None)) |}.

End WithEngine.

End ManagerOps.

(** ** Reference notions for the keyword index *)

Module IndexSpec.
Import ConstraintManager.

(** The key that a pattern contributes to the index. *)
Definition pattern_key (pattern key : string) : Prop :=
  _extract_keyword_from_pattern pattern = Some key
  /\ (3 <= String.length key)%nat.

(** What a rule with an id contributes. *)
Definition contributes (c : Constraint) (key : string) : Prop :=
  key ∈ trigger_keywords c
  \/ exists p, p ∈ trigger_patterns c /\ pattern_key p key.

(** No entry lists an id twice, and no entry is empty. *)
Definition entries_ok (idx : gmap string (list string)) : Prop :=
  forall key ids, idx !! key = Some ids -> NoDup ids /\ ids <> [].

End IndexSpec.

(** ** The constraint check of the chat client ([grokflow.py]) *)

Module GrokFlowCLI.
Import ConstraintManager.

(** What [chat] prints for a triggered rule. *)
Inductive Notice :=
| BlockedNotice (message : string)
| WarningNotice (message : string)
| ActionNotice (message : string).

(** The loop over the triggered rules: notices in order, and the rule
    that blocked the request, at which the loop returns. *)
Fixpoint enforce (triggered : list Constraint) : list Notice * option Constraint :=
  match triggered with
  | [] => ([], None)
  | constraint :: rest =>
      let action := enforcement_action constraint in
      let message := enforcement_message constraint in
      if String.eqb action "block" then ([BlockedNotice message], Some constraint)
      else
        let '(notices, blocked) := enforce rest in
        ((if String.eqb action "warn" then [WarningNotice message]
          else if String.eqb action "require_action" then [ActionNotice message]
          else []) ++ notices, blocked)
  end.

Section WithEngine.
Context `{RegexEngine}.

(** [chat], up to the point where the messages are built: the legacy
    check, then the loop over the triggered rules.  [Some c] in the second
    component is the answer
    [{"success": False, "error": "Blocked by constraint", "constraint": c}];
    with [None] the request goes on. *)
Definition chat (now : string) (io_ok : bool) (prompt : string) (m : Manager)
  : list Notice * option Constraint * Manager :=
  let '(triggered, m') := check_constraints now io_ok prompt m in
  let '(notices, blocked) := enforce (deref m' triggered) in
  (notices, blocked, m').

End WithEngine.

End GrokFlowCLI.

(** ** Reference notions for the legacy check *)

Module LegacySpec.
Import ConstraintManager.

(** Whether the loop body of [check_constraints] records a match for the
    rule: it is enabled and one of its keywords occurs in the lowercased
    query. *)
Definition legacy_fires (query : string) (c : Constraint) : bool :=
  enabled c
  && existsb (fun keyword => PyStr.contains keyword (PyStr.lower query))
       (trigger_keywords c).

Definition legacy_fires_at (query : string) (cs : list Constraint) (pos : nat)
  : bool :=
  match cs !! pos with
  | Some c => legacy_fires query c
  | None => false
  end.

(** The rule after the check: its match recorded when it fired. *)
Definition after_check (now query : string) (c : Constraint) : Constraint :=
  if legacy_fires query c then record_match now c else c.

Definition is_block (c : Constraint) : bool :=
  String.eqb (enforcement_action c) "block".

End LegacySpec.

(** ** Reference notions for recorded feedback *)

Module FeedbackSpec.
Import ConstraintSupervisor.

(** The calls of a sequence that concern the rule [cid]. *)
Definition calls_for (cid : string)
  (calls : list (string * string * string * string))
  : list (string * string * string * string) :=
  List.filter (fun '(now, cid', query, user_feedback) => String.eqb cid' cid) calls.

(** The feedback of a call. *)
Definition feedback_of (call : string * string * string * string) : string :=
  snd call.

(** The history entry that [record_trigger] appends for a call. *)
Definition entry_of (call : string * string * string * string) : Trigger :=
  let '(now, cid, query, user_feedback) := call in
  {| timestamp := now; query := PyStr.str_prefix 100 query;
     result := user_feedback |}.

(** How many calls carry the feedback [label]. *)
Definition count_feedback_label (label : string)
  (calls : list (string * string * string * string)) : Z :=
  Z.of_nat (length (List.filter (fun call => String.eqb (feedback_of call) label)
                      calls)).

(** The record of a rule, or the fresh one that [record_trigger] would
    make. *)
Definition record_or_new (st : Store) (cid : string) : Analytics :=
  default (new_record cid) (constraints st !! cid).

End FeedbackSpec.

(** ** Learning from the query history and the dashboard *)

Module NewConstraints.
Import ConstraintSupervisor.

(** One suggestion dictionary of [suggest_new_constraints]. *)
Record NewConstraint := mkNewConstraint {
  type : string;
  pattern : string;
  frequency : Z;
  suggested_description : string;
  confidence : Q;
  enforcement_action : string
}.

(** [keyword_freq[word] = keyword_freq.get(word, 0) + 1] on a dictionary
    kept in the order in which its keys were first written. *)
Fixpoint bump (word : string) (keyword_freq : list (string * Z))
  : list (string * Z) :=
  match keyword_freq with
  | [] => [(word, 1)]
  | (k, v) :: rest =>
      if String.eqb k word then (k, v + 1) :: rest
      else (k, v) :: bump word rest
  end.

Definition count_word (keyword_freq : list (string * Z)) (word : string)
  : list (string * Z) :=
  if Nat.leb 3 (String.length word) then bump word keyword_freq
  else keyword_freq.

(** [_analyze_keyword_frequency]; the words of a query are cut as in
    [_get_candidate_constraint_ids]. *)
Definition _analyze_keyword_frequency (query_history : list string)
  : list (string * Z) :=
  fold_left (fun keyword_freq query =>
               fold_left count_word (ConstraintManager.query_words query)
                 keyword_freq)
    query_history [].

Section WithEngine.
Context `{RegexEngine}.

(** The set [existing_keywords] of [_find_uncovered_patterns]. *)
Definition existing_keywords (manager : ConstraintManager.Manager)
  : gset string :=
  fold_left (fun acc c =>
               acc ∪ list_to_set (ConstraintManager.trigger_keywords c))
    (ManagerOps.list_constraints false manager) ∅.

(** [_find_uncovered_patterns] *)
Definition _find_uncovered_patterns (manager : ConstraintManager.Manager)
  (keyword_freq : list (string * Z)) : list (string * Z) :=
  List.filter (fun '(keyword, freq) =>
                 negb (bool_decide (keyword ∈ existing_keywords manager)))
    keyword_freq.

(** [suggest_new_constraints] *)
Definition suggest_new_constraints (manager : ConstraintManager.Manager)
  (query_history : list string) : list NewConstraint :=
  let keyword_freq := _analyze_keyword_frequency query_history in
  let uncovered_patterns := _find_uncovered_patterns manager keyword_freq in
  map (fun '(pattern, freq) =>
         {| type := "new_constraint";
            pattern := pattern;
            frequency := freq;
            suggested_description :=
              ("Consider blocking '" ++ pattern ++ "' pattern")%string;
            confidence := py_min (inject_Z freq / 10) (95 # 100);
            enforcement_action := "warn" |})
    (List.filter (fun '(pattern, freq) => 3 <=? freq) uncovered_patterns).

End WithEngine.

(** The words of at least three characters of all the queries, in
    order. *)
Definition counted_words (query_history : list string) : list string :=
  List.filter (fun word => Nat.leb 3 (String.length word))
    (concat (map ConstraintManager.query_words query_history)).

(** How often a word occurs in the queries. *)
Definition occurrences (query_history : list string) (word : string) : Z :=
  Z.of_nat (count_occ string_dec (counted_words query_history) word).

(** [keyword_freq.get(word)] *)
Definition freq_get (word : string) (keyword_freq : list (string * Z))
  : option Z :=
  option_map snd (List.find (fun kv => String.eqb (fst kv) word) keyword_freq).

(** The dictionary after counting the words [ws]: one entry for each
    word that occurs, holding the number of its occurrences. *)
Definition counts (ws : list string) (keyword_freq : list (string * Z)) : Prop :=
  NoDup (map fst keyword_freq)
  /\ forall k, freq_get k keyword_freq
               = if Nat.eqb (count_occ string_dec ws k) 0 then None
                 else Some (Z.of_nat (count_occ string_dec ws k)).

End NewConstraints.

Module Dashboard.
Import ConstraintSupervisor.

(** The lists and sums that the loop of [get_dashboard_data] builds. *)
Record Tally := mkTally {
  healthy : list Health;
  needs_review : list Health;
  unhealthy : list Health;
  total_precision : Q;
  count : Z
}.

(** [health.get("precision", 0.0)] *)
Definition health_precision (h : Health) : Q :=
  match h with
  | HealthMessage _ _ => 0
  | HealthMetrics _ _ precision _ _ _ _ _ _ _ => precision
  end.

Section WithRounding.
Context `{FloatRounding}.

(** One round of the loop. *)
Definition tally_step (st : Store) (t : Tally) (cid : string) : Tally :=
  let health := analyze_constraint_health st cid in
  if String.eqb (status health) "healthy"
  then {| healthy := healthy t ++ [health]; needs_review := needs_review t;
          unhealthy := unhealthy t;
          total_precision := (total_precision t + health_precision health)%Q;
          count := count t + 1 |}
  else if String.eqb (status health) "acceptable"
  then {| healthy := healthy t ++ [health]; needs_review := needs_review t;
          unhealthy := unhealthy t;
          total_precision := (total_precision t + health_precision health)%Q;
          count := count t + 1 |}
  else if String.eqb (status health) "needs_review"
  then {| healthy := healthy t; needs_review := needs_review t ++ [health];
          unhealthy := unhealthy t;
          total_precision := (total_precision t + health_precision health)%Q;
          count := count t + 1 |}
  else if String.eqb (status health) "unhealthy"
  then {| healthy := healthy t; needs_review := needs_review t;
          unhealthy := unhealthy t ++ [health];
          total_precision := (total_precision t + health_precision health)%Q;
          count := count t + 1 |}
  else t.

(** The entry [overall_health]. *)
Record Overall := mkOverall {
  overall_status : string;
  average_precision : Q;
  total_constraints : Z;
  healthy_count : nat;
  needs_review_count : nat;
  unhealthy_count : nat
}.

(** The dictionary returned by [get_dashboard_data]; [needs_review_list]
    and [unhealthy_list] are its entries [needs_review] and [unhealthy]. *)
Record Data := mkData {
  overall_health : Overall;
  healthy_constraints : list Health;
  needs_review_list : list Health;
  unhealthy_list : list Health;
  suggestions_available : Z
}.

(** [get_dashboard_data].  [keys] is [self.analytics["constraints"].keys()],
    the rule ids in the order of the dictionary, and
    [total_suggestions_generated] the entry of that name of
    [global_stats], 0 when it is missing. *)
Definition get_dashboard_data (keys : list string)
  (total_suggestions_generated : Z) (st : Store) : Data :=
  let t := fold_left (tally_step st) keys
             {| healthy := []; needs_review := []; unhealthy := [];
                total_precision := 0; count := 0 |} in
  let avg_precision :=
    if 0 <? count t then (total_precision t / inject_Z (count t))%Q else 0%Q in
  let overall_status :=
    if Nat.eqb (length (unhealthy t)) 0 && Nat.leb (length (needs_review t)) 2
    then "healthy"
    else if Nat.leb (length (unhealthy t)) 1 then "acceptable"
    else "needs_attention" in
  {| overall_health :=
       {| overall_status := overall_status;
          average_precision := round avg_precision 3;
          total_constraints := count t;
          healthy_count := length (healthy t);
          needs_review_count := length (needs_review t);
          unhealthy_count := length (unhealthy t) |};
     healthy_constraints := healthy t;
     needs_review_list := needs_review t;
     unhealthy_list := unhealthy t;
     suggestions_available := total_suggestions_generated |}.

(** The status of a rule on the dashboard. *)
Definition status_of (st : Store) (cid : string) : string :=
  status (analyze_constraint_health st cid).

(** The rule has a record with at least one true or false positive. *)
Definition rated (st : Store) (cid : string) : bool :=
  match constraints st !! cid with
  | Some a => negb (true_positives a + false_positives a =? 0)
  | None => false
  end.

(** The rule goes to the list [healthy_constraints]. *)
Definition listed_healthy (st : Store) (cid : string) : bool :=
  String.eqb (status_of st cid) "healthy"
  || String.eqb (status_of st cid) "acceptable".

End WithRounding.

End Dashboard.

(** ** Templates *)

Module Templates.

(** One entry of the list [constraints] of a template; [None] is a
    missing key. *)
Record ConstraintData := mkConstraintData {
  description : option string;
  enforcement_action : option string;
  enforcement_message : option string;
  trigger_patterns : option (list string);
  trigger_keywords : option (list string);
  trigger_logic : option string;
  context_filters : option (gmap string (list string))
}.

(** A template dictionary; [template_description] is its entry
    [description]. *)
Record Template := mkTemplate {
  template_name : string;
  template_version : string;
  template_description : string;
  author : string;
  created : string;
  constraints : list ConstraintData
}.

(** [str(n)] *)
Definition str_of_nat (n : nat) : string :=
  NilZero.string_of_uint (Nat.to_uint n).

(** [x if x else missing] for a list, a string and a dictionary. *)
Definition if_list (l : list string) : option (list string) :=
  match l with [] => None | _ => Some l end.
Definition if_str (s : string) : option string :=
  if String.eqb s EmptyString then None else Some s.
Definition if_dict (d : gmap string (list string))
  : option (gmap string (list string)) :=
  if bool_decide (d = ∅) then None else Some d.

(** The template format of a rule: ids and statistics are left out. *)
Definition constraint_data (c : ConstraintManager.Constraint) : ConstraintData :=
  if ConstraintManager.version c =? 2
  then {| description := Some (ConstraintManager.description c);
          enforcement_action := Some (ConstraintManager.enforcement_action c);
          enforcement_message := Some (ConstraintManager.enforcement_message c);
          trigger_patterns := if_list (ConstraintManager.trigger_patterns c);
          trigger_keywords := if_list (ConstraintManager.trigger_keywords c);
          trigger_logic := if_str (ConstraintManager.trigger_logic c);
          context_filters := if_dict (ConstraintManager.context_filters c) |}
  else {| description := Some (ConstraintManager.description c);
          enforcement_action := Some (ConstraintManager.enforcement_action c);
          enforcement_message := Some (ConstraintManager.enforcement_message c);
          trigger_patterns := None;
          trigger_keywords := Some (ConstraintManager.trigger_keywords c);
          trigger_logic := None;
          context_filters := None |}.

Section WithEngine.
Context `{RegexEngine}.

(** [export_constraints]: the result and the template written, if any.
    [now] is the clock reading, [stem] is [Path(file_path).stem] and
    [io_ok] tells whether the file could be written. *)
Definition export_constraints (now stem : string) (io_ok : bool)
  (constraint_ids : option (list string)) (m : ConstraintManager.Manager)
  : bool * option Template :=
  let constraints_to_export :=
    match constraint_ids with
    | None | Some [] => ManagerOps.list_constraints false m
    | Some ids => omap (ConstraintManager.get_constraint m) ids
    end in
  match constraints_to_export with
  | [] => (false, None)
  | _ =>
      let template :=
        {| template_name := stem;
           template_version := "1.0.0";
           template_description :=
             ("Custom constraint template ("
              ++ str_of_nat (length constraints_to_export)
              ++ " constraints)")%string;
           author := "User";
           created := now;
           constraints := map constraint_data constraints_to_export |} in
      if io_ok then (true, Some template) else (false, None)
  end.

(** The loop of [import_template]; [fresh i] gives the id, the clock
    reading and the outcome of the save for the [i]-th rule added.  The
    loop ends where [add_constraint_v2] raises, the rules added before
    staying in the store. *)
Fixpoint import_loop (fresh : nat -> string * string * bool)
  (imported_count : nat) (entries : list ConstraintData)
  (m : ConstraintManager.Manager) : outcome nat * ConstraintManager.Manager :=
  match entries with
  | [] => (Returns imported_count, m)
  | data :: rest =>
      let '(new_id, now, io_ok) := fresh imported_count in
      let has_patterns := bool_decide (is_Some (trigger_patterns data)) in
      let has_logic := bool_decide (is_Some (trigger_logic data)) in
      let has_context := bool_decide (is_Some (context_filters data)) in
      if has_patterns || has_logic || has_context
      then match ConstraintManager.add_constraint_v2 new_id now io_ok
                   (default "Imported constraint" (description data))
                   (trigger_patterns data) (trigger_keywords data)
                   (default "OR" (trigger_logic data)) (context_filters data)
                   (default "warn" (enforcement_action data))
                   (enforcement_message data) m with
           | Returns (_, m') => import_loop fresh (S imported_count) rest m'
           | Raises e => (Raises e, m)
           end
      else import_loop fresh (S imported_count) rest
             (snd (ConstraintManager.add_constraint new_id now io_ok
                     (default "Imported constraint" (description data))
                     (default [] (trigger_keywords data))
                     (default "warn" (enforcement_action data))
                     (enforcement_message data) m))
  end.

(** [import_template]; [template] is the result of [get_template].  The
    handler turns a [KeyError] or [TypeError] into the answer -1; any
    other exception leaves the function. *)
Definition import_template (template : option Template)
  (fresh : nat -> string * string * bool) (m : ConstraintManager.Manager)
  : outcome Z * ConstraintManager.Manager :=
  match template with
  | None => (Returns (-1), m)
  | Some t =>
      match import_loop fresh O (constraints t) m with
      | (Returns imported_count, m') => (Returns (Z.of_nat imported_count), m')
      | (Raises KeyError, m') | (Raises TypeError, m') => (Returns (-1), m')
      | (Raises e, m') => (Raises e, m')
      end
  end.

(** The patterns of the entry pass the validation of
    [add_constraint_v2]. *)
Definition importable (data : ConstraintData) : Prop :=
  ConstraintManager.validate_patterns (default [] (trigger_patterns data))
  = None.

(** A rule as the two ways of adding rules leave it: version 2 with one
    of the three logics and patterns that passed the validation, or
    version 1 without patterns and filters. *)
Definition as_added (c : ConstraintManager.Constraint) : Prop :=
  (ConstraintManager.version c = 2
   /\ ConstraintManager.trigger_logic c ∈ ["OR"; "AND"; "NOT"]
   /\ ConstraintManager.validate_patterns (ConstraintManager.trigger_patterns c)
      = None)
  \/ (ConstraintManager.version c = 1
      /\ ConstraintManager.trigger_patterns c = []
      /\ ConstraintManager.trigger_logic c = "OR"
      /\ ConstraintManager.context_filters c = ∅).

End WithEngine.

(** The rule that importing the exported form of [c] adds. *)
Definition reimported (fresh : nat -> string * string * bool) (i : nat)
  (c : ConstraintManager.Constraint) : ConstraintManager.Constraint :=
  {| ConstraintManager.constraint_id := fst (fst (fresh i));
     ConstraintManager.version := ConstraintManager.version c;
     ConstraintManager.description := ConstraintManager.description c;
     ConstraintManager.trigger_keywords :=
       map (fun kw => PyStr.strip (PyStr.lower kw))
         (ConstraintManager.trigger_keywords c);
     ConstraintManager.trigger_patterns := ConstraintManager.trigger_patterns c;
     ConstraintManager.trigger_logic := ConstraintManager.trigger_logic c;
     ConstraintManager.context_filters := ConstraintManager.context_filters c;
     ConstraintManager.enforcement_action :=
       ConstraintManager.enforcement_action c;
     ConstraintManager.enforcement_message :=
       if String.eqb (ConstraintManager.enforcement_message c) EmptyString
       then ConstraintManager.description c
       else ConstraintManager.enforcement_message c;
     ConstraintManager.created := snd (fst (fresh i));
     ConstraintManager.triggered_count := 0;
     ConstraintManager.last_triggered := None;
     ConstraintManager.enabled := true;
     ConstraintManager.false_positive_count := 0 |}.

End Templates.

(** A template of two entries: a keyword rule, and a rule with a pattern
    whose repetition count is too large for [re.compile]. *)
Module TemplateExamples.
Import Templates.

Definition keyword_entry : ConstraintData :=
  {| description := Some "No mock data"; enforcement_action := Some "block";
     enforcement_message := None; trigger_patterns := None;
     trigger_keywords := Some ["mock"]; trigger_logic := None;
     context_filters := None |}.

Definition overflow_entry : ConstraintData :=
  {| description := Some "No bulk repetition";
     enforcement_action := Some "warn"; enforcement_message := None;
     trigger_patterns := Some ["a{99999999999}"]; trigger_keywords := None;
     trigger_logic := Some "OR"; context_filters := None |}.

Definition overflow_template : Template :=
  {| template_name := "sample"; template_version := "1.0.0";
     template_description := "Two rules"; author := "User"; created := "t0";
     constraints := [keyword_entry; overflow_entry] |}.

Definition sample_ids (i : nat) : string * string * bool :=
  match i with
  | O => ("eeee0001", "t1", true)
  | _ => ("eeee0002", "t2", true)
  end.

End TemplateExamples.

(** ** Proof steps for literal lists and sets *)

(** [x ∉ [a; b; ...]] for distinct literals. *)
Ltac not_in_list :=
  let Hx := fresh in
  intros Hx;
  repeat (apply elem_of_cons in Hx as [Hx|Hx]; [discriminate|]);
  by apply elem_of_nil in Hx.

(** [x ∉ {[a]}] for distinct literals. *)
Ltac not_in_singleton :=
  let Hx := fresh in
  intros Hx; apply elem_of_singleton in Hx; discriminate.

(** * Properties *)

(** ** String primitives on sample inputs *)

Example lower_mixed : PyStr.lower "Create Mock DATA" = "create mock data".
Proof. reflexivity. Qed.

Example split_blanks : PyStr.split "  create  mock data " = ["create"; "mock"; "data"].
Proof. reflexivity. Qed.

Example replace_dotstar : PyStr.replace ".*" EmptyString "mock.*api.*" = "mockapi".
Proof. reflexivity. Qed.

Example replace_nonoverlap : PyStr.replace "aa" "b" "aaaaa" = "bba".
Proof. reflexivity. Qed.

Example slice_last_two : PyStr.slice [1;2;3;4;5] (Some (-2)) None = [4;5].
Proof. reflexivity. Qed.

Example slice_minus_zero : PyStr.slice [1;2;3] (Some (- 0)) None = [1;2;3].
Proof. reflexivity. Qed.

Example extract_dotstar :
  ConstraintManager._extract_keyword_from_pattern "mock.*" = Some "mock".
Proof. reflexivity. Qed.

Example extract_alternation :
  ConstraintManager._extract_keyword_from_pattern "Delete|remove" = Some "delete".
Proof. reflexivity. Qed.

Example extract_word_boundary :
  ConstraintManager._extract_keyword_from_pattern "\bmock\b" = Some "mock".
Proof. reflexivity. Qed.

Example extract_short :
  ConstraintManager._extract_keyword_from_pattern "^ab$" = None.
Proof. reflexivity. Qed.

(** ** The pattern cache is transparent *)

Section ManagerFacts.
Context `{RegexEngine}.
Import ConstraintManager.

Lemma cache_ok_empty : cache_ok ∅.
Proof. intros p r Hp. rewrite lookup_empty in Hp. discriminate. Qed.

Lemma cache_ok_insert cache pattern r :
  cache_ok cache -> re_compile pattern = Compiled r ->
  cache_ok (<[pattern := r]> cache).
Proof.
  intros Hok Hc p r' Hp.
  destruct (decide (pattern = p)) as [->|Hne].
  - rewrite lookup_insert_eq in Hp. congruence.
  - rewrite lookup_insert_ne in Hp by done. by apply Hok.
Qed.

Lemma check_regex_pattern_spec cache query pattern :
  cache_ok cache ->
  match pattern_pred query pattern with
  | Some b => fst (_check_regex_pattern cache query pattern) = Returns b
  | None =>
      exists e, re_compile pattern = CompileRaises e
                /\ _check_regex_pattern cache query pattern = (Raises e, cache)
  end
  /\ cache_ok (snd (_check_regex_pattern cache query pattern)).
Proof.
  intros Hok. unfold _check_regex_pattern, pattern_pred.
  destruct (cache !! pattern) as [r|] eqn:Hc.
  - rewrite (Hok _ _ Hc). by split.
  - destruct (re_compile pattern) as [r| |e] eqn:Hr; simpl; split; eauto.
    by apply cache_ok_insert.
Qed.

Lemma pattern_matches_loop_spec query patterns :
  forall cache, cache_ok cache ->
  match mapM (pattern_pred query) patterns with
  | Some bs => fst (pattern_matches_loop cache query patterns) = Returns bs
  | None => exists e, fst (pattern_matches_loop cache query patterns) = Raises e
  end
  /\ cache_ok (snd (pattern_matches_loop cache query patterns)).
Proof.
  induction patterns as [|p ps IH]; intros cache Hok; [by split|].
  cbn [pattern_matches_loop mapM].
  destruct (check_regex_pattern_spec cache query p Hok) as [Hb Hc].
  destruct (pattern_pred query p) as [b|]; cbn [mbind option_bind].
  - destruct (_check_regex_pattern cache query p) as [o cache1].
    cbn [fst snd] in Hb, Hc. subst o.
    destruct (IH cache1 Hc) as [Hbs Hc2].
    destruct (mapM (pattern_pred query) ps) as [bs|];
      cbn [mbind option_bind mret option_ret].
    + destruct (pattern_matches_loop cache1 query ps) as [o cache2].
      cbn [fst snd] in Hbs, Hc2. by subst o.
    + destruct Hbs as [e He].
      destruct (pattern_matches_loop cache1 query ps) as [o cache2].
      cbn [fst snd] in He, Hc2. subst o. eauto.
  - destruct Hb as (e & _ & Hr). rewrite Hr in Hc |- *. cbn [fst snd] in *.
    eauto.
Qed.

Lemma check_patterns_phase2_spec cache query c :
  cache_ok cache ->
  match predicates query c with
  | Some all_matches =>
      fst (_check_patterns_phase2 cache query c)
      = Returns (apply_trigger_logic (trigger_logic c) all_matches)
  | None => exists e, fst (_check_patterns_phase2 cache query c) = Raises e
  end
  /\ cache_ok (snd (_check_patterns_phase2 cache query c)).
Proof.
  intros Hok. unfold _check_patterns_phase2, predicates.
  destruct (pattern_matches_loop_spec query (trigger_patterns c) cache Hok)
    as [Hb Hc].
  destruct (pattern_matches_loop cache query (trigger_patterns c)) as [o cache1].
  cbn [fst snd] in Hb, Hc.
  destruct (mapM (pattern_pred query) (trigger_patterns c)) as [bs|];
    cbn [fmap option_fmap option_map].
  - by subst o.
  - destruct Hb as [e ->]. eauto.
Qed.

(** ** The loop of [check_constraints_v2] *)

Lemma v2_step_spec now query context triggered cs cache pos :
  cache_ok cache ->
  exists cache',
    cache_ok cache' /\
    v2_step now query context (triggered, cs, cache) pos
    = (if fires_at query context cs pos then triggered ++ [pos] else triggered,
       if fires_at query context cs pos
       then match cs !! pos with
            | Some c => <[pos := record_match now c]> cs
            | None => cs
            end
       else cs,
       cache').
Proof.
  intros Hok. unfold v2_step, fires_at, rule_fires.
  destruct (cs !! pos) as [c|] eqn:Hc; [|by exists cache].
  destruct (enabled c); simpl; [|by exists cache].
  destruct (version c =? 2) eqn:Hv2.
  - destruct (_check_context_filters context (context_filters c)); simpl;
      [|by exists cache].
    assert ((version c =? 1) = false) as ->.
    { apply Z.eqb_eq in Hv2. rewrite Hv2. reflexivity. }
    destruct (check_patterns_phase2_spec cache query c Hok) as [Hb Hc2].
    destruct (_check_patterns_phase2 cache query c) as [o cache1].
    cbn [fst snd] in Hb, Hc2. exists cache1. split; [done|].
    destruct (predicates query c) as [all_matches|].
    + subst o. by destruct (apply_trigger_logic _ _).
    + destruct Hb as [e ->]. by destruct (_check_keywords_phase1 query c).
  - simpl. destruct (version c =? 1).
    + exists cache. split; [done|]. by destruct (_check_keywords_phase1 query c).
    + by exists cache.
Qed.

Lemma fires_at_insert_ne query context cs pos pos' c :
  pos <> pos' ->
  fires_at query context (<[pos := c]> cs) pos' = fires_at query context cs pos'.
Proof. intros Hne. unfold fires_at. by rewrite list_lookup_insert_ne. Qed.

Lemma filter_fires_insert query context cs pos c ps :
  pos ∉ ps ->
  List.filter (fires_at query context (<[pos := c]> cs)) ps
  = List.filter (fires_at query context cs) ps.
Proof.
  induction ps as [|p ps IH]; intros Hnot; [done|].
  apply not_elem_of_cons in Hnot as [Hne Hnot]. simpl.
  rewrite fires_at_insert_ne by done. rewrite IH by done. done.
Qed.

Lemma elem_of_filter_bool {A} (f : A -> bool) (l : list A) (x : A) :
  x ∈ List.filter f l <-> x ∈ l /\ f x = true.
Proof. rewrite !list_elem_of_In. apply filter_In. Qed.

Lemma v2_loop_spec now query context ps :
  NoDup ps ->
  forall triggered cs cache, cache_ok cache ->
  exists cs' cache',
    fold_left (v2_step now query context) ps (triggered, cs, cache)
    = (triggered ++ List.filter (fires_at query context cs) ps, cs', cache')
    /\ cache_ok cache'
    /\ forall i, cs' !! i
         = recorded now (List.filter (fires_at query context cs) ps) cs i.
Proof.
  induction 1 as [|pos ps Hnotin Hnd IH]; intros triggered cs cache Hok.
  - exists cs, cache. simpl. rewrite app_nil_r. repeat split; auto.
  - cbn [fold_left].
    destruct (v2_step_spec now query context triggered cs cache pos Hok)
      as (cache1 & Hok1 & ->).
    destruct (fires_at query context cs pos) eqn:Hf.
    + assert (exists c, cs !! pos = Some c) as [c Hc].
      { unfold fires_at in Hf. destruct (cs !! pos); [eauto|done]. }
      rewrite Hc.
      destruct (IH (triggered ++ [pos]) (<[pos := record_match now c]> cs) cache1 Hok1)
        as (cs' & cache' & Hfold & Hok' & Hcs').
      rewrite filter_fires_insert in Hfold, Hcs' by done.
      exists cs', cache'. split; [|split; [done|]].
      * rewrite Hfold. simpl. rewrite Hf. by rewrite <- app_assoc.
      * intros i. rewrite Hcs'. unfold recorded. simpl. rewrite Hf.
        destruct (decide (i = pos)) as [->|Hne].
        -- rewrite bool_decide_eq_false_2.
           2:{ rewrite elem_of_filter_bool. tauto. }
           rewrite bool_decide_eq_true_2 by apply list_elem_of_here.
           rewrite list_lookup_insert_eq; [by rewrite Hc|].
           by apply lookup_lt_Some in Hc.
        -- rewrite list_lookup_insert_ne by done.
           assert (i ∈ pos :: List.filter (fires_at query context cs) ps
                   <-> i ∈ List.filter (fires_at query context cs) ps) as Hiff.
           { rewrite elem_of_cons. tauto. }
           by rewrite (bool_decide_ext _ _ Hiff).
    + destruct (IH triggered cs cache1 Hok1)
        as (cs' & cache' & Hfold & Hok' & Hcs').
      exists cs', cache'. simpl. rewrite Hf. done.
Qed.

End ManagerFacts.

(** ** The id-to-rule map and the rules visited *)

Section VisitedRules.
Context `{RegexEngine}.
Import ConstraintManager.

Lemma constraint_map_from_sound cs :
  forall pos mp cid p,
  constraint_map_from pos cs mp !! cid = Some p ->
  mp !! cid = Some p
  \/ exists c, cs !! (p - pos)%nat = Some c /\ constraint_id c = cid
               /\ cid <> EmptyString /\ (pos <= p)%nat.
Proof.
  induction cs as [|c cs IH]; intros pos mp cid p Hl; simpl in Hl; [by left|].
  apply IH in Hl as [Hl|(c' & Hc' & Hid & Hne & Hle)].
  - destruct (String.eqb (constraint_id c) EmptyString) eqn:He; [by left|].
    apply String.eqb_neq in He.
    rewrite lookup_insert in Hl. case_decide as Hd.
    + right. exists c. simplify_eq. rewrite Nat.sub_diag. done.
    + by left.
  - right. exists c'. replace (p - pos)%nat with (S (p - S pos)) by lia.
    repeat split; auto. lia.
Qed.

Lemma constraint_map_sound cs cid p :
  constraint_map cs !! cid = Some p ->
  exists c, cs !! p = Some c /\ constraint_id c = cid /\ cid <> EmptyString.
Proof.
  intros Hl. apply constraint_map_from_sound in Hl as [Hl|(c & Hc & Hid & Hne & _)].
  - rewrite lookup_empty in Hl. discriminate.
  - exists c. rewrite Nat.sub_0_r in Hc. done.
Qed.



Lemma NoDup_omap_inj {A B} (f : A -> option B) (l : list A) :
  NoDup l ->
  (forall x y z, f x = Some z -> f y = Some z -> x = y) ->
  NoDup (omap f l).
Proof.
  intros Hnd Hinj. induction Hnd as [|x l Hx Hnd IH]; simpl; [constructor|].
  destruct (f x) as [z|] eqn:Hfx; [|done].
  constructor; [|done].
  rewrite list_elem_of_omap. intros (y & Hy & Hfy).
  by rewrite (Hinj _ _ _ Hfx Hfy) in Hx.
Qed.

Lemma NoDup_constraints_to_check (m : Manager) candidate_ids :
  NoDup (constraints_to_check m candidate_ids).
Proof.
  unfold constraints_to_check. case_bool_decide; [apply NoDup_seq|].
  apply NoDup_omap_inj; [apply NoDup_elements|].
  intros x y z Hx Hy.
  apply constraint_map_sound in Hx as (cx & Hcx & Hidx & _).
  apply constraint_map_sound in Hy as (cy & Hcy & Hidy & _).
  congruence.
Qed.

Lemma save_keeps_constraints io_ok (m : Manager) :
  constraints (snd (_save_constraints io_ok m)) = constraints m.
Proof. by destruct io_ok. Qed.

Lemma save_keeps_cache io_ok (m : Manager) :
  _regex_cache (snd (_save_constraints io_ok m)) = _regex_cache m.
Proof. by destruct io_ok. Qed.

(** The result of [check_constraints_v2]: the visited rules that fire, in
    visiting order; the store with exactly those matches recorded. *)
Lemma check_constraints_v2_spec now io_ok query context (m : Manager) :
  cache_ok (_regex_cache m) ->
  let r := check_constraints_v2 now io_ok query context m in
  fst r = List.filter (fires_at query (default ∅ context) (constraints m))
            (constraints_to_check m (_get_candidate_constraint_ids m query))
  /\ (forall i, constraints (snd r) !! i = recorded now (fst r) (constraints m) i)
  /\ cache_ok (_regex_cache (snd r)).
Proof.
  intros Hok. unfold check_constraints_v2.
  destruct (v2_loop_spec now query (default ∅ context) _
              (NoDup_constraints_to_check m (_get_candidate_constraint_ids m query))
              [] (constraints m) (_regex_cache m) Hok)
    as (cs' & cache' & Hfold & Hok' & Hcs').
  rewrite Hfold. simpl.
  destruct (List.filter _ _) as [|p tr] eqn:Hfl; simpl.
  - repeat split; auto.
  - rewrite save_keeps_constraints, save_keeps_cache. simpl. repeat split; auto.
Qed.

(** *** Rules that the loop passes over *)

Lemma v2_step_skip now query context pos c :
  skipped context c ->
  forall triggered cs cache p,
  cs !! pos = Some c -> pos ∉ triggered ->
  exists triggered' cs' cache',
    v2_step now query context (triggered, cs, cache) p = (triggered', cs', cache')
    /\ cs' !! pos = Some c /\ pos ∉ triggered'.
Proof.
  intros Hskip triggered cs cache p Hc Hnot. unfold v2_step.
  destruct (decide (p = pos)) as [->|Hne].
  - rewrite Hc. destruct Hskip as [-> | [Hv Hf]]; simpl; [by eauto 10|].
    rewrite Hv, Hf. simpl. destruct (enabled c); simpl; by eauto 10.
  - destruct (cs !! p) as [c'|] eqn:Hc'; [|by eauto 10].
    destruct (negb (enabled c')); [by eauto 10|].
    destruct ((version c' =? 2) && _); [by eauto 10|].
    destruct (if version c' =? 1 then _ else _) as [[] cache1].
    + do 3 eexists. split; [done|]. split.
      * by rewrite list_lookup_insert_ne.
      * rewrite not_elem_of_app, not_elem_of_cons. split; [done|].
        split; [congruence|apply not_elem_of_nil].
    + by eauto 10.
Qed.

Lemma v2_loop_skip now query context pos c ps :
  skipped context c ->
  forall triggered cs cache,
  cs !! pos = Some c -> pos ∉ triggered ->
  exists triggered' cs' cache',
    fold_left (v2_step now query context) ps (triggered, cs, cache)
    = (triggered', cs', cache')
    /\ cs' !! pos = Some c /\ pos ∉ triggered'.
Proof.
  intros Hskip. induction ps as [|p ps IH]; intros triggered cs cache Hc Hnot.
  - simpl. by eauto 10.
  - cbn [fold_left].
    destruct (v2_step_skip now query context pos c Hskip triggered cs cache p Hc Hnot)
      as (tr1 & cs1 & cache1 & -> & Hc1 & Hnot1).
    by apply IH.
Qed.

Lemma check_constraints_v2_skip now io_ok query context (m : Manager) pos c :
  constraints m !! pos = Some c ->
  skipped (default ∅ context) c ->
  (pos ∉ fst (check_constraints_v2 now io_ok query context m))
  /\ constraints (snd (check_constraints_v2 now io_ok query context m)) !! pos
     = Some c.
Proof.
  intros Hc Hskip. unfold check_constraints_v2.
  destruct (v2_loop_skip now query (default ∅ context) pos c
              (constraints_to_check m (_get_candidate_constraint_ids m query))
              Hskip [] (constraints m) (_regex_cache m) Hc (not_elem_of_nil _))
    as (tr & cs' & cache' & -> & Hc' & Hnot).
  simpl. split; [done|].
  destruct tr; [done|]. by rewrite save_keeps_constraints.
Qed.


Lemma all_enabled_snoc now triggered cs p c :
  all_enabled triggered cs -> cs !! p = Some c -> enabled c = true ->
  all_enabled (triggered ++ [p]) (<[p := record_match now c]> cs).
Proof.
  intros Hall Hc He q Hq.
  destruct (decide (q = p)) as [->|Hne].
  - exists (record_match now c). split; [|done].
    apply list_lookup_insert_eq. by apply lookup_lt_Some in Hc.
  - rewrite list_lookup_insert_ne by done. apply Hall.
    apply elem_of_app in Hq as [Hq|Hq]; [done|].
    apply list_elem_of_singleton in Hq. congruence.
Qed.

Lemma v2_loop_enabled now query context ps :
  forall triggered cs cache,
  all_enabled triggered cs ->
  all_enabled (fold_left (v2_step now query context) ps (triggered, cs, cache)).1.1
              (fold_left (v2_step now query context) ps (triggered, cs, cache)).1.2.
Proof.
  induction ps as [|p ps IH]; intros triggered cs cache Hall; [done|].
  cbn [fold_left]. unfold v2_step at 2 4.
  destruct (cs !! p) as [c|] eqn:Hc; [|by apply IH].
  destruct (enabled c) eqn:He; simpl; [|by apply IH].
  destruct ((version c =? 2) && _); [by apply IH|].
  destruct (if version c =? 1 then _ else _) as [[] cache1]; [|by apply IH].
  apply IH. by apply all_enabled_snoc.
Qed.

(** *** The loop of [check_constraints] *)

Lemma legacy_loop_disabled now query_lower pos c ps :
  enabled c = false ->
  forall triggered cs,
  cs !! pos = Some c -> pos ∉ triggered ->
  (fold_left (legacy_step now query_lower) ps (triggered, cs)).2 !! pos = Some c
  /\ pos ∉ (fold_left (legacy_step now query_lower) ps (triggered, cs)).1.
Proof.
  intros Hdis. induction ps as [|p ps IH]; intros triggered cs Hc Hnot; [done|].
  cbn [fold_left]. unfold legacy_step at 2 4.
  destruct (decide (p = pos)) as [->|Hne].
  - rewrite Hc, Hdis. simpl. by apply IH.
  - destruct (cs !! p) as [c'|] eqn:Hc'; [|by apply IH].
    destruct (negb (enabled c')); [by apply IH|].
    destruct (existsb _ _); [|by apply IH].
    apply IH.
    + by rewrite list_lookup_insert_ne.
    + rewrite not_elem_of_app, not_elem_of_cons. split; [done|].
      split; [congruence|apply not_elem_of_nil].
Qed.

Lemma legacy_loop_enabled now query_lower ps :
  forall triggered cs,
  all_enabled triggered cs ->
  all_enabled (fold_left (legacy_step now query_lower) ps (triggered, cs)).1
              (fold_left (legacy_step now query_lower) ps (triggered, cs)).2.
Proof.
  induction ps as [|p ps IH]; intros triggered cs Hall; [done|].
  cbn [fold_left]. unfold legacy_step at 2 4.
  destruct (cs !! p) as [c|] eqn:Hc; [|by apply IH].
  destruct (enabled c) eqn:He; simpl; [|by apply IH].
  destruct (existsb _ _); [|by apply IH].
  apply IH. by apply all_enabled_snoc.
Qed.

End VisitedRules.

(** ** The keyword index and candidate selection *)

Section KeywordIndex.
Context `{RegexEngine}.
Import ConstraintManager.

Lemma indexed_add_same idx key cid : indexed (index_add key cid idx) key cid.
Proof.
  unfold indexed, index_add. case_bool_decide as Hin.
  - eexists. rewrite lookup_insert_eq. done.
  - eexists. rewrite lookup_insert_eq. split; [done|].
    apply elem_of_app. right. apply list_elem_of_here.
Qed.

Lemma indexed_add_mono idx key cid key' cid' :
  indexed idx key' cid' -> indexed (index_add key cid idx) key' cid'.
Proof.
  intros (ids & Hl & Hin). unfold indexed, index_add.
  destruct (decide (key = key')) as [->|Hne].
  - rewrite Hl. simpl. case_bool_decide; eexists; rewrite lookup_insert_eq;
      (split; [done|]); [done|]. apply elem_of_app. by left.
  - case_bool_decide; exists ids; by rewrite lookup_insert_ne.
Qed.

Lemma indexed_keywords_mono cid kws :
  forall idx key' cid',
  indexed idx key' cid' ->
  indexed (fold_left (fun i kw => index_add kw cid i) kws idx) key' cid'.
Proof.
  induction kws as [|kw kws IH]; intros idx key' cid' Hi; [done|].
  simpl. apply IH. by apply indexed_add_mono.
Qed.

Lemma indexed_keywords cid kws kw :
  kw ∈ kws ->
  forall idx, indexed (fold_left (fun i kw => index_add kw cid i) kws idx) kw cid.
Proof.
  induction 1 as [kw kws|kw kw' kws Hin IH]; intros idx; simpl.
  - apply indexed_keywords_mono, indexed_add_same.
  - apply IH.
Qed.

Lemma indexed_patterns_mono cid ps :
  forall idx key' cid',
  indexed idx key' cid' ->
  indexed (fold_left (index_pattern cid) ps idx) key' cid'.
Proof.
  induction ps as [|p ps IH]; intros idx key' cid' Hi; [done|].
  simpl. apply IH. unfold index_pattern.
  destruct (_extract_keyword_from_pattern p) as [k|]; [|done].
  destruct (Nat.leb 3 (String.length k)); [|done].
  by apply indexed_add_mono.
Qed.

Lemma indexed_constraint_mono idx c key' cid' :
  indexed idx key' cid' -> indexed (index_constraint idx c) key' cid'.
Proof.
  intros Hi. unfold index_constraint.
  destruct (String.eqb (constraint_id c) EmptyString); [done|].
  by apply indexed_patterns_mono, indexed_keywords_mono.
Qed.

Lemma indexed_constraint_keyword idx c kw :
  constraint_id c <> EmptyString -> kw ∈ trigger_keywords c ->
  indexed (index_constraint idx c) kw (constraint_id c).
Proof.
  intros Hne Hin. unfold index_constraint.
  apply String.eqb_neq in Hne. rewrite Hne.
  by apply indexed_patterns_mono, indexed_keywords.
Qed.



Lemma candidates_fold idx ws cid :
  forall acc : gset string,
  cid ∈ fold_left (add_word_candidates idx) ws acc
  <-> cid ∈ acc \/ exists w, w ∈ ws /\ indexed idx w cid.
Proof.
  induction ws as [|w ws IH]; intros acc; simpl.
  - split; [by left|]. intros [?|(w & Hw & _)]; [done|].
    by apply elem_of_nil in Hw.
  - rewrite IH. unfold add_word_candidates, indexed.
    split.
    + intros [Hacc|(w' & Hw' & Hi)].
      * destruct (idx !! w) as [ids|] eqn:Hl; [|by left].
        apply elem_of_union in Hacc as [Hacc|Hids]; [by left|].
        right. exists w. split; [apply list_elem_of_here|].
        exists ids. split; [done|]. by apply elem_of_list_to_set in Hids.
      * right. exists w'. split; [by apply list_elem_of_further|done].
    + intros [Hacc|(w' & Hw' & ids & Hl & Hin)].
      * left. destruct (idx !! w); [|done]. apply elem_of_union. by left.
      * apply elem_of_cons in Hw' as [->|Hw'].
        -- left. rewrite Hl. apply elem_of_union. right.
           by apply elem_of_list_to_set.
        -- right. exists w'. split; [done|]. by exists ids.
Qed.

(** The candidate set is the union, over the words of the query, of the
    ids listed under the word. *)
Lemma candidate_ids_spec (m : Manager) query cid :
  cid ∈ _get_candidate_constraint_ids m query
  <-> exists w, w ∈ query_words query /\ indexed (keyword_index m) w cid.
Proof.
  unfold _get_candidate_constraint_ids. rewrite candidates_fold.
  split; [|by right]. intros [Hin|?]; [|done]. by apply elem_of_empty in Hin.
Qed.


Lemma constraints_to_check_fallback (m : Manager) :
  constraints_to_check m ∅ = seq 0 (length (constraints m)).
Proof. unfold constraints_to_check. by rewrite bool_decide_eq_true_2. Qed.

End KeywordIndex.

(** ** Trigger logic *)

Section TriggerLogic.
Context `{RegexEngine}.
Import ConstraintManager.







(** ** Pattern predicates *)




End TriggerLogic.

(** ** Disabled rules and context filters *)

Section GuardedRules.
Context `{RegexEngine}.
Import ConstraintManager.

Lemma deref_enabled (m : Manager) triggered r :
  all_enabled triggered (constraints m) ->
  r ∈ deref m triggered -> enabled r = true.
Proof.
  intros Hall Hr. unfold deref in Hr.
  apply list_elem_of_omap in Hr as (p & Hp & Hl).
  destruct (Hall p Hp) as (r' & Hl' & He). congruence.
Qed.

Lemma all_enabled_nil cs : all_enabled [] cs.
Proof. intros p Hp. by apply elem_of_nil in Hp. Qed.

(** C4. A rule whose [enabled] flag is false is never among the positions
    returned by [check_constraints] or by [check_constraints_v2], its
    stored dictionary (hence its [triggered_count]) is left as it was, and
    every dictionary that is returned has [enabled] true. *)
Theorem disabled_rules_never_match now io_ok query context (m : Manager) pos c :
  constraints m !! pos = Some c ->
  enabled c = false ->
  (let r := check_constraints now io_ok query m in
   (pos ∉ fst r)
   /\ constraints (snd r) !! pos = Some c
   /\ forall d, d ∈ deref (snd r) (fst r) -> enabled d = true)
  /\ (let r := check_constraints_v2 now io_ok query context m in
      (pos ∉ fst r)
      /\ constraints (snd r) !! pos = Some c
      /\ forall d, d ∈ deref (snd r) (fst r) -> enabled d = true).
Proof.
  intros Hc Hdis. split.
  - unfold check_constraints.
    pose proof (legacy_loop_disabled now (PyStr.lower query) pos c
                  (seq 0 (length (constraints m))) Hdis [] (constraints m) Hc
                  (not_elem_of_nil _)) as [Hkeep Hnot].
    pose proof (legacy_loop_enabled now (PyStr.lower query)
                  (seq 0 (length (constraints m))) [] (constraints m)
                  (all_enabled_nil _)) as Hen.
    destruct (fold_left _ _ _) as [triggered cs]. simpl in *.
    assert (forall m' : Manager, constraints m' = cs ->
            constraints m' !! pos = Some c
            /\ forall d, d ∈ deref m' triggered -> enabled d = true) as Hfin.
    { intros m' Hm'. rewrite Hm'. split; [done|].
      intros d Hd. apply (deref_enabled m' triggered); [by rewrite Hm'|done]. }
    split; [done|]. destruct triggered; apply Hfin; [done|].
    by rewrite save_keeps_constraints.
  - destruct (check_constraints_v2_skip now io_ok query context m pos c Hc)
      as [Hnot Hkeep]; [by left|].
    split; [done|]. split; [done|].
    unfold check_constraints_v2.
    pose proof (v2_loop_enabled now query (default ∅ context)
                  (constraints_to_check m (_get_candidate_constraint_ids m query))
                  [] (constraints m) (_regex_cache m) (all_enabled_nil _)) as Hen.
    destruct (fold_left _ _ _) as [[triggered cs] cache]. simpl in *.
    intros d Hd. apply (deref_enabled _ triggered) in Hd; [done|].
    destruct triggered; [done|]. by rewrite save_keeps_constraints.
Qed.

Lemma filter_ok_spec key (context : gmap string string)
  (filters : gmap string (list string)) :
  filter_ok key context filters = true
  <-> forall allowed, filters !! key = Some allowed ->
        exists v, context !! key = Some v /\ v ∈ allowed.
Proof.
  unfold filter_ok. destruct (filters !! key) as [allowed|].
  - destruct (context !! key) as [v|].
    + rewrite bool_decide_eq_true. split.
      * intros Hin a [= <-]. by exists v.
      * intros Hall. destruct (Hall allowed eq_refl) as (v' & [= <-] & Hin). done.
    + split; [done|]. intros Hall.
      by destruct (Hall allowed eq_refl) as (v' & [=] & _).
  - split; [by intros _ a [=]|done].
Qed.

(** C2, as amended.  For a version-2 rule with a non-empty
    [context_filters], [_check_context_filters] passes exactly when, for
    each of the two keys [query_type] and [vibe_mode] that the mapping
    holds, the context has a value for that key and the value is in the
    allowed list; when it does not pass, [check_constraints_v2] does not
    return the rule and leaves its stored dictionary unchanged. *)
Theorem context_filters_known_keys now io_ok query context (m : Manager) pos c :
  constraints m !! pos = Some c ->
  version c = 2 ->
  context_filters c <> ∅ ->
  let ctx : gmap string string := default ∅ context in
  let passes :=
    forall key allowed, key ∈ ["query_type"; "vibe_mode"] ->
      context_filters c !! key = Some allowed ->
      exists v, ctx !! key = Some v /\ v ∈ allowed in
  (_check_context_filters ctx (context_filters c) = true <-> passes)
  /\ (~ passes ->
      (pos ∉ fst (check_constraints_v2 now io_ok query context m))
      /\ constraints (snd (check_constraints_v2 now io_ok query context m)) !! pos
         = Some c).
Proof.
  intros Hc Hv Hne ctx passes.
  assert (_check_context_filters ctx (context_filters c) = true <-> passes) as Hiff.
  { unfold _check_context_filters. rewrite bool_decide_eq_false_2 by done.
    subst passes. split.
    - intros Hchk key allowed Hkey.
      destruct (filter_ok "query_type" ctx (context_filters c)) eqn:Hq; [|done].
      destruct (filter_ok "vibe_mode" ctx (context_filters c)) eqn:Hvm; [|done].
      apply elem_of_cons in Hkey as [->|Hkey];
        [by apply filter_ok_spec|].
      apply list_elem_of_singleton in Hkey as ->. by apply filter_ok_spec.
    - intros Hp.
      assert (filter_ok "query_type" ctx (context_filters c) = true) as ->.
      { apply filter_ok_spec. intros a. apply Hp. apply list_elem_of_here. }
      assert (filter_ok "vibe_mode" ctx (context_filters c) = true) as ->.
      { apply filter_ok_spec. intros a. apply Hp.
        apply list_elem_of_further, list_elem_of_here. }
      done. }
  split; [done|]. intros Hnp.
  apply check_constraints_v2_skip; [done|]. right. split; [done|].
  apply not_true_is_false. intros Ht. by apply Hnp, Hiff.
Qed.

End GuardedRules.

(** ** Candidate selection *)

Section CandidateSelection.
Context `{RegexEngine}.
Import ConstraintManager.


Lemma nonempty_of_elem (X : gset string) x : x ∈ X -> X <> ∅.
Proof. intros Hin ->. by apply elem_of_empty in Hin. Qed.


(** C10. The indexed path is not a full scan.  In a store whose index is
    the one built from its rules, a query can make a rule fire that
    [check_constraints_v2] does not return, because the candidate set is
    not empty and lacks the rule: once for a rule whose keyword is a
    proper part of a word of the query, once for a NOT rule none of whose
    keywords is a word of the query. *)
Theorem indexed_path_not_full_scan :
  exists (m : Manager) query context,
    keyword_index m = build_index (constraints m)
    /\ cache_ok (_regex_cache m)
    /\ (forall pos c, constraints m !! pos = Some c -> enabled c = true)
    /\ (exists pos c kw w,
          constraints m !! pos = Some c
          /\ kw ∈ trigger_keywords c /\ w ∈ query_words query
          /\ PyStr.contains kw w = true /\ kw <> w
          /\ rule_fires query (default ∅ context) c = true
          /\ pos ∈ full_scan_matches query (default ∅ context) m
          /\ _get_candidate_constraint_ids m query <> ∅
          /\ (constraint_id c ∉ _get_candidate_constraint_ids m query)
          /\ forall now io_ok,
               (pos ∉ fst (check_constraints_v2 now io_ok query context m)))
    /\ (exists pos c,
          constraints m !! pos = Some c
          /\ trigger_logic c = "NOT"
          /\ (forall kw, kw ∈ trigger_keywords c -> kw ∉ query_words query)
          /\ rule_fires query (default ∅ context) c = true
          /\ pos ∈ full_scan_matches query (default ∅ context) m
          /\ _get_candidate_constraint_ids m query <> ∅
          /\ (constraint_id c ∉ _get_candidate_constraint_ids m query)
          /\ forall now io_ok,
               (pos ∉ fst (check_constraints_v2 now io_ok query context m))).
Proof.
  exists Examples.shadow_store, "Create mockdata data", None.
  assert (_get_candidate_constraint_ids Examples.shadow_store "Create mockdata data"
          = {[ "aaaa0001" ]}) as Hcand by (by vm_compute).
  assert (forall now io_ok,
            fst (check_constraints_v2 now io_ok "Create mockdata data" None
                   Examples.shadow_store) = [0%nat]) as Hres.
  { intros now io_ok. by vm_compute. }
  assert (full_scan_matches "Create mockdata data" ∅ Examples.shadow_store
          = [0; 1; 2]%nat) as Hfull by (by vm_compute).
  split; [by vm_compute|]. split; [apply cache_ok_empty|].
  split.
  { intros pos c Hc.
    assert (Forall (fun c => enabled c = true)
              (constraints Examples.shadow_store)) as Hall
      by (repeat constructor).
    by apply (Forall_lookup_1 _ _ _ _ Hall Hc). }
  split.
  - exists 1%nat. eexists. exists "mock", "mockdata".
    split; [reflexivity|]. simpl default. rewrite Hcand, Hfull.
    split; [apply list_elem_of_here|].
    split; [by vm_compute; apply list_elem_of_further, list_elem_of_here|].
    split; [reflexivity|]. split; [done|]. split; [by vm_compute|].
    split; [apply list_elem_of_further, list_elem_of_here|].
    split; [apply (nonempty_of_elem _ "aaaa0001"); by apply elem_of_singleton|].
    split; [not_in_singleton|].
    intros now io_ok. rewrite Hres. not_in_list.
  - exists 2%nat. eexists.
    split; [reflexivity|]. simpl default. rewrite Hcand, Hfull.
    split; [reflexivity|].
    split.
    { intros kw Hkw. apply list_elem_of_singleton in Hkw as ->.
      vm_compute. not_in_list. }
    split; [by vm_compute|].
    split; [do 2 apply list_elem_of_further; apply list_elem_of_here|].
    split; [apply (nonempty_of_elem _ "aaaa0001"); by apply elem_of_singleton|].
    split; [not_in_singleton|].
    intros now io_ok. rewrite Hres. not_in_list.
Qed.

End CandidateSelection.

(** ** The theorems on the sample stores *)

Section SampleStores.
Import ConstraintManager.





Lemma disabled_rules_never_match_witness :
  (0%nat ∉ fst (check_constraints "t2" true "Create mock demo data"
                  Examples.mixed_store))
  /\ (0%nat ∉ fst (check_constraints_v2 "t2" true "Create mock demo data" None
                     Examples.mixed_store)).
Proof.
  pose proof (disabled_rules_never_match "t2" true "Create mock demo data" None
                Examples.mixed_store 0 _ eq_refl eq_refl) as [(H1 & _) (H2 & _)].
  split; assumption.
Defined.

Lemma context_filters_known_keys_witness :
  0%nat ∉ fst (check_constraints_v2 "t1" true "Create mock data"
                 (Some {[ "query_type" := "chat" ]}) Examples.query_type_store).
Proof.
  assert (({[ "query_type" := ["generate"] ]} : gmap string (list string)) <> ∅)
    as Hne.
  { intros Heq. apply (f_equal (fun f => f !! "query_type")) in Heq.
    rewrite lookup_singleton_eq, lookup_empty in Heq. discriminate. }
  pose proof (context_filters_known_keys "t1" true "Create mock data"
                (Some {[ "query_type" := "chat" ]}) Examples.query_type_store
                0 _ eq_refl eq_refl Hne) as [_ Hskip].
  apply Hskip. intros Hpass.
  destruct (Hpass "query_type" ["generate"]) as (v & Hv & Hin).
  - apply list_elem_of_here.
  - reflexivity.
  - simpl in Hv. rewrite lookup_singleton_eq in Hv. injection Hv as <-.
    apply list_elem_of_singleton in Hin. discriminate.
Defined.



(** C2, as stated, fails: a filter on a key other than [query_type] and
    [vibe_mode] is not applied.  The rule of [language_store] is limited
    to [language] in [python]; with [language] set to [rust] it is
    returned all the same and its counter goes up. *)
Lemma context_filter_other_key_not_applied :
  ~ (forall (m : Manager) now io_ok query (context : gmap string string)
       pos c key allowed,
       constraints m !! pos = Some c ->
       version c = 2 ->
       context_filters c !! key = Some allowed ->
       (forall v, context !! key = Some v -> v ∉ allowed) ->
       (pos ∉ fst (check_constraints_v2 now io_ok query (Some context) m))
       /\ constraints (snd (check_constraints_v2 now io_ok query (Some context) m))
            !! pos = Some c).
Proof.
  intros Hclaim.
  destruct (Hclaim Examples.language_store "t1" true "Create mock data"
              {[ "language" := "rust" ]} 0%nat _ "language" ["python"]
              eq_refl eq_refl eq_refl) as [Hnot _].
  - intros v Hv. rewrite lookup_singleton_eq in Hv. injection Hv as <-.
    intros Hin. apply list_elem_of_singleton in Hin. discriminate.
  - apply Hnot. vm_compute. apply list_elem_of_here.
Qed.

Example language_filter_counter :
  triggered_count
  <$> constraints
        (snd (check_constraints_v2 "t1" true "Create mock data"
                (Some {[ "language" := "rust" ]}) Examples.language_store))
      !! 0%nat
  = Some 1.
Proof. reflexivity. Qed.

End SampleStores.

(** ** Analytics records *)

Section AnalyticsRecords.
Import ConstraintSupervisor.

Lemma lookup_put_eq st cid a : constraints (put st cid a) !! cid = Some a.
Proof. unfold put. simpl. apply lookup_insert_eq. Qed.

Lemma lookup_put_ne st cid cid' a :
  cid <> cid' -> constraints (put st cid a) !! cid' = constraints st !! cid'.
Proof. intros Hne. unfold put. simpl. by apply lookup_insert_ne. Qed.

Lemma detect_drift_lookup st cid a window_size :
  constraints st !! cid = Some a ->
  detect_drift st cid window_size
  = drift_of_history (trigger_history a) window_size.
Proof. intros Hl. unfold detect_drift. by rewrite Hl. Qed.

Lemma recalculate_lookup_eq now st cid a :
  constraints st !! cid = Some a ->
  constraints (_recalculate_metrics now st cid) !! cid = Some (recalculated now a).
Proof.
  intros Hl. unfold _recalculate_metrics. rewrite Hl.
  rewrite lookup_put_eq. f_equal. unfold recalculated.
  rewrite (detect_drift_lookup _ _ _ _ (lookup_put_eq _ _ _)). reflexivity.
Qed.

Lemma recalculate_lookup_ne now st cid cid' :
  cid <> cid' ->
  constraints (_recalculate_metrics now st cid) !! cid' = constraints st !! cid'.
Proof.
  intros Hne. unfold _recalculate_metrics.
  destruct (constraints st !! cid); [|done].
  by rewrite !lookup_put_ne.
Qed.

(** The record of the rule after one [record_trigger]. *)
Lemma record_trigger_lookup_eq now cid query user_feedback st :
  constraints (snd (record_trigger now cid query user_feedback st)) !! cid
  = Some (recalculated now
            (count_feedback now query user_feedback
               (default (new_record cid) (constraints st !! cid)))).
Proof.
  unfold record_trigger. simpl.
  apply recalculate_lookup_eq, lookup_put_eq.
Qed.

(** The records of the other rules are not touched. *)
Lemma record_trigger_lookup_ne now cid cid' query user_feedback st :
  cid <> cid' ->
  constraints (snd (record_trigger now cid query user_feedback st)) !! cid'
  = constraints st !! cid'.
Proof.
  intros Hne. unfold record_trigger. simpl.
  rewrite recalculate_lookup_ne by done. by apply lookup_put_ne.
Qed.

Lemma metrics_ok_recalculated now a :
  0 <= true_positives a -> 0 <= false_positives a ->
  metrics_ok (recalculated now a).
Proof. intros Htp Hfp. unfold metrics_ok, recalculated. simpl. auto. Qed.

Lemma count_feedback_nonneg now query user_feedback a :
  0 <= true_positives a -> 0 <= false_positives a ->
  0 <= true_positives (count_feedback now query user_feedback a)
  /\ 0 <= false_positives (count_feedback now query user_feedback a).
Proof.
  intros Htp Hfp. unfold count_feedback. simpl.
  destruct (String.eqb user_feedback "true_positive");
    destruct (String.eqb user_feedback "false_positive"); lia.
Qed.

Lemma record_trigger_metrics_ok now cid query user_feedback st :
  (forall cid' a, constraints st !! cid' = Some a -> metrics_ok a) ->
  forall cid' a,
  constraints (snd (record_trigger now cid query user_feedback st)) !! cid' = Some a ->
  metrics_ok a.
Proof.
  intros Hall cid' a Hl.
  destruct (decide (cid = cid')) as [<-|Hne].
  - rewrite record_trigger_lookup_eq in Hl. injection Hl as <-.
    assert (0 <= true_positives (default (new_record cid) (constraints st !! cid))
            /\ 0 <= false_positives (default (new_record cid) (constraints st !! cid)))
      as [Htp Hfp].
    { destruct (constraints st !! cid) as [a0|] eqn:Hl0; simpl; [|lia].
      destruct (Hall cid a0 Hl0) as (? & ? & _). done. }
    destruct (count_feedback_nonneg now query user_feedback _ Htp Hfp).
    by apply metrics_ok_recalculated.
  - rewrite record_trigger_lookup_ne in Hl by done. by apply (Hall cid').
Qed.

Lemma run_triggers_metrics_ok calls :
  forall st,
  (forall cid a, constraints st !! cid = Some a -> metrics_ok a) ->
  forall cid a, constraints (run_triggers calls st) !! cid = Some a -> metrics_ok a.
Proof.
  induction calls as [|[[[now cid] query] fb] calls IH]; intros st Hall; [done|].
  unfold run_triggers. cbn [fold_left]. apply IH.
  by apply record_trigger_metrics_ok.
Qed.

Lemma default_run_metrics_ok calls created_at cid a :
  constraints (run_triggers calls (_create_default_analytics created_at)) !! cid
  = Some a ->
  metrics_ok a.
Proof.
  apply (run_triggers_metrics_ok calls (_create_default_analytics created_at)).
  intros cid' a' Hl'. simpl in Hl'. rewrite lookup_empty in Hl'. discriminate.
Qed.

(** C6. Starting from the default analytics, after any sequence of
    [record_trigger] calls every analytics record has non-negative
    counters, a [precision] equal to [tp / (tp + fp)] when [tp + fp] is
    positive and to 0 when it is 0, and an effectiveness and a drift score
    that are the ones computed from its counters and history.  From any
    store whatever, the record of the rule just fed holds the precision
    computed from its new counters. *)
Theorem precision_recomputed (calls : list (string * string * string * string))
  (created_at cid : string) (a : Analytics) :
  constraints (run_triggers calls (_create_default_analytics created_at)) !! cid
  = Some a ->
  let tp := true_positives a in
  let fp := false_positives a in
  0 <= tp /\ 0 <= fp
  /\ (0 < tp + fp -> precision a = (inject_Z tp / inject_Z (tp + fp))%Q)
  /\ (tp + fp = 0 -> precision a = 0%Q)
  /\ effectiveness_score a
     = (precision a * py_min (inject_Z (tp + fp) / 100) 1)%Q
  /\ drift_score a
     = detect_drift (run_triggers calls (_create_default_analytics created_at)) cid 10
  /\ (forall st now query user_feedback,
        exists a', constraints
                     (snd (record_trigger now cid query user_feedback st)) !! cid
                   = Some a'
                   /\ precision a'
                      = (if 0 <? true_positives a' + false_positives a'
                         then (inject_Z (true_positives a')
                               / inject_Z (true_positives a' + false_positives a'))%Q
                         else 0%Q)).
Proof.
  intros Hl tp fp.
  destruct (default_run_metrics_ok calls created_at cid a Hl)
    as (Htp & Hfp & Hp & He & Hd).
  fold tp fp in Hp, He, Htp, Hfp.
  split; [done|]. split; [done|]. split.
  { intros Hpos. rewrite Hp. by rewrite (proj2 (Z.ltb_lt 0 (tp + fp)) Hpos). }
  split.
  { intros Hzero. rewrite Hp, Hzero. reflexivity. }
  split; [done|]. split.
  { by rewrite (detect_drift_lookup _ _ _ _ Hl). }
  intros st now query fb. eexists. split; [apply record_trigger_lookup_eq|].
  reflexivity.
Qed.

End AnalyticsRecords.

Lemma precision_recomputed_witness :
  exists a,
    ConstraintSupervisor.constraints
      (ConstraintSupervisor.run_triggers FeedbackExamples.three_false_seven_true
         (ConstraintSupervisor._create_default_analytics "t00"))
      !! "abc12345" = Some a
    /\ ConstraintSupervisor.true_positives a = 7
    /\ ConstraintSupervisor.false_positives a = 3
    /\ ConstraintSupervisor.precision a = (inject_Z 7 / inject_Z 10)%Q.
Proof.
  eassert (ConstraintSupervisor.constraints
             (ConstraintSupervisor.run_triggers
                FeedbackExamples.three_false_seven_true
                (ConstraintSupervisor._create_default_analytics "t00"))
             !! "abc12345" = Some _) as Hl by (vm_compute; reflexivity).
  pose proof (precision_recomputed FeedbackExamples.three_false_seven_true
                "t00" "abc12345" _ Hl) as Hthm.
  destruct Hthm as (_ & _ & Hp & _).
  eexists. split; [exact Hl|]. split; [reflexivity|]. split; [reflexivity|].
  apply Hp. reflexivity.
Defined.

(** ** Drift *)

Section Drift.
Import ConstraintSupervisor.

Lemma Qltb_lt a b : Qltb a b = true <-> (a < b)%Q.
Proof.
  unfold Qltb. rewrite negb_true_iff. split.
  - intros Hf. apply Qnot_le_lt. intros Hle.
    apply Qle_bool_iff in Hle. congruence.
  - intros Hlt. apply not_true_is_false. intros Hle.
    apply Qle_bool_iff in Hle. by apply Qlt_not_le in Hlt.
Qed.

Lemma Qltb_ge a b : Qltb a b = false <-> (b <= a)%Q.
Proof.
  unfold Qltb. rewrite negb_false_iff. apply Qle_bool_iff.
Qed.

Lemma py_max_Qmax a b : (py_max a b == Qmax a b)%Q.
Proof.
  apply Q.max_unicity. unfold py_max. destruct (Qltb a b) eqn:Hab.
  - left. split; [by apply Qltb_lt|reflexivity].
  - right. split; [by apply Qltb_ge|reflexivity].
Qed.

Lemma py_min_Qmin a b : (py_min a b == Qmin b a)%Q.
Proof.
  apply Q.min_unicity. unfold py_min. destruct (Qltb b a) eqn:Hab.
  - left. split; [by apply Qltb_lt|reflexivity].
  - right. split; [by apply Qltb_ge|reflexivity].
Qed.

Lemma calculate_precision_window l : _calculate_precision l = window_precision l.
Proof.
  destruct l as [|t l]; [reflexivity|].
  unfold _calculate_precision, window_precision.
  assert ((0 <? Z.of_nat (length (t :: l))) = true) as ->; [|reflexivity].
  apply Z.ltb_lt. simpl length. lia.
Qed.

Lemma calculate_variance_population l :
  _calculate_variance (map is_true_positive l)
  = population_variance (map indicator l).
Proof.
  assert (forall l, map (fun v : bool => if v then 1%Q else 0%Q)
                      (map is_true_positive l) = map indicator l) as Hmap.
  { intros l'. rewrite map_map. reflexivity. }
  destruct l as [|t l]; [reflexivity|].
  unfold _calculate_variance, population_variance.
  cbn [map]. change (is_true_positive t :: map is_true_positive l)
    with (map is_true_positive (t :: l)).
  rewrite Hmap. reflexivity.
Qed.

Lemma window_precision_nonneg l : (0 <= window_precision l)%Q.
Proof.
  unfold window_precision, Qdiv. apply Qmult_le_0_compat.
  - change 0%Q with (inject_Z 0). rewrite <- Zle_Qle. lia.
  - apply Qinv_le_0_compat. change 0%Q with (inject_Z 0).
    rewrite <- Zle_Qle. lia.
Qed.

(** [h[-w:]] and [h[-2w:-w]] for a positive window that fits. *)
Lemma slice_recent {A} (h : list A) w :
  0 < w <= Z.of_nat (length h) ->
  PyStr.slice h (Some (- w)) None = last_entries (Z.to_nat w) h.
Proof.
  intros [Hpos Hle]. unfold PyStr.slice, PyStr.clamp, last_entries.
  assert ((- w <? 0) = true) as -> by (apply Z.ltb_lt; lia).
  replace (Z.to_nat (Z.max 0 (- w + Z.of_nat (length h))))
    with (length h - Z.to_nat w)%nat by lia.
  apply take_ge. rewrite length_drop. lia.
Qed.

Lemma slice_older {A} (h : list A) w :
  0 < w -> 2 * w <= Z.of_nat (length h) ->
  PyStr.slice h (Some (- (2 * w))) (Some (- w))
  = take (Z.to_nat w) (last_entries (Z.to_nat (2 * w)) h).
Proof.
  intros Hpos Hle. unfold PyStr.slice, PyStr.clamp, last_entries.
  assert ((- (2 * w) <? 0) = true) as -> by (apply Z.ltb_lt; lia).
  assert ((- w <? 0) = true) as -> by (apply Z.ltb_lt; lia).
  f_equal; [lia|]. f_equal. lia.
Qed.

(** C7. [detect_drift] is 0 when the rule has no analytics record or
    fewer history entries than the window.  Otherwise it is
    [min(1, 0.7 * decline + 0.3 * variance)], where the recent window is
    [history[-w:]], the older window is the recent one when fewer than
    [2w] entries exist and [history[-2w:-w]] otherwise, the decline is
    [max(0, precision(older) - precision(recent))] with the precision of
    a window its fraction of true positives, and the variance is the
    population variance of the 0/1 indicators of the recent window.  For
    a positive window these slices are the last [w] entries and the [w]
    entries before them. *)
Theorem detect_drift_formula st cid window_size :
  (constraints st !! cid = None -> detect_drift st cid window_size = 0%Q)
  /\ (forall a, constraints st !! cid = Some a ->
      let history := trigger_history a in
      let len := Z.of_nat (length history) in
      let recent := PyStr.slice history (Some (- window_size)) None in
      let older :=
        if len <? 2 * window_size then recent
        else PyStr.slice history (Some (- (2 * window_size)))
               (Some (- window_size)) in
      let decline :=
        Qmax 0 (window_precision older - window_precision recent) in
      let variance := population_variance (map indicator recent) in
      (len < window_size -> detect_drift st cid window_size = 0%Q)
      /\ (window_size <= len ->
          (detect_drift st cid window_size
           == Qmin 1 ((7 # 10) * decline + (3 # 10) * variance))%Q)
      /\ (0 < window_size <= len ->
          recent = last_entries (Z.to_nat window_size) history)
      /\ (0 < window_size -> 2 * window_size <= len ->
          older = take (Z.to_nat window_size)
                    (last_entries (Z.to_nat (2 * window_size)) history))).
Proof.
  split.
  { intros Hl. unfold detect_drift. by rewrite Hl. }
  intros a Hl history len recent older decline variance.
  rewrite (detect_drift_lookup st cid a window_size Hl).
  fold history. unfold drift_of_history. fold len. fold recent.
  split; [|split; [|split]].
  - intros Hlt. by rewrite (proj2 (Z.ltb_lt _ _) Hlt).
  - intros Hle. rewrite (proj2 (Z.ltb_ge _ _) Hle).
    rewrite py_min_Qmin. apply Q.min_compat; [reflexivity|].
    rewrite calculate_variance_population. fold variance.
    rewrite py_max_Qmax.
    set (older_code :=
           if 2 * window_size <=? len
           then PyStr.slice history (Some (- (2 * window_size)))
                  (Some (- window_size))
           else []).
    assert (Qmax 0
              (match older_code with
               | [] => _calculate_precision recent
               | _ :: _ => _calculate_precision older_code
               end - _calculate_precision recent)
            == decline)%Q as ->; [|ring].
    subst older_code.
    subst decline older. rewrite !calculate_precision_window.
    assert (forall p, 0 <= p -> Qmax 0 (p - p) == Qmax 0 (0 - p))%Q as Hzero.
    { intros p Hp. rewrite !Q.max_l; [reflexivity| |].
      - apply Qle_minus_iff. ring_simplify. done.
      - apply Qle_minus_iff. ring_simplify. apply Qle_refl. }
    destruct (2 * window_size <=? len) eqn:H2w.
    + apply Z.leb_le in H2w. rewrite (proj2 (Z.ltb_ge _ _) H2w).
      destruct (PyStr.slice history (Some (- (2 * window_size)))
                  (Some (- window_size))) as [|t l] eqn:Hs; [|reflexivity].
      change (window_precision []) with 0%Q.
      apply Hzero, window_precision_nonneg.
    + apply Z.leb_gt in H2w. rewrite (proj2 (Z.ltb_lt _ _) H2w). reflexivity.
  - intros Hw. subst recent. by apply slice_recent.
  - intros Hpos H2w. subst older. rewrite (proj2 (Z.ltb_ge _ _) H2w).
    by apply slice_older.
Qed.

End Drift.

Lemma detect_drift_formula_witness :
  exists a,
    ConstraintSupervisor.constraints
      (ConstraintSupervisor.run_triggers FeedbackExamples.three_false_seven_true
         (ConstraintSupervisor._create_default_analytics "t00"))
      !! "abc12345" = Some a
    /\ (ConstraintSupervisor.detect_drift
          (ConstraintSupervisor.run_triggers
             FeedbackExamples.three_false_seven_true
             (ConstraintSupervisor._create_default_analytics "t00"))
          "abc12345" 10
        == Qmin 1
             ((7 # 10)
              * Qmax 0
                  (ConstraintSupervisor.window_precision
                     (ConstraintSupervisor.trigger_history a)
                   - ConstraintSupervisor.window_precision
                       (ConstraintSupervisor.trigger_history a))
              + (3 # 10)
                * ConstraintSupervisor.population_variance
                    (map ConstraintSupervisor.indicator
                       (ConstraintSupervisor.trigger_history a))))%Q.
Proof.
  eassert (ConstraintSupervisor.constraints
             (ConstraintSupervisor.run_triggers
                FeedbackExamples.three_false_seven_true
                (ConstraintSupervisor._create_default_analytics "t00"))
             !! "abc12345" = Some _) as Hl by (vm_compute; reflexivity).
  pose proof (detect_drift_formula
                (ConstraintSupervisor.run_triggers
                   FeedbackExamples.three_false_seven_true
                   (ConstraintSupervisor._create_default_analytics "t00"))
                "abc12345" 10) as [_ Hthm].
  destruct (Hthm _ Hl) as (_ & Hformula & _).
  eexists. split; [exact Hl|].
  apply Hformula. by vm_compute.
Defined.

(** A window size of 0 makes [history[-0:]] the whole history: the drift
    is then 0.3 times the variance of all recorded outcomes. *)
Example drift_window_zero :
  (ConstraintSupervisor.drift_of_history
     [ ConstraintSupervisor.mkTrigger "t1" "q1" "true_positive";
       ConstraintSupervisor.mkTrigger "t2" "q2" "false_positive" ] 0
   == 3 # 40)%Q.
Proof. reflexivity. Qed.

(** ** Health after feedback *)

Section Health.
Context `{FloatRounding}.
Import ConstraintSupervisor.

(** C8, as amended.  After three false positives followed by seven true
    positives for one rule, starting from the default analytics, the
    record of the rule counts 10 triggers, its precision is 0.7 and its
    drift score is 0.063, below 0.5, and [analyze_constraint_health]
    reports the status [needs_review]: 0.7 is under the 0.75 that
    [acceptable] asks for. *)
Theorem health_after_three_false_seven_true
  (created_at cid : string) (fps tps : list (string * string)) :
  length fps = 3%nat ->
  length tps = 7%nat ->
  let calls :=
    map (fun '(now, query) => (now, cid, query, "false_positive")) fps
    ++ map (fun '(now, query) => (now, cid, query, "true_positive")) tps in
  let st := run_triggers calls (_create_default_analytics created_at) in
  exists a,
    constraints st !! cid = Some a
    /\ total_triggers a = 10 /\ true_positives a = 7 /\ false_positives a = 3
    /\ (precision a == 7 # 10)%Q
    /\ (drift_score a == 63 # 1000)%Q
    /\ (detect_drift st cid 10 < 1 # 2)%Q
    /\ status (analyze_constraint_health st cid) = "needs_review".
Proof.
  intros Hf Ht.
  destruct fps as [|[n1 q1] [|[n2 q2] [|[n3 q3] [|]]]]; try discriminate Hf.
  destruct tps as [|[n4 q4] [|[n5 q5] [|[n6 q6] [|[n7 q7] [|[n8 q8]
                    [|[n9 q9] [|[n10 q10] [|]]]]]]]]; try discriminate Ht.
  intros calls st.
  assert (exists a, constraints st !! cid = Some a
                    /\ total_triggers a = 10 /\ true_positives a = 7
                    /\ false_positives a = 3
                    /\ (precision a == 7 # 10)%Q
                    /\ (drift_score a == 63 # 1000)%Q
                    /\ health_status (inject_Z 7 / inject_Z (7 + 3))%Q
                         (drift_score a) = "needs_review")
    as (a & Hl & Htot & Htp & Hfp & Hp & Hd & Hs).
  { subst st calls. unfold run_triggers. cbn [map app fold_left].
    eexists. split.
    - rewrite record_trigger_lookup_eq.
      do 9 (rewrite record_trigger_lookup_eq; cbn [default]).
      cbn [_create_default_analytics constraints]. rewrite lookup_empty.
      cbn [default]. reflexivity.
    - vm_compute. repeat split; reflexivity. }
  exists a. split; [done|]. split; [done|]. split; [done|]. split; [done|].
  split; [done|]. split; [done|]. split.
  - destruct (default_run_metrics_ok calls created_at cid a Hl)
      as (_ & _ & _ & _ & Hdrift).
    rewrite (detect_drift_lookup st cid a 10 Hl), <- Hdrift, Hd. reflexivity.
  - unfold analyze_constraint_health. rewrite Hl, Htp, Hfp. exact Hs.
Qed.

End Health.

Section HealthSample.
Import ConstraintSupervisor.

Lemma health_after_three_false_seven_true_witness :
  status (analyze_constraint_health FeedbackExamples.store_after_feedback "abc12345")
  = "needs_review".
Proof.
  destruct (health_after_three_false_seven_true "t00" "abc12345"
              [ ("t01", "Create mock API"); ("t02", "Mock interview tips");
                ("t03", "Explain mock objects") ]
              [ ("t04", "Use mock data here"); ("t05", "Add mock users");
                ("t06", "Return mock response"); ("t07", "Seed with mock rows");
                ("t08", "Mock the payment call"); ("t09", "Fill with mock values");
                ("t10", "Generate mock orders") ] eq_refl eq_refl)
    as (a & _ & _ & _ & _ & _ & _ & _ & Hstatus).
  exact Hstatus.
Defined.

(** C8, as stated, fails: the ten recorded outcomes give precision 0.7 and
    a drift under 0.5, and the reported status is not [acceptable]. *)
Lemma health_not_acceptable_at_precision_070 :
  ~ (exists a,
       ConstraintSupervisor.constraints FeedbackExamples.store_after_feedback
         !! "abc12345" = Some a
       /\ (precision a == 7 # 10)%Q
       /\ (drift_score a < 1 # 2)%Q
       /\ status (analyze_constraint_health
                    FeedbackExamples.store_after_feedback "abc12345")
          = "acceptable").
Proof.
  intros (a & _ & _ & _ & Hstatus). vm_compute in Hstatus. discriminate.
Qed.

End HealthSample.

(** ** Suggestions *)

Section SuggestionFacts.
Context `{RegexEngine}.
Variable format_2f : Q -> string.
Import ConstraintSupervisor.

Lemma elem_of_map_iff {A B} (f : A -> B) (l : list A) (y : B) :
  y ∈ map f l <-> exists x, y = f x /\ x ∈ l.
Proof.
  rewrite list_elem_of_In, in_map_iff.
  setoid_rewrite list_elem_of_In. split; intros (x & Hx & Hin); eauto.
Qed.

Lemma elem_of_if_singleton {A} (b : bool) (x s : A) :
  s ∈ (if b then [x] else []) -> s = x /\ b = true.
Proof.
  destruct b; intros Hs; [|by apply elem_of_nil in Hs].
  by apply list_elem_of_singleton in Hs.
Qed.

(** C9. For a rule that has an analytics record and is found in the rule
    store, [suggest_improvements] holds a [narrow_pattern] suggestion
    exactly when [false_positives / max(total_triggers, 1)] exceeds 0.20
    and some trigger pattern contains [.*], and a [disable_constraint]
    suggestion exactly when the stored precision is below 0.50; every
    [narrow_pattern] suggestion has confidence 0.75 and every
    [disable_constraint] suggestion has confidence 0.90.  Neither
    condition mentions the other. *)
Theorem suggestion_conditions (st : Store) (manager : ConstraintManager.Manager)
  (cid : string) (analytics : Analytics) (constraint : ConstraintManager.Constraint) :
  constraints st !! cid = Some analytics ->
  ConstraintManager.get_constraint manager cid = Some constraint ->
  let out := suggest_improvements format_2f st manager cid in
  ((exists s, s ∈ out /\ type s = "narrow_pattern")
   <-> (20 # 100 < suggestion_fp_rate analytics)%Q
       /\ exists pattern,
            pattern ∈ ConstraintManager.trigger_patterns constraint
            /\ PyStr.contains ".*" pattern = true)
  /\ (forall s, s ∈ out -> type s = "narrow_pattern" -> confidence s = (75 # 100)%Q)
  /\ ((exists s, s ∈ out /\ type s = "disable_constraint")
      <-> (precision analytics < 50 # 100)%Q)
  /\ (forall s, s ∈ out -> type s = "disable_constraint" ->
        confidence s = (90 # 100)%Q).
Proof.
  intros Hl Hg out. subst out. unfold suggest_improvements. rewrite Hl, Hg.
  set (narrow :=
         if Qltb (20 # 100)%Q (suggestion_fp_rate analytics)
         then map (narrow_pattern_suggestion format_2f (suggestion_fp_rate analytics))
                (List.filter (PyStr.contains ".*")
                   (ConstraintManager.trigger_patterns constraint))
         else []).
  set (ctx := if Qltb (15 # 100)%Q (suggestion_fp_rate analytics) && _
              then [_] else []).
  set (incr := if Qltb (95 # 100)%Q (precision analytics) && _ then [_] else []).
  set (dis := if Qltb (precision analytics) (50 # 100)%Q then [_] else []).
  assert (forall s, s ∈ narrow -> type s = "narrow_pattern"
                    /\ confidence s = (75 # 100)%Q
                    /\ (20 # 100 < suggestion_fp_rate analytics)%Q
                    /\ exists pattern,
                         pattern ∈ ConstraintManager.trigger_patterns constraint
                         /\ PyStr.contains ".*" pattern = true) as Hnarrow.
  { intros s Hs. subst narrow.
    destruct (Qltb (20 # 100)%Q (suggestion_fp_rate analytics)) eqn:Hq;
      [|by apply elem_of_nil in Hs].
    apply elem_of_map_iff in Hs as (p & -> & Hp).
    apply elem_of_filter_bool in Hp as [Hp Hc].
    repeat split; [by apply Qltb_lt|]. by exists p. }
  assert (forall s, s ∈ ctx -> type s = "add_context_filter") as Hctx.
  { intros s Hs. subst ctx. by apply elem_of_if_singleton in Hs as [-> _]. }
  assert (forall s, s ∈ incr -> type s = "increase_enforcement") as Hincr.
  { intros s Hs. subst incr. by apply elem_of_if_singleton in Hs as [-> _]. }
  assert (forall s, s ∈ dis -> type s = "disable_constraint"
                    /\ confidence s = (90 # 100)%Q
                    /\ (precision analytics < 50 # 100)%Q) as Hdis.
  { intros s Hs. subst dis. apply elem_of_if_singleton in Hs as [-> Hq].
    repeat split. by apply Qltb_lt. }
  assert (forall s, s ∈ narrow ++ ctx ++ incr ++ dis ->
                    s ∈ narrow \/ s ∈ ctx \/ s ∈ incr \/ s ∈ dis) as Hsplit.
  { intros s. rewrite !elem_of_app. tauto. }
  split; [|split; [|split]].
  - split.
    + intros (s & Hs & Hty).
      apply Hsplit in Hs as [Hs|[Hs|[Hs|Hs]]].
      * by destruct (Hnarrow s Hs) as (_ & _ & ? & ?).
      * apply Hctx in Hs. congruence.
      * apply Hincr in Hs. congruence.
      * apply Hdis in Hs as [Hs _]. congruence.
    + intros [Hq (p & Hp & Hc)].
      exists (narrow_pattern_suggestion format_2f (suggestion_fp_rate analytics) p).
      split; [|reflexivity]. apply elem_of_app. left. subst narrow.
      rewrite (proj2 (Qltb_lt _ _) Hq). apply elem_of_map_iff. exists p.
      split; [reflexivity|]. by apply elem_of_filter_bool.
  - intros s Hs Hty. apply Hsplit in Hs as [Hs|[Hs|[Hs|Hs]]].
    + by destruct (Hnarrow s Hs) as (_ & ? & _).
    + apply Hctx in Hs. congruence.
    + apply Hincr in Hs. congruence.
    + apply Hdis in Hs as [Hs _]. congruence.
  - split.
    + intros (s & Hs & Hty).
      apply Hsplit in Hs as [Hs|[Hs|[Hs|Hs]]].
      * apply Hnarrow in Hs as [Hs _]. congruence.
      * apply Hctx in Hs. congruence.
      * apply Hincr in Hs. congruence.
      * by destruct (Hdis s Hs) as (_ & _ & ?).
    + intros Hq. eexists. split.
      * rewrite !elem_of_app. right. right. right. subst dis.
        rewrite (proj2 (Qltb_lt _ _) Hq). apply list_elem_of_here.
      * reflexivity.
  - intros s Hs Hty. apply Hsplit in Hs as [Hs|[Hs|[Hs|Hs]]].
    + apply Hnarrow in Hs as [Hs _]. congruence.
    + apply Hctx in Hs. congruence.
    + apply Hincr in Hs. congruence.
    + by destruct (Hdis s Hs) as (_ & ? & _).
Qed.

End SuggestionFacts.

Lemma suggestion_conditions_witness :
  (exists s, s ∈ ConstraintSupervisor.suggest_improvements (fun _ => "1.00")
                   FeedbackExamples.broad_rule_store
                   FeedbackExamples.broad_rule_manager "dddd4444"
             /\ ConstraintSupervisor.type s = "narrow_pattern")
  /\ (exists s, s ∈ ConstraintSupervisor.suggest_improvements (fun _ => "1.00")
                      FeedbackExamples.broad_rule_store
                      FeedbackExamples.broad_rule_manager "dddd4444"
                /\ ConstraintSupervisor.type s = "disable_constraint").
Proof.
  eassert (ConstraintSupervisor.constraints FeedbackExamples.broad_rule_store
             !! "dddd4444" = Some _) as Hl by (vm_compute; reflexivity).
  eassert (ConstraintManager.get_constraint FeedbackExamples.broad_rule_manager
             "dddd4444" = Some _) as Hg by (vm_compute; reflexivity).
  destruct (suggestion_conditions (fun _ => "1.00")
              FeedbackExamples.broad_rule_store
              FeedbackExamples.broad_rule_manager "dddd4444" _ _ Hl Hg)
    as (Hnarrow & _ & Hdisable & _).
  split.
  - apply Hnarrow. split; [by vm_compute|].
    exists "mock.*api". split; [apply list_elem_of_here|by vm_compute].
  - apply Hdisable. by vm_compute.
Defined.

(** ** The legacy check, in full *)

Section LegacyCheck.
Context `{RegexEngine}.
Import ConstraintManager LegacySpec.

Lemma legacy_step_spec now query triggered cs pos :
  legacy_step now (PyStr.lower query) (triggered, cs) pos
  = (if legacy_fires_at query cs pos then triggered ++ [pos] else triggered,
     if legacy_fires_at query cs pos
     then match cs !! pos with
          | Some c => <[pos := record_match now c]> cs
          | None => cs
          end
     else cs).
Proof.
  unfold legacy_step, legacy_fires_at, legacy_fires.
  destruct (cs !! pos) as [c|]; [|done].
  destruct (enabled c); simpl; [|done].
  by destruct (existsb _ _).
Qed.

Lemma legacy_fires_at_insert_ne query cs pos pos' c :
  pos <> pos' ->
  legacy_fires_at query (<[pos := c]> cs) pos' = legacy_fires_at query cs pos'.
Proof. intros Hne. unfold legacy_fires_at. by rewrite list_lookup_insert_ne. Qed.

Lemma filter_legacy_insert query cs pos c ps :
  pos ∉ ps ->
  List.filter (legacy_fires_at query (<[pos := c]> cs)) ps
  = List.filter (legacy_fires_at query cs) ps.
Proof.
  induction ps as [|p ps IH]; intros Hnot; [done|].
  apply not_elem_of_cons in Hnot as [Hne Hnot]. simpl.
  rewrite legacy_fires_at_insert_ne by done. by rewrite IH.
Qed.

Lemma legacy_loop_spec now query ps :
  NoDup ps ->
  forall triggered cs,
  exists cs',
    fold_left (legacy_step now (PyStr.lower query)) ps (triggered, cs)
    = (triggered ++ List.filter (legacy_fires_at query cs) ps, cs')
    /\ forall i, cs' !! i
         = recorded now (List.filter (legacy_fires_at query cs) ps) cs i.
Proof.
  induction 1 as [|pos ps Hnotin Hnd IH]; intros triggered cs.
  - exists cs. simpl. rewrite app_nil_r. split; auto.
  - cbn [fold_left]. rewrite legacy_step_spec.
    destruct (legacy_fires_at query cs pos) eqn:Hf.
    + assert (exists c, cs !! pos = Some c) as [c Hc].
      { unfold legacy_fires_at in Hf. destruct (cs !! pos); [eauto|done]. }
      rewrite Hc.
      destruct (IH (triggered ++ [pos]) (<[pos := record_match now c]> cs))
        as (cs' & Hfold & Hcs').
      rewrite filter_legacy_insert in Hfold, Hcs' by done.
      exists cs'. split.
      * rewrite Hfold. simpl. rewrite Hf. by rewrite <- app_assoc.
      * intros i. rewrite Hcs'. unfold recorded. simpl. rewrite Hf.
        destruct (decide (i = pos)) as [->|Hne].
        -- rewrite bool_decide_eq_false_2.
           2:{ rewrite elem_of_filter_bool. tauto. }
           rewrite bool_decide_eq_true_2 by apply list_elem_of_here.
           rewrite list_lookup_insert_eq; [by rewrite Hc|].
           by apply lookup_lt_Some in Hc.
        -- rewrite list_lookup_insert_ne by done.
           assert (i ∈ pos :: List.filter (legacy_fires_at query cs) ps
                   <-> i ∈ List.filter (legacy_fires_at query cs) ps) as Hiff.
           { rewrite elem_of_cons. tauto. }
           by rewrite (bool_decide_ext _ _ Hiff).
    + destruct (IH triggered cs) as (cs' & Hfold & Hcs').
      exists cs'. simpl. rewrite Hf. done.
Qed.

(** The dictionaries at the positions that satisfy a test on the stored
    dictionary are the stored dictionaries that satisfy it, in order. *)
Lemma omap_filter_positions {A} (f : A -> bool) (l : list A) :
  forall k,
  omap (fun i => l !! (i - k)%nat)
    (List.filter (fun i => match l !! (i - k)%nat with
                           | Some x => f x
                           | None => false
                           end) (seq k (length l)))
  = List.filter f l.
Proof.
  induction l as [|a l IH]; intros k; [done|].
  cbn [length seq List.filter]. rewrite Nat.sub_diag. cbn [lookup list_lookup].
  assert (List.filter (fun i => match (a :: l) !! (i - k)%nat with
                                  | Some x => f x | None => false end)
              (seq (S k) (length l))
            = List.filter (fun i => match l !! (i - S k)%nat with
                                    | Some x => f x | None => false end)
                (seq (S k) (length l))) as Hfil.
  { apply filter_ext_in. intros i Hi. apply in_seq in Hi.
    replace (i - k)%nat with (S (i - S k)) by lia. done. }
  assert (forall ps : list nat, (forall i, i ∈ ps -> (S k <= i)%nat) ->
            omap (fun i => (a :: l) !! (i - k)%nat) ps
            = omap (fun i => l !! (i - S k)%nat) ps) as Homap.
  { induction ps as [|p ps IHps]; intros Hps; [done|].
    cbn [omap list_omap].
    assert (S k <= p)%nat as Hp by (apply Hps, list_elem_of_here).
    replace (p - k)%nat with (S (p - S k)) by lia. cbn [lookup list_lookup].
    rewrite IHps; [done|]. intros i Hi. by apply Hps, list_elem_of_further. }
  destruct (f a).
  - cbn [omap list_omap]. rewrite Nat.sub_diag. cbn [lookup list_lookup].
    f_equal. rewrite Hfil, Homap; [apply IH|].
    intros i Hi. apply elem_of_filter_bool in Hi as [Hi _].
    apply list_elem_of_In, in_seq in Hi. lia.
  - rewrite Hfil, Homap; [apply IH|].
    intros i Hi. apply elem_of_filter_bool in Hi as [Hi _].
    apply list_elem_of_In, in_seq in Hi. lia.
Qed.

Lemma elem_of_fired_positions query (cs : list Constraint) i :
  i ∈ List.filter (legacy_fires_at query cs) (seq 0 (length cs))
  <-> legacy_fires_at query cs i = true.
Proof.
  rewrite elem_of_filter_bool. split; [tauto|]. intros Hf. split; [|done].
  apply list_elem_of_In, in_seq. unfold legacy_fires_at in Hf.
  destruct (cs !! i) eqn:Hl; [|done]. apply lookup_lt_Some in Hl. lia.
Qed.

Lemma check_constraints_full now io_ok query (m : Manager) :
  let r := check_constraints now io_ok query m in
  fst r = List.filter (legacy_fires_at query (constraints m))
            (seq 0 (length (constraints m)))
  /\ deref (snd r) (fst r)
     = map (record_match now) (List.filter (legacy_fires query) (constraints m))
  /\ constraints (snd r) = map (after_check now query) (constraints m).
Proof.
  intros r. subst r. unfold check_constraints.
  destruct (legacy_loop_spec now query (seq 0 (length (constraints m)))
              (NoDup_seq 0 _) [] (constraints m)) as (cs' & Hfold & Hcs').
  rewrite Hfold. cbn [app].
  set (tr := List.filter (legacy_fires_at query (constraints m))
               (seq 0 (length (constraints m)))) in *.
  assert (cs' = map (after_check now query) (constraints m)) as Hmap.
  { apply list_eq. intros i. rewrite Hcs'. unfold recorded.
    change (map (after_check now query) (constraints m))
      with (after_check now query <$> constraints m).
    rewrite list_lookup_fmap.
    rewrite (bool_decide_ext _ _ (elem_of_fired_positions query (constraints m) i)).
    unfold legacy_fires_at, after_check.
    destruct (constraints m !! i) as [c|]; simpl.
    - destruct (legacy_fires query c); [by rewrite bool_decide_eq_true_2|].
      by rewrite bool_decide_eq_false_2.
    - done. }
  assert (forall m' : Manager, constraints m' = cs' ->
            deref m' tr
            = map (record_match now)
                (List.filter (legacy_fires query) (constraints m))) as Hderef.
  { intros m' Hm'. unfold deref. rewrite Hm', Hmap.
    rewrite <- (omap_filter_positions (legacy_fires query) (constraints m) 0).
    subst tr. unfold legacy_fires_at.
    generalize (seq 0 (length (constraints m))). intros ps.
    induction ps as [|p ps IH]; [done|]. cbn [List.filter].
    rewrite Nat.sub_0_r.
    destruct (constraints m !! p) as [c|] eqn:Hc; [|done].
    destruct (legacy_fires query c) eqn:Hf; [|done].
    cbn [omap list_omap map]. rewrite Nat.sub_0_r.
    change (map (after_check now query) (constraints m))
      with (after_check now query <$> constraints m).
    rewrite list_lookup_fmap, Hc. cbn [fmap option_fmap option_map].
    unfold after_check at 1. rewrite Hf.
    change (map (record_match now) ?l) with (record_match now <$> l) in *.
    cbn [fmap list_fmap]. f_equal. exact IH. }
  destruct tr as [|p tr'] eqn:Htr; cbn [fst snd].
  - split; [done|]. split; [by apply Hderef|done].
  - split; [done|]. rewrite save_keeps_constraints. cbn [constraints].
    split; [|done]. apply Hderef. by rewrite save_keeps_constraints.
Qed.

(** X1. [check_constraints] returns the positions of exactly the enabled
    rules one of whose keywords occurs in the lowercased query, in store
    order; the dictionaries it returns are those rules with the match
    recorded; every stored rule that fired has its counter raised by one
    and its time stamp set, and every other rule is left as it was. *)
Theorem check_constraints_spec now io_ok query (m : Manager) :
  let r := check_constraints now io_ok query m in
  fst r = List.filter (legacy_fires_at query (constraints m))
            (seq 0 (length (constraints m)))
  /\ deref (snd r) (fst r)
     = map (record_match now) (List.filter (legacy_fires query) (constraints m))
  /\ constraints (snd r) = map (after_check now query) (constraints m).
Proof. apply check_constraints_full. Qed.

End LegacyCheck.

(** ** The chat client *)

Section ChatFacts.
Context `{RegexEngine}.
Import ConstraintManager LegacySpec GrokFlowCLI.

Lemma enforce_blocked (triggered : list Constraint) :
  snd (enforce triggered) = List.find is_block triggered.
Proof.
  induction triggered as [|c rest IH]; [done|].
  cbn [enforce List.find]. unfold is_block at 1.
  destruct (String.eqb (enforcement_action c) "block"); [done|].
  destruct (enforce rest) as [notices blocked]. exact IH.
Qed.

Lemma find_map_record_match now (l : list Constraint) :
  List.find is_block (map (record_match now) l)
  = record_match now <$> List.find is_block l.
Proof.
  induction l as [|c l IH]; [done|]. cbn [map List.find].
  change (is_block (record_match now c)) with (is_block c).
  by destruct (is_block c).
Qed.

(** X2. The chat request is refused exactly when some enabled rule with
    a keyword in the lowercased prompt has the action [block]; the rule
    named in the refusal is the first such rule in store order, with this
    match recorded.  Whether or not the request is refused, every rule
    that matched has its counter raised, also those stored after the
    blocking one. *)
Theorem chat_blocked_by_first_block_rule now io_ok prompt (m : Manager) :
  let r := chat now io_ok prompt m in
  snd (fst r)
  = record_match now
    <$> List.find is_block (List.filter (legacy_fires prompt) (constraints m))
  /\ (snd (fst r) = None
      <-> forall c, c ∈ constraints m -> legacy_fires prompt c = true ->
            enforcement_action c <> "block")
  /\ constraints (snd r) = map (after_check now prompt) (constraints m).
Proof.
  intros r. subst r. unfold chat.
  destruct (check_constraints_full now io_ok prompt m) as (_ & Hderef & Hcs).
  destruct (check_constraints now io_ok prompt m) as [triggered m'].
  cbn [fst snd] in Hderef, Hcs.
  pose proof (enforce_blocked (deref m' triggered)) as Hb.
  destruct (enforce (deref m' triggered)) as [notices blocked].
  cbn [fst snd] in *. rewrite Hderef, find_map_record_match in Hb.
  split; [done|]. split; [|done].
  rewrite Hb. split.
  - intros Hnone c Hc Hf Hact.
    destruct (List.find is_block _) as [b|] eqn:Hfind; [done|].
    assert (In c (List.filter (legacy_fires prompt) (constraints m))) as Hin.
    { apply list_elem_of_In, elem_of_filter_bool. done. }
    pose proof (find_none _ _ Hfind c Hin) as Hnb.
    unfold is_block in Hnb. rewrite Hact in Hnb. discriminate.
  - intros Hall.
    destruct (List.find is_block _) as [b|] eqn:Hfind; [|done].
    apply find_some in Hfind as [Hin Hblock].
    apply list_elem_of_In, elem_of_filter_bool in Hin as [Hin Hf].
    unfold is_block in Hblock. apply String.eqb_eq in Hblock.
    by destruct (Hall b Hin Hf).
Qed.

End ChatFacts.

(** ** Statistics *)

Section Statistics.
Context `{RegexEngine}.
Import ConstraintManager LegacySpec ManagerOps.

Lemma sum_triggers_after_check now query (cs : list Constraint) :
  sum_triggers (map (after_check now query) cs)
  = sum_triggers cs
    + Z.of_nat (length (List.filter (legacy_fires query) cs)).
Proof.
  induction cs as [|c cs IH]; [done|].
  cbn [map sum_triggers fold_right List.filter].
  fold (sum_triggers (map (after_check now query) cs)).
  fold (sum_triggers cs). rewrite IH. unfold after_check.
  destruct (legacy_fires query c); cbn [length record_match triggered_count]; lia.
Qed.

Lemma filter_enabled_after_check now query (cs : list Constraint) :
  length (List.filter enabled (map (after_check now query) cs))
  = length (List.filter enabled cs).
Proof.
  induction cs as [|c cs IH]; [done|]. cbn [map List.filter].
  assert (enabled (after_check now query c) = enabled c) as ->.
  { unfold after_check. by destruct (legacy_fires query c). }
  destruct (enabled c); cbn [length]; by rewrite IH.
Qed.

(** X3. One [check_constraints] raises the total of the trigger counters
    reported by [get_stats] by the number of rules it returns, and leaves
    the numbers of stored and of enabled rules as they were. *)
Theorem stats_after_check now io_ok query (m : Manager) :
  let r := check_constraints now io_ok query m in
  total_triggers (get_stats (snd r))
  = total_triggers (get_stats m) + Z.of_nat (length (fst r))
  /\ total_constraints (get_stats (snd r)) = total_constraints (get_stats m)
  /\ enabled_constraints (get_stats (snd r)) = enabled_constraints (get_stats m).
Proof.
  intros r. subst r.
  destruct (check_constraints_full now io_ok query m) as (Hfst & Hderef & Hcs).
  unfold get_stats. cbn [total_triggers total_constraints enabled_constraints].
  rewrite Hcs, sum_triggers_after_check, filter_enabled_after_check, length_map.
  split; [|done]. f_equal. f_equal.
  apply (f_equal length) in Hderef. rewrite length_map in Hderef.
  rewrite <- Hderef. unfold deref.
  rewrite Hfst, Hcs. clear.
  induction (seq 0 (length (constraints m))) as [|p ps IH]; [done|].
  cbn [List.filter].
  destruct (legacy_fires_at query (constraints m) p) eqn:Hf; [|exact IH].
  assert (exists c, constraints m !! p = Some c) as [c Hc].
  { unfold legacy_fires_at in Hf. destruct (constraints m !! p); [eauto|done]. }
  cbn [omap list_omap].
  change (map (after_check now query) (constraints m))
    with (after_check now query <$> constraints m) in *.
  rewrite list_lookup_fmap, Hc. cbn [fmap option_fmap option_map length].
  by rewrite IH.
Qed.

Lemma most_triggered_fold (cs : list Constraint) :
  forall max_count best,
  0 <= max_count ->
  (best = None -> max_count = 0) ->
  (forall b, best = Some b -> mt_triggered_count b = max_count /\ 0 < max_count) ->
  let r := fold_left most_triggered_step cs (max_count, best) in
  max_count <= fst r
  /\ (forall c, c ∈ cs -> triggered_count c <= fst r)
  /\ (snd r = None -> fst r = 0)
  /\ (forall b, snd r = Some b ->
        mt_triggered_count b = fst r /\ 0 < fst r
        /\ (best = Some b
            \/ exists c, c ∈ cs /\ mt_constraint_id b = constraint_id c
                         /\ mt_description b = description c
                         /\ mt_triggered_count b = triggered_count c)).
Proof.
  induction cs as [|c cs IH]; intros max_count best Hnn Hnone Hsome r.
  - subst r. cbn [fold_left fst snd]. split; [lia|]. split.
    { intros c Hc. by apply elem_of_nil in Hc. }
    split; [exact Hnone|]. intros b Hb. destruct (Hsome b Hb) as [H1 H2].
    split; [done|]. split; [done|]. by left.
  - subst r. cbn [fold_left].
    assert (most_triggered_step (max_count, best) c
            = if max_count <? triggered_count c
              then (triggered_count c,
                    Some {| mt_constraint_id := constraint_id c;
                            mt_description := description c;
                            mt_triggered_count := triggered_count c |})
              else (max_count, best)) as -> by reflexivity.
    destruct (max_count <? triggered_count c) eqn:Hlt.
    + apply Z.ltb_lt in Hlt.
      edestruct (IH (triggered_count c)
                   (Some {| mt_constraint_id := constraint_id c;
                            mt_description := description c;
                            mt_triggered_count := triggered_count c |}))
        as (Hle & Hall & Hn & Hs); [lia|done| |].
      { intros b [= <-]. cbn. lia. }
      split; [lia|]. split.
      { intros c' Hc'. apply elem_of_cons in Hc' as [->|Hc']; [done|by apply Hall]. }
      split; [done|].
      intros b Hb. destruct (Hs b Hb) as (H1 & H2 & [Heq|(c' & Hc' & ?)]).
      * split; [done|]. split; [done|]. right. exists c.
        injection Heq as <-. split; [apply list_elem_of_here|done].
      * split; [done|]. split; [done|]. right. exists c'.
        split; [by apply list_elem_of_further|done].
    + apply Z.ltb_ge in Hlt.
      edestruct (IH max_count best) as (Hle & Hall & Hn & Hs); [done..|].
      split; [done|]. split.
      { intros c' Hc'. apply elem_of_cons in Hc' as [->|Hc']; [lia|by apply Hall]. }
      split; [done|].
      intros b Hb. destruct (Hs b Hb) as (H1 & H2 & [Heq|(c' & Hc' & ?)]).
      * split; [done|]. split; [done|]. by left.
      * split; [done|]. split; [done|]. right. exists c'.
        split; [by apply list_elem_of_further|done].
Qed.

(** X4. [get_stats] reports no most-triggered rule exactly when no stored
    rule has a positive counter; when it reports one, this is a stored
    rule, its counter is positive and no stored rule has a larger one. *)
Theorem most_triggered_is_maximal (m : Manager) :
  (most_triggered (get_stats m) = None
   <-> forall c, c ∈ constraints m -> triggered_count c <= 0)
  /\ (forall b, most_triggered (get_stats m) = Some b ->
        0 < mt_triggered_count b
        /\ (exists c, c ∈ constraints m /\ mt_constraint_id b = constraint_id c
                      /\ mt_description b = description c
                      /\ mt_triggered_count b = triggered_count c)
        /\ forall c, c ∈ constraints m ->
             triggered_count c <= mt_triggered_count b).
Proof.
  unfold get_stats. cbn [most_triggered].
  destruct (most_triggered_fold (constraints m) 0 None) as (Hle & Hall & Hn & Hs);
    [lia|done|done|].
  destruct (fold_left most_triggered_step (constraints m) (0, None))
    as [max_count best]. cbn [fst snd] in *.
  split.
  - split.
    + intros ->. intros c Hc. rewrite <- (Hn eq_refl). by apply Hall.
    + intros Hnonpos. destruct best as [b|]; [|done].
      destruct (Hs b eq_refl) as (H1 & H2 & [?|(c & Hc & _ & _ & Hcount)]); [done|].
      specialize (Hnonpos c Hc). lia.
  - intros b ->. destruct (Hs b eq_refl) as (H1 & H2 & [?|Hex]); [done|].
    split; [lia|]. split; [done|]. intros c Hc. rewrite H1. by apply Hall.
Qed.

End Statistics.

(** ** Looking rules up by id prefix *)

Section PrefixLookup.
Context `{RegexEngine}.
Import ConstraintManager ManagerOps.

Lemma find_first_match cid cs c :
  List.find (fun c => PyStr.startswith cid (constraint_id c)) cs = Some c
  <-> exists pre post, first_match cid cs pre c post.
Proof.
  induction cs as [|a cs IH]; cbn [List.find].
  - split; [done|]. intros (pre & post & Heq & _). by destruct pre.
  - destruct (PyStr.startswith cid (constraint_id a)) eqn:Ha.
    + split.
      * intros [= <-]. exists [], cs. repeat split; [done|].
        intros c' Hc'. by apply elem_of_nil in Hc'.
      * intros (pre & post & Heq & Hc & Hpre). destruct pre as [|b pre].
        -- by injection Heq as -> _.
        -- injection Heq as -> _.
           rewrite (Hpre b (list_elem_of_here _ _)) in Ha. discriminate.
    + rewrite IH. split.
      * intros (pre & post & -> & Hc & Hpre). exists (a :: pre), post.
        repeat split; [done|]. intros c' Hc'.
        apply elem_of_cons in Hc' as [->|Hc']; [done|by apply Hpre].
      * intros (pre & post & Heq & Hc & Hpre). destruct pre as [|b pre].
        -- injection Heq as -> _. congruence.
        -- injection Heq as -> ->. exists pre, post. repeat split; [done|].
           intros c' Hc'. by apply Hpre, list_elem_of_further.
Qed.

Lemma first_match_unique cid cs pre c post pre' c' post' :
  first_match cid cs pre c post -> first_match cid cs pre' c' post' ->
  pre = pre' /\ c = c' /\ post = post'.
Proof.
  intros (Heq & Hc & Hpre) (Heq' & Hc' & Hpre'). subst cs.
  revert pre' Heq' Hpre'. induction pre as [|a pre IH]; intros [|b pre'] Heq' Hpre'.
  - injection Heq' as Hh Ht. by subst.
  - injection Heq' as Hh Ht. subst b.
    rewrite (Hpre' c (list_elem_of_here _ _)) in Hc. discriminate.
  - injection Heq' as Hh Ht. subst a.
    rewrite (Hpre c' (list_elem_of_here _ _)) in Hc'. discriminate.
  - injection Heq' as Hh Ht. subst b.
    destruct (IH (fun x Hx => Hpre x (list_elem_of_further _ _ _ Hx)) pre' Ht
                (fun x Hx => Hpre' x (list_elem_of_further _ _ _ Hx)))
      as (-> & -> & ->). done.
Qed.

Lemma remove_first_spec cid cs :
  match remove_first cid cs with
  | Some cs' => exists pre c post, first_match cid cs pre c post /\ cs' = pre ++ post
  | None => forall c, c ∈ cs -> PyStr.startswith cid (constraint_id c) = false
  end.
Proof.
  induction cs as [|a cs IH]; cbn [remove_first].
  - intros c Hc. by apply elem_of_nil in Hc.
  - destruct (PyStr.startswith cid (constraint_id a)) eqn:Ha.
    + exists [], a, cs. repeat split; [done|].
      intros c' Hc'. by apply elem_of_nil in Hc'.
    + destruct (remove_first cid cs) as [cs'|]; cbn [option_map].
      * destruct IH as (pre & c & post & (-> & Hc & Hpre) & ->).
        exists (a :: pre), c, post. repeat split; [done|].
        intros c' Hc'. apply elem_of_cons in Hc' as [->|Hc']; [done|by apply Hpre].
      * intros c Hc. apply elem_of_cons in Hc as [->|Hc]; [done|by apply IH].
Qed.

Lemma set_enabled_first_spec b cid cs :
  match set_enabled_first b cid cs with
  | Some cs' => exists pre c post, first_match cid cs pre c post
                                   /\ cs' = pre ++ set_enabled b c :: post
  | None => forall c, c ∈ cs -> PyStr.startswith cid (constraint_id c) = false
  end.
Proof.
  induction cs as [|a cs IH]; cbn [set_enabled_first].
  - intros c Hc. by apply elem_of_nil in Hc.
  - destruct (PyStr.startswith cid (constraint_id a)) eqn:Ha.
    + exists [], a, cs. repeat split; [done|].
      intros c' Hc'. by apply elem_of_nil in Hc'.
    + destruct (set_enabled_first b cid cs) as [cs'|]; cbn [option_map].
      * destruct IH as (pre & c & post & (-> & Hc & Hpre) & ->).
        exists (a :: pre), c, post. repeat split; [done|].
        intros c' Hc'. apply elem_of_cons in Hc' as [->|Hc']; [done|by apply Hpre].
      * intros c Hc. apply elem_of_cons in Hc as [->|Hc]; [done|by apply IH].
Qed.

Lemma find_none_iff cid (cs : list Constraint) :
  List.find (fun c => PyStr.startswith cid (constraint_id c)) cs = None
  <-> forall c, c ∈ cs -> PyStr.startswith cid (constraint_id c) = false.
Proof.
  split.
  - intros Hn c Hc. apply list_elem_of_In in Hc. by apply (find_none _ _ Hn c).
  - intros Hall. destruct (List.find _ cs) as [c|] eqn:Hf; [|done].
    apply find_some in Hf as [Hin Hc]. apply list_elem_of_In in Hin.
    rewrite (Hall c Hin) in Hc. discriminate.
Qed.

End PrefixLookup.

(** ** What the keyword index holds *)

Section IndexContents.
Context `{RegexEngine}.
Import ConstraintManager IndexSpec.

Lemma indexed_add_inv idx key cid key' cid' :
  indexed (index_add key cid idx) key' cid' ->
  (key' = key /\ cid' = cid) \/ indexed idx key' cid'.
Proof.
  unfold indexed, index_add. intros (ids & Hl & Hin).
  destruct (decide (key = key')) as [<-|Hne].
  - destruct (idx !! key) as [ids0|] eqn:Hk; cbn [default] in Hl.
    + case_bool_decide as Hd; rewrite lookup_insert_eq in Hl;
        injection Hl as <-.
      * right. by exists ids0.
      * apply elem_of_app in Hin as [Hin|Hin]; [right; by exists ids0|].
        apply list_elem_of_singleton in Hin. by left.
    + case_bool_decide as Hd; rewrite lookup_insert_eq in Hl;
        injection Hl as <-.
      * by apply elem_of_nil in Hin.
      * apply list_elem_of_singleton in Hin. by left.
  - right. case_bool_decide; rewrite lookup_insert_ne in Hl by done;
      by exists ids.
Qed.

Lemma indexed_keywords_inv cid kws :
  forall idx key' cid',
  indexed (fold_left (fun i kw => index_add kw cid i) kws idx) key' cid' ->
  (key' ∈ kws /\ cid' = cid) \/ indexed idx key' cid'.
Proof.
  induction kws as [|kw kws IH]; intros idx key' cid' Hi; [by right|].
  cbn [fold_left] in Hi. apply IH in Hi as [[Hin ->]|Hi].
  - left. split; [by apply list_elem_of_further|done].
  - apply indexed_add_inv in Hi as [[-> ->]|Hi]; [|by right].
    left. split; [apply list_elem_of_here|done].
Qed.

Lemma indexed_patterns_inv cid ps :
  forall idx key' cid',
  indexed (fold_left (index_pattern cid) ps idx) key' cid' ->
  ((exists p, p ∈ ps /\ pattern_key p key') /\ cid' = cid) \/ indexed idx key' cid'.
Proof.
  induction ps as [|p ps IH]; intros idx key' cid' Hi; [by right|].
  cbn [fold_left] in Hi. apply IH in Hi as [[(p' & Hp' & Hk) ->]|Hi].
  - left. split; [|done]. exists p'. split; [by apply list_elem_of_further|done].
  - unfold index_pattern in Hi.
    destruct (_extract_keyword_from_pattern p) as [k|] eqn:Hex; [|by right].
    destruct (Nat.leb 3 (String.length k)) eqn:Hlen; [|by right].
    apply indexed_add_inv in Hi as [[-> ->]|Hi]; [|by right].
    left. split; [|done]. exists p. split; [apply list_elem_of_here|].
    split; [done|]. by apply Nat.leb_le.
Qed.

Lemma indexed_patterns cid ps p key :
  p ∈ ps -> pattern_key p key ->
  forall idx, indexed (fold_left (index_pattern cid) ps idx) key cid.
Proof.
  intros Hp [Hex Hlen]. induction ps as [|p' ps IH]; intros idx.
  - by apply elem_of_nil in Hp.
  - cbn [fold_left]. apply elem_of_cons in Hp as [<-|Hp].
    + apply indexed_patterns_mono. unfold index_pattern. rewrite Hex.
      rewrite (proj2 (Nat.leb_le _ _) Hlen). apply indexed_add_same.
    + by apply IH.
Qed.

Lemma indexed_constraint_inv idx c key' cid' :
  indexed (index_constraint idx c) key' cid' ->
  (constraint_id c = cid' /\ cid' <> EmptyString /\ contributes c key')
  \/ indexed idx key' cid'.
Proof.
  unfold index_constraint.
  destruct (String.eqb (constraint_id c) EmptyString) eqn:He; [by right|].
  apply String.eqb_neq in He. intros Hi.
  apply indexed_patterns_inv in Hi as [[Hp ->]|Hi].
  - left. split; [done|]. split; [done|]. by right.
  - apply indexed_keywords_inv in Hi as [[Hk ->]|Hi]; [|by right].
    left. split; [done|]. split; [done|]. by left.
Qed.

Lemma indexed_constraint_contributes idx c key :
  constraint_id c <> EmptyString -> contributes c key ->
  indexed (index_constraint idx c) key (constraint_id c).
Proof.
  intros Hne [Hk|(p & Hp & Hkey)].
  - by apply indexed_constraint_keyword.
  - unfold index_constraint. apply String.eqb_neq in Hne. rewrite Hne.
    by apply (indexed_patterns _ _ p).
Qed.

Lemma build_index_contents cs key cid :
  indexed (build_index cs) key cid
  <-> exists c, c ∈ cs /\ constraint_id c = cid /\ cid <> EmptyString
                /\ contributes c key.
Proof.
  unfold build_index.
  assert (forall idx,
            indexed (fold_left index_constraint cs idx) key cid
            <-> indexed idx key cid
                \/ exists c, c ∈ cs /\ constraint_id c = cid
                             /\ cid <> EmptyString /\ contributes c key) as Hgen.
  { induction cs as [|c cs IH]; intros idx; cbn [fold_left].
    - split; [by left|]. intros [?|(c & Hc & _)]; [done|].
      by apply elem_of_nil in Hc.
    - rewrite IH. split.
      + intros [Hi|(c' & Hc' & ?)].
        * apply indexed_constraint_inv in Hi as [(? & ? & ?)|Hi]; [|by left].
          right. exists c. split; [apply list_elem_of_here|done].
        * right. exists c'. split; [by apply list_elem_of_further|done].
      + intros [Hi|(c' & Hc' & Hid & Hne & Hcon)].
        * left. by apply indexed_constraint_mono.
        * apply elem_of_cons in Hc' as [->|Hc'].
          -- left. subst cid. by apply indexed_constraint_contributes.
          -- right. by exists c'. }
  rewrite Hgen. split; [|by right]. intros [(ids & Hl & _)|?]; [|done].
  rewrite lookup_empty in Hl. discriminate.
Qed.

Lemma entries_ok_add key cid idx :
  entries_ok idx -> entries_ok (index_add key cid idx).
Proof.
  intros Hok key' ids Hl. unfold index_add in Hl.
  destruct (decide (key = key')) as [<-|Hne].
  - destruct (idx !! key) as [ids0|] eqn:Hk; cbn [default] in Hl.
    + destruct (Hok key ids0 Hk) as [Hnd Hne0].
      case_bool_decide as Hd; rewrite lookup_insert_eq in Hl;
        injection Hl as <-; [done|].
      split; [|by destruct ids0].
      apply NoDup_app. split; [done|]. split; [|apply NoDup_singleton].
      intros x Hx Hx'. apply list_elem_of_singleton in Hx'. by subst.
    + case_bool_decide as Hd; rewrite lookup_insert_eq in Hl;
        injection Hl as <-.
      * by apply elem_of_nil in Hd.
      * split; [apply NoDup_singleton|done].
  - case_bool_decide; rewrite lookup_insert_ne in Hl by done; by apply (Hok key').
Qed.

Lemma entries_ok_constraint idx c :
  entries_ok idx -> entries_ok (index_constraint idx c).
Proof.
  intros Hok. unfold index_constraint.
  destruct (String.eqb (constraint_id c) EmptyString); [done|].
  assert (entries_ok (fold_left (fun i kw => index_add kw (constraint_id c) i)
                        (trigger_keywords c) idx)) as Hok1.
  { revert idx Hok. induction (trigger_keywords c) as [|kw kws IH];
      intros idx Hok; [done|]. cbn [fold_left]. by apply IH, entries_ok_add. }
  revert Hok1. generalize (fold_left (fun i kw => index_add kw (constraint_id c) i)
                             (trigger_keywords c) idx).
  induction (trigger_patterns c) as [|p ps IH]; intros idx1 Hok1; [done|].
  cbn [fold_left]. apply IH. unfold index_pattern.
  destruct (_extract_keyword_from_pattern p); [|done].
  destruct (Nat.leb 3 _); [|done]. by apply entries_ok_add.
Qed.

Lemma entries_ok_build cs : entries_ok (build_index cs).
Proof.
  unfold build_index.
  assert (entries_ok (∅ : gmap string (list string))) as Hok.
  { intros key ids Hl. rewrite lookup_empty in Hl. discriminate. }
  revert Hok. generalize (∅ : gmap string (list string)).
  induction cs as [|c cs IH]; intros idx Hok; [done|].
  cbn [fold_left]. by apply IH, entries_ok_constraint.
Qed.

(** X5. In the index that [_rebuild_keyword_index] builds, an id is
    listed under a key exactly when a stored rule with that non-empty id
    has the key among its keywords, or has a pattern from which
    [_extract_keyword_from_pattern] extracts the key, at least 3
    characters long; no entry lists an id twice and no entry is empty. *)
Theorem rebuilt_index_contents (m : Manager) key :
  let idx := keyword_index (_rebuild_keyword_index m) in
  (forall cid,
     (exists ids, idx !! key = Some ids /\ cid ∈ ids)
     <-> exists c, c ∈ constraints m /\ constraint_id c = cid
                   /\ cid <> EmptyString
                   /\ (key ∈ trigger_keywords c
                       \/ exists p, p ∈ trigger_patterns c
                                    /\ _extract_keyword_from_pattern p = Some key
                                    /\ (3 <= String.length key)%nat))
  /\ (forall ids, idx !! key = Some ids -> NoDup ids /\ ids <> []).
Proof.
  cbn. split.
  - intros cid. apply (build_index_contents (constraints m) key cid).
  - intros ids Hl. by apply (entries_ok_build (constraints m) key).
Qed.

End IndexContents.

(** ** Removing, disabling and enabling a rule *)

Section RuleLifecycle.
Context `{RegexEngine}.
Import ConstraintManager ManagerOps IndexSpec.

Lemma get_constraint_first_match (m : Manager) cid c :
  get_constraint m cid = Some c
  <-> (4 <= String.length cid)%nat
      /\ exists pre post, first_match cid (constraints m) pre c post.
Proof.
  unfold get_constraint. destruct (Nat.ltb (String.length cid) 4) eqn:Hlen.
  - apply Nat.ltb_lt in Hlen. split; [done|]. intros [? _]. lia.
  - apply Nat.ltb_ge in Hlen. rewrite find_first_match. tauto.
Qed.

Lemma candidates_are_stored (m : Manager) query cid :
  keyword_index m = build_index (constraints m) ->
  cid ∈ _get_candidate_constraint_ids m query ->
  exists c, c ∈ constraints m /\ constraint_id c = cid.
Proof.
  intros Hidx Hin. apply candidate_ids_spec in Hin as (w & _ & Hi).
  rewrite Hidx in Hi. apply build_index_contents in Hi as (c & Hc & Hid & _).
  by exists c.
Qed.

(** X6. [remove_constraint] answers true exactly when [get_constraint]
    finds a rule for the id or prefix; it then drops that rule, the first
    stored one whose id starts with the prefix, and keeps every other
    rule in place; it answers false and changes nothing otherwise, in
    particular for a prefix under 4 characters.  Once the store is saved,
    an id that no remaining rule bears is a candidate for no query. *)
Theorem remove_constraint_spec io_ok cid (m : Manager) :
  let r := remove_constraint io_ok cid m in
  (fst r = true <-> is_Some (get_constraint m cid))
  /\ (fst r = false -> snd r = m)
  /\ (forall c, get_constraint m cid = Some c ->
        exists pre post,
          first_match cid (constraints m) pre c post
          /\ constraints (snd r) = pre ++ post
          /\ (io_ok = true ->
              (forall c', c' ∈ pre ++ post -> constraint_id c' <> constraint_id c) ->
              forall query,
                constraint_id c ∉ _get_candidate_constraint_ids (snd r) query)).
Proof.
  intros r. subst r. unfold remove_constraint.
  destruct (Nat.ltb (String.length cid) 4) eqn:Hlen.
  - assert (get_constraint m cid = None) as Hg.
    { unfold get_constraint. by rewrite Hlen. }
    rewrite Hg. cbn [fst snd]. split; [|split; [done|done]].
    split; [done|]. by intros [? ?].
  - pose proof (remove_first_spec cid (constraints m)) as Hrem.
    destruct (remove_first cid (constraints m)) as [cs'|] eqn:Hr; cbn [fst snd].
    + destruct Hrem as (pre & c & post & Hfm & ->).
      assert (get_constraint m cid = Some c) as Hg.
      { apply get_constraint_first_match. split; [by apply Nat.ltb_ge|eauto]. }
      rewrite Hg. split; [split; eauto|]. split; [done|].
      intros c0 [= <-]. exists pre, post. split; [done|].
      rewrite save_keeps_constraints. cbn [constraints]. split; [done|].
      intros -> Hfresh query Hin.
      apply candidates_are_stored in Hin as (c' & Hc' & Hid); [|done].
      cbn [_save_constraints snd _rebuild_keyword_index constraints] in Hc'.
      by apply (Hfresh c' Hc').
    + assert (get_constraint m cid = None) as Hg.
      { unfold get_constraint. rewrite Hlen. by apply find_none_iff. }
      rewrite Hg. split; [|split; [done|done]].
      split; [done|]. by intros [? ?].
Qed.

Lemma set_enabled_again (c : Constraint) :
  enabled c = true -> set_enabled true (set_enabled false c) = c.
Proof. intros <-. by destruct c. Qed.

Lemma first_match_set_enabled b cid pre c post :
  first_match cid (pre ++ c :: post) pre c post ->
  first_match cid (pre ++ set_enabled b c :: post) pre (set_enabled b c) post.
Proof. intros (_ & Hc & Hpre). repeat split; done. Qed.

Lemma toggle_constraint_spec b io_ok cid (m : Manager) :
  let r := toggle_constraint b io_ok cid m in
  (fst r = true <-> is_Some (get_constraint m cid))
  /\ (fst r = false -> snd r = m)
  /\ (forall c, get_constraint m cid = Some c ->
        exists pre post,
          first_match cid (constraints m) pre c post
          /\ constraints (snd r) = pre ++ set_enabled b c :: post).
Proof.
  intros r. subst r. unfold toggle_constraint.
  destruct (Nat.ltb (String.length cid) 4) eqn:Hlen.
  - assert (get_constraint m cid = None) as Hg.
    { unfold get_constraint. by rewrite Hlen. }
    rewrite Hg. cbn [fst snd]. split; [|split; [done|done]].
    split; [done|]. by intros [? ?].
  - pose proof (set_enabled_first_spec b cid (constraints m)) as Hset.
    destruct (set_enabled_first b cid (constraints m)) as [cs'|]; cbn [fst snd].
    + destruct Hset as (pre & c & post & Hfm & ->).
      assert (get_constraint m cid = Some c) as Hg.
      { apply get_constraint_first_match. split; [by apply Nat.ltb_ge|eauto]. }
      rewrite Hg. split; [split; eauto|]. split; [done|].
      intros c0 [= <-]. exists pre, post. split; [done|].
      by rewrite save_keeps_constraints.
    + assert (get_constraint m cid = None) as Hg.
      { unfold get_constraint. rewrite Hlen. by apply find_none_iff. }
      rewrite Hg. split; [|split; [done|done]].
      split; [done|]. by intros [? ?].
Qed.

(** X7. [disable_constraint] answers true exactly when the id or prefix
    names a rule, and then clears the [enabled] flag of the first rule
    whose id starts with it and changes no other rule; afterwards neither
    [check_constraints] nor [check_constraints_v2] returns that rule,
    whatever the query.  [enable_constraint] with the same argument then
    gives back the rules as they were, when the rule was enabled
    before. *)
Theorem disable_then_enable io_ok cid (m : Manager) c :
  get_constraint m cid = Some c ->
  let r := disable_constraint io_ok cid m in
  fst r = true
  /\ exists pre post,
       first_match cid (constraints m) pre c post
       /\ constraints (snd r) = pre ++ set_enabled false c :: post
       /\ (forall now io_ok' query context,
             (length pre ∉ fst (check_constraints now io_ok' query (snd r)))
             /\ (length pre
                 ∉ fst (check_constraints_v2 now io_ok' query context (snd r))))
       /\ (enabled c = true ->
           forall io_ok',
             fst (enable_constraint io_ok' cid (snd r)) = true
             /\ constraints (snd (enable_constraint io_ok' cid (snd r)))
                = constraints m).
Proof.
  intros Hg r. subst r. unfold disable_constraint, enable_constraint.
  destruct (toggle_constraint_spec false io_ok cid m) as (Htrue & _ & Hsome).
  split; [apply Htrue; eauto|].
  destruct (Hsome c Hg) as (pre & post & Hfm & Hcs).
  exists pre, post. split; [done|]. split; [done|].
  set (m1 := snd (toggle_constraint false io_ok cid m)) in *.
  assert (constraints m1 !! length pre = Some (set_enabled false c)) as Hl.
  { rewrite Hcs. by rewrite list_lookup_middle. }
  split.
  - intros now io_ok' query context. split.
    + unfold check_constraints.
      pose proof (legacy_loop_disabled now (PyStr.lower query) (length pre)
                    (set_enabled false c) (seq 0 (length (constraints m1)))
                    eq_refl [] (constraints m1) Hl (not_elem_of_nil _))
        as [_ Hnot].
      destruct (fold_left _ _ _) as [triggered cs]. done.
    + apply (check_constraints_v2_skip now io_ok' query context m1 _ _ Hl).
      by left.
  - intros Hen io_ok'.
    assert (get_constraint m1 cid = Some (set_enabled false c)) as Hg1.
    { apply get_constraint_first_match. split.
      - apply get_constraint_first_match in Hg. tauto.
      - exists pre, post. rewrite Hcs. apply first_match_set_enabled.
        destruct Hfm as (Heq & ? & ?). rewrite <- Heq. done. }
    destruct (toggle_constraint_spec true io_ok' cid m1) as (Htrue1 & _ & Hsome1).
    split; [apply Htrue1; eauto|].
    destruct (Hsome1 _ Hg1) as (pre' & post' & Hfm' & ->).
    assert (first_match cid (constraints m1) pre (set_enabled false c) post)
      as Hfm1.
    { rewrite Hcs. apply first_match_set_enabled.
      destruct Hfm as (Heq & ? & ?). rewrite <- Heq. done. }
    destruct (first_match_unique _ _ _ _ _ _ _ _ Hfm' Hfm1) as (-> & _ & ->).
    rewrite (set_enabled_again c Hen). by destruct Hfm as (-> & _).
Qed.

(** X8. After [add_constraint], [get_constraint] with a prefix of the new
    id of at least 4 characters that starts no older id returns the new
    rule: keywords lowercased and stripped, counter 0, enabled, and the
    description as message when none was given.  With under 4 characters
    it returns nothing, even for a complete id. *)
Theorem get_constraint_after_add new_id now io_ok descr keywords action message
  (m : Manager) prefix :
  PyStr.startswith prefix new_id = true ->
  (forall c, c ∈ constraints m ->
     PyStr.startswith prefix (constraint_id c) = false) ->
  let m' := snd (add_constraint new_id now io_ok descr keywords action message m) in
  ((4 <= String.length prefix)%nat ->
   exists c,
     get_constraint m' prefix = Some c
     /\ constraints m' = constraints m ++ [c]
     /\ constraint_id c = new_id /\ version c = 1
     /\ trigger_keywords c
        = map (fun kw => PyStr.strip (PyStr.lower kw)) keywords
     /\ triggered_count c = 0 /\ enabled c = true
     /\ enforcement_action c = action
     /\ (message = None -> enforcement_message c = descr))
  /\ ((String.length prefix < 4)%nat -> get_constraint m' prefix = None).
Proof.
  intros Hpre Hold m'. subst m'. unfold add_constraint. cbn [snd]. split.
  - intros Hlen. eexists. split; [|split].
    + apply get_constraint_first_match. split; [done|].
      exists (constraints m), []. rewrite save_keeps_constraints.
      cbn [constraints]. split; [reflexivity|]. split; [exact Hpre|exact Hold].
    + by rewrite save_keeps_constraints.
    + cbn. repeat split. by intros ->.
  - intros Hlen. unfold get_constraint.
    by rewrite (proj2 (Nat.ltb_lt _ _) Hlen).
Qed.

(** X9. With a pattern cache that agrees with the engine,
    [check_constraints_v2] never returns a rule that a scan of every
    stored rule would not return; when no word of the query is in the
    index the two coincide. *)
Theorem indexed_result_within_full_scan now io_ok query context (m : Manager) :
  cache_ok (_regex_cache m) ->
  let r := fst (check_constraints_v2 now io_ok query context m) in
  (forall pos, pos ∈ r -> pos ∈ full_scan_matches query (default ∅ context) m)
  /\ (_get_candidate_constraint_ids m query = ∅ ->
      r = full_scan_matches query (default ∅ context) m).
Proof.
  intros Hok r. subst r.
  destruct (check_constraints_v2_spec now io_ok query context m Hok) as [-> _].
  unfold full_scan_matches. split.
  - intros pos Hpos. apply elem_of_filter_bool in Hpos as [_ Hf].
    apply elem_of_filter_bool. split; [|done].
    apply list_elem_of_In, in_seq. unfold fires_at in Hf.
    destruct (constraints m !! pos) eqn:Hl; [|done].
    apply lookup_lt_Some in Hl. lia.
  - intros ->. by rewrite constraints_to_check_fallback.
Qed.

End RuleLifecycle.

Lemma disable_then_enable_witness :
  fst (ConstraintManager.disable_constraint true "bbbb" Examples.shadow_store)
  = true.
Proof.
  eassert (ConstraintManager.get_constraint Examples.shadow_store "bbbb"
           = Some _) as Hg by (vm_compute; reflexivity).
  destruct (disable_then_enable true "bbbb" Examples.shadow_store _ Hg)
    as [Htrue _].
  exact Htrue.
Defined.

Lemma get_constraint_after_add_witness :
  exists c,
    ConstraintManager.get_constraint
      (snd (ConstraintManager.add_constraint "aaaa1111" "t0" true
              "Never use mock data" ["Mock "; "demo"] "warn" None
              (ConstraintManager.init [])))
      "aaaa" = Some c
    /\ ConstraintManager.trigger_keywords c = ["mock"; "demo"].
Proof.
  destruct (get_constraint_after_add "aaaa1111" "t0" true "Never use mock data"
              ["Mock "; "demo"] "warn" None (ConstraintManager.init []) "aaaa")
    as [Hfound _].
  - reflexivity.
  - intros c Hc. by apply elem_of_nil in Hc.
  - destruct Hfound as (c & Hg & _ & _ & _ & Hkw & _).
    + cbn. lia.
    + exists c. split; [exact Hg|exact Hkw].
Defined.

Lemma indexed_result_within_full_scan_witness :
  fst (ConstraintManager.check_constraints_v2 "t3" true "Hello there" None
         Examples.shadow_store)
  = ConstraintManager.full_scan_matches "Hello there" ∅ Examples.shadow_store.
Proof.
  assert (ConstraintManager.cache_ok
            (ConstraintManager._regex_cache Examples.shadow_store)) as Hok.
  { intros p r Hp.
    change (ConstraintManager._regex_cache Examples.shadow_store)
      with (∅ : gmap string string) in Hp.
    rewrite lookup_empty in Hp. discriminate. }
  destruct (indexed_result_within_full_scan "t3" true "Hello there"
              None Examples.shadow_store Hok) as [_ Hsame].
  apply Hsame. by vm_compute.
Defined.

(** ** Counters and history of a rule *)

Section FeedbackCounters.
Import ConstraintSupervisor FeedbackSpec.

Lemma record_trigger_record_or_new now cid query user_feedback st cid' :
  record_or_new (snd (record_trigger now cid query user_feedback st)) cid'
  = if String.eqb cid cid'
    then recalculated now
           (count_feedback now query user_feedback (record_or_new st cid'))
    else record_or_new st cid'.
Proof.
  unfold record_or_new. destruct (String.eqb cid cid') eqn:He.
  - apply String.eqb_eq in He as <-. by rewrite record_trigger_lookup_eq.
  - apply String.eqb_neq in He. by rewrite record_trigger_lookup_ne.
Qed.

Lemma run_triggers_cons call calls st :
  run_triggers (call :: calls) st
  = run_triggers calls
      (snd (record_trigger (fst (fst (fst call))) (snd (fst (fst call)))
              (snd (fst call)) (snd call) st)).
Proof. by destruct call as [[[now cid] query] fb]. Qed.

Lemma run_triggers_lookup_is_Some calls cid :
  forall st,
  is_Some (constraints (run_triggers calls st) !! cid)
  <-> is_Some (constraints st !! cid) \/ calls_for cid calls <> [].
Proof.
  induction calls as [|[[[now cid'] query] fb] calls IH]; intros st.
  - cbn. split; [by left|]. by intros [?|?].
  - rewrite run_triggers_cons, IH. cbn [fst snd calls_for List.filter].
    fold (calls_for cid calls).
    destruct (String.eqb cid' cid) eqn:He.
    + apply String.eqb_eq in He as ->. rewrite record_trigger_lookup_eq.
      split; [intros _; by right|]. intros _. left. eauto.
    + apply String.eqb_neq in He. by rewrite record_trigger_lookup_ne.
Qed.

(** The capped history, as the last 50 entries. *)
Lemma cap_is_last_entries (h : list Trigger) :
  (if Nat.ltb 50 (length h) then PyStr.slice h (Some (-50)) None else h)
  = last_entries 50 h.
Proof.
  destruct (Nat.ltb 50 (length h)) eqn:Hlen.
  - apply Nat.ltb_lt in Hlen.
    assert (0 < 50 <= Z.of_nat (length h)) as Hw by lia.
    exact (slice_recent h 50 Hw).
  - apply Nat.ltb_ge in Hlen. unfold last_entries.
    by replace (length h - 50)%nat with 0%nat by lia.
Qed.

Lemma last_entries_app_last {A} n (h l : list A) :
  last_entries n (last_entries n h ++ l) = last_entries n (h ++ l).
Proof.
  unfold last_entries. rewrite !length_app, length_drop.
  destruct (decide (length h <= n)%nat) as [Hle|Hgt].
  - replace (length h - n)%nat with 0%nat by lia.
    by rewrite Nat.sub_0_r, drop_0.
  - replace (length h - (length h - n) + length l - n)%nat
      with (length l) by lia.
    replace (length h + length l - n)%nat
      with ((length h - n) + length l)%nat by lia.
    rewrite <- drop_drop. f_equal. rewrite drop_app_le by lia. done.
Qed.

Lemma length_last_entries {A} n (l : list A) :
  length (last_entries n l) = Nat.min (length l) n.
Proof. unfold last_entries. rewrite length_drop. lia. Qed.

Lemma count_feedback_fields now query fb a :
  let a' := recalculated now (count_feedback now query fb a) in
  total_triggers a' = total_triggers a + 1
  /\ true_positives a'
     = true_positives a + (if String.eqb fb "true_positive" then 1 else 0)
  /\ false_positives a'
     = false_positives a + (if String.eqb fb "false_positive" then 1 else 0)
  /\ unknown a'
     = unknown a + (if String.eqb fb "true_positive" then 0
                    else if String.eqb fb "false_positive" then 0 else 1)
  /\ trigger_history a'
     = last_entries 50
         (trigger_history a
          ++ [ {| timestamp := now; query := PyStr.str_prefix 100 query;
                  result := fb |} ]).
Proof.
  unfold recalculated, set_metrics, count_feedback.
  cbn [total_triggers true_positives false_positives unknown trigger_history].
  rewrite cap_is_last_entries.
  destruct (String.eqb fb "true_positive") eqn:Htp.
  - apply String.eqb_eq in Htp as ->.
    change (String.eqb "true_positive" "false_positive") with false.
    repeat split; first [reflexivity | lia].
  - destruct (String.eqb fb "false_positive");
      repeat split; first [reflexivity | lia].
Qed.

Lemma count_label_cons label call calls :
  count_feedback_label label (call :: calls)
  = (if String.eqb (feedback_of call) label then 1 else 0)
    + count_feedback_label label calls.
Proof.
  unfold count_feedback_label. cbn [List.filter]. cbv beta.
  destruct (String.eqb (feedback_of call) label); cbn [length]; lia.
Qed.

Lemma run_triggers_counters calls cid :
  forall st,
  (length (trigger_history (record_or_new st cid)) <= 50)%nat ->
  let a0 := record_or_new st cid in
  let a := record_or_new (run_triggers calls st) cid in
  let mine := calls_for cid calls in
  total_triggers a = total_triggers a0 + Z.of_nat (length mine)
  /\ true_positives a
     = true_positives a0 + count_feedback_label "true_positive" mine
  /\ false_positives a
     = false_positives a0 + count_feedback_label "false_positive" mine
  /\ unknown a + true_positives a + false_positives a
     = unknown a0 + true_positives a0 + false_positives a0
       + Z.of_nat (length mine)
  /\ trigger_history a
     = last_entries 50 (trigger_history a0 ++ map entry_of mine).
Proof.
  induction calls as [|[[[now cid'] query] fb] calls IH]; intros st Hlen a0 a mine.
  - subst a a0 mine. unfold run_triggers, count_feedback_label.
    cbn [fold_left calls_for List.filter map length Z.of_nat].
    rewrite app_nil_r, !Z.add_0_r. repeat split.
    unfold last_entries.
    by replace (length _ - 50)%nat with 0%nat by lia.
  - subst a a0 mine. rewrite run_triggers_cons. cbn [fst snd].
    specialize (IH (snd (record_trigger now cid' query fb st))).
    rewrite record_trigger_record_or_new in IH.
    cbn [calls_for List.filter]. fold (calls_for cid calls).
    destruct (String.eqb cid' cid) eqn:He; [|by apply IH].
    destruct (count_feedback_fields now query fb (record_or_new st cid))
      as (Ft & Ftp & Ffp & Fu & Fh).
    destruct IH as (Htot & Htp & Hfp & Hsum & Hhist).
    { rewrite Fh, length_last_entries. lia. }
    rewrite Ft in Htot. rewrite Ftp in Htp, Hsum. rewrite Ffp in Hfp, Hsum.
    rewrite Fu in Hsum. rewrite Fh in Hhist.
    rewrite !count_label_cons. cbn [feedback_of snd length].
    split; [lia|]. split; [lia|]. split; [lia|]. split.
    { destruct (String.eqb fb "true_positive") eqn:Htpb.
      - apply String.eqb_eq in Htpb as ->.
        change (String.eqb "true_positive" "false_positive") with false in *. lia.
      - destruct (String.eqb fb "false_positive"); lia. }
    rewrite Hhist, last_entries_app_last, <- app_assoc. reflexivity.
Qed.

End FeedbackCounters.

(** ** Bounds on precision, variance and drift *)

Section DriftBounds.
Import ConstraintSupervisor FeedbackSpec.
Open Scope Q_scope.

Lemma fold_Qplus_acc (l : list Q) :
  forall a, fold_left Qplus l a == a + fold_left Qplus l 0.
Proof.
  induction l as [|x l IH]; intros a; cbn [fold_left].
  - ring.
  - rewrite (IH (a + x)), (IH (0 + x)). ring.
Qed.

Lemma Qsum_cons x l : Qsum (x :: l) == x + Qsum l.
Proof. unfold Qsum. cbn [fold_left]. rewrite fold_Qplus_acc. ring. Qed.

Lemma Qsum_nonneg l : (forall x, In x l -> 0 <= x) -> 0 <= Qsum l.
Proof.
  induction l as [|x l IH]; intros Hall.
  - apply Qle_refl.
  - rewrite Qsum_cons.
    assert (0 <= x) by (apply Hall; by left).
    assert (0 <= Qsum l) by (apply IH; intros y Hy; apply Hall; by right).
    lra.
Qed.

Lemma inject_nat_nonneg (n : nat) : 0 <= inject_Z (Z.of_nat n).
Proof. change 0 with (inject_Z 0). rewrite <- Zle_Qle. lia. Qed.

Lemma div_nat_nonneg x (n : nat) : 0 <= x -> 0 <= x / inject_Z (Z.of_nat n).
Proof.
  intros Hx. unfold Qdiv. apply Qmult_le_0_compat; [done|].
  apply Qinv_le_0_compat, inject_nat_nonneg.
Qed.

Lemma Qsq_nonneg (y : Q) : 0 <= y ^ 2.
Proof. change (y ^ 2) with (y * y). nra. Qed.

Lemma population_variance_nonneg xs : 0 <= population_variance xs.
Proof.
  unfold population_variance. apply div_nat_nonneg, Qsum_nonneg.
  intros y Hy. apply in_map_iff in Hy as (x & <- & _). apply Qsq_nonneg.
Qed.

Lemma window_precision_le_1 l : window_precision l <= 1.
Proof.
  unfold window_precision. destruct l as [|t l]; [by vm_compute|].
  apply Qle_shift_div_r.
  - change 0 with (inject_Z 0). rewrite <- Zlt_Qlt. cbn [length]. lia.
  - rewrite Qmult_1_l, <- Zle_Qle. apply inj_le, filter_length_le.
Qed.

Lemma py_max_0_nonneg x : 0 <= py_max 0 x.
Proof. rewrite py_max_Qmax. apply Q.le_max_l. Qed.

Lemma drift_of_history_bounds h w :
  0 <= drift_of_history h w /\ drift_of_history h w <= 1.
Proof.
  unfold drift_of_history.
  destruct (Z.of_nat (length h) <? w)%Z; [split; [apply Qle_refl|by vm_compute]|].
  rewrite py_min_Qmin. split; [|apply Q.le_min_l].
  apply Q.min_glb; [by vm_compute|].
  rewrite calculate_variance_population.
  match goal with
  | |- 0 <= py_max 0 ?x * _ + ?v * _ =>
      pose proof (py_max_0_nonneg x); pose proof (population_variance_nonneg
        (map indicator (PyStr.slice h (Some (- w)%Z) None)))
  end.
  lra.
Qed.

Lemma Qsum_indicator l :
  Qsum (map indicator l)
  == inject_Z (Z.of_nat (length (List.filter is_true_positive l))).
Proof.
  induction l as [|t l IH]; [reflexivity|].
  cbn [map List.filter]. rewrite Qsum_cons, IH. unfold indicator.
  destruct (is_true_positive t); cbn [length].
  - rewrite Nat2Z.inj_succ, <- Z.add_1_l, inject_Z_plus. reflexivity.
  - ring.
Qed.

Lemma Qsum_sq_indicator m l :
  Qsum (map (fun x => (x - m) ^ 2) (map indicator l))
  == inject_Z (Z.of_nat (length (List.filter is_true_positive l))) * (1 - m) ^ 2
     + (inject_Z (Z.of_nat (length l))
        - inject_Z (Z.of_nat (length (List.filter is_true_positive l)))) * m ^ 2.
Proof.
  induction l as [|t l IH].
  - cbn [map List.filter length]. change (Qsum []) with 0.
    change (inject_Z (Z.of_nat 0)) with 0. ring.
  - cbn [map List.filter]. rewrite Qsum_cons, IH. unfold indicator.
    destruct (is_true_positive t); cbn [length];
      rewrite !Nat2Z.inj_succ, <- !Z.add_1_l, !inject_Z_plus;
      change (inject_Z 1) with 1; ring.
Qed.

(** The variance of 0/1 indicators is [p (1 - p)] for the fraction [p] of
    ones. *)
Lemma variance_closed_form l :
  population_variance (map indicator l)
  == window_precision l * (1 - window_precision l).
Proof.
  destruct l as [|t l]; [reflexivity|].
  unfold population_variance, window_precision.
  rewrite Qsum_sq_indicator, length_map, Qsum_indicator.
  set (k := inject_Z (Z.of_nat (length (List.filter is_true_positive (t :: l))))).
  set (n := inject_Z (Z.of_nat (length (t :: l)))).
  assert (~ n == 0) as Hn.
  { subst n. change 0 with (inject_Z 0). rewrite inject_Z_injective.
    cbn [length]. lia. }
  field. done.
Qed.

Lemma variance_le_quarter l : population_variance (map indicator l) <= 1 # 4.
Proof.
  rewrite variance_closed_form.
  pose proof (window_precision_nonneg l) as H0.
  pose proof (window_precision_le_1 l) as H1.
  revert H0 H1. generalize (window_precision l). intros p H0 H1.
  apply Qle_minus_iff.
  assert ((1 # 4) + - (p * (1 - p)) == (p - (1 # 2)) ^ 2) as ->.
  { change ((p - (1 # 2)) ^ 2) with ((p - (1 # 2)) * (p - (1 # 2))). ring. }
  apply Qsq_nonneg.
Qed.

End DriftBounds.

(** ** What the analytics of a rule add up to *)

Section FeedbackTotals.
Import ConstraintSupervisor FeedbackSpec.

Lemma default_record_or_new created_at cid :
  record_or_new (_create_default_analytics created_at) cid = new_record cid.
Proof. unfold record_or_new. cbn. by rewrite lookup_empty. Qed.

Lemma default_run_fields calls created_at cid a :
  constraints (run_triggers calls (_create_default_analytics created_at)) !! cid
  = Some a ->
  let mine := calls_for cid calls in
  total_triggers a = Z.of_nat (length mine)
  /\ true_positives a = count_feedback_label "true_positive" mine
  /\ false_positives a = count_feedback_label "false_positive" mine
  /\ unknown a + true_positives a + false_positives a = Z.of_nat (length mine)
  /\ trigger_history a = last_entries 50 (map entry_of mine).
Proof.
  intros Hl mine.
  destruct (run_triggers_counters calls cid (_create_default_analytics created_at))
    as (Htot & Htp & Hfp & Hsum & Hhist).
  { rewrite default_record_or_new. cbn. lia. }
  rewrite default_record_or_new in *. unfold record_or_new in *.
  rewrite Hl in *. change (default (new_record cid) (Some a)) with a in *.
  cbn [new_record total_triggers true_positives
       false_positives unknown trigger_history] in *.
  fold mine in Htot, Htp, Hfp, Hsum, Hhist.
  repeat split; try lia. by rewrite Hhist.
Qed.

(** X10. Starting from the default analytics, a rule has a record exactly
    when some call fed it; its [total_triggers] is the number of those
    calls, [true_positives] and [false_positives] count the calls with
    that feedback, and every other feedback string is counted in
    [unknown], so that the three counters add up to [total_triggers]. *)
Theorem feedback_counters calls created_at cid :
  let st := run_triggers calls (_create_default_analytics created_at) in
  let mine := calls_for cid calls in
  (constraints st !! cid = None <-> mine = [])
  /\ forall a, constraints st !! cid = Some a ->
       total_triggers a = Z.of_nat (length mine)
       /\ true_positives a = count_feedback_label "true_positive" mine
       /\ false_positives a = count_feedback_label "false_positive" mine
       /\ unknown a
          = Z.of_nat (length mine)
            - count_feedback_label "true_positive" mine
            - count_feedback_label "false_positive" mine
       /\ total_triggers a = true_positives a + false_positives a + unknown a.
Proof.
  intros st mine. split.
  - pose proof (run_triggers_lookup_is_Some calls cid
                  (_create_default_analytics created_at)) as Hs.
    fold st in Hs. fold mine in Hs. rewrite <- not_eq_None_Some in Hs.
    cbn [_create_default_analytics constraints] in Hs.
    rewrite lookup_empty in Hs. split.
    + intros Hn. destruct mine; [done|]. exfalso. apply (proj2 Hs); [|done].
      by right.
    + intros Hm. destruct (constraints st !! cid) eqn:Hl; [|done].
      exfalso. destruct (proj1 Hs) as [[? [=]]|?]; done.
  - intros a Hl.
    destruct (default_run_fields calls created_at cid a Hl)
      as (Htot & Htp & Hfp & Hsum & _).
    fold mine in Htot, Htp, Hfp, Hsum. repeat split; lia.
Qed.

(** X11. Starting from the default analytics, the history of a rule is
    the last 50 of the calls that fed it, oldest first, each with its time
    stamp, its feedback and the first 100 characters of its query; its
    length is the smaller of 50 and [total_triggers]. *)
Theorem history_is_last_fifty calls created_at cid a :
  constraints (run_triggers calls (_create_default_analytics created_at)) !! cid
  = Some a ->
  trigger_history a = last_entries 50 (map entry_of (calls_for cid calls))
  /\ Z.of_nat (length (trigger_history a)) = Z.min (total_triggers a) 50
  /\ forall t, t ∈ trigger_history a -> (String.length (query t) <= 100)%nat.
Proof.
  intros Hl.
  destruct (default_run_fields calls created_at cid a Hl)
    as (Htot & _ & _ & _ & Hhist).
  split; [done|]. split.
  - rewrite Hhist, length_last_entries, length_map, Htot. lia.
  - intros t Ht. rewrite Hhist in Ht. unfold last_entries in Ht.
    apply subseteq_drop, list_elem_of_In, in_map_iff in Ht
      as ([[[now cid'] q] fb] & <- & _).
    cbn [entry_of query]. unfold PyStr.str_prefix.
    clear. generalize 100%nat. induction q as [|c q IH]; intros [|n]; cbn;
      try lia. specialize (IH n). lia.
Qed.

End FeedbackTotals.

(** ** Bounds of the derived metrics *)

Section MetricBounds.
Import ConstraintSupervisor FeedbackSpec.
Open Scope Q_scope.

Lemma ratio_bounds (tp fp : Z) :
  (0 <= tp)%Z -> (0 <= fp)%Z ->
  let p := if (0 <? tp + fp)%Z then inject_Z tp / inject_Z (tp + fp) else 0 in
  0 <= p /\ p <= 1.
Proof.
  intros Htp Hfp p. subst p. destruct (0 <? tp + fp)%Z eqn:Hpos.
  - apply Z.ltb_lt in Hpos.
    assert (0 < inject_Z (tp + fp)) as Hq.
    { change 0 with (inject_Z 0). rewrite <- Zlt_Qlt. lia. }
    split.
    + apply Qle_shift_div_l; [done|]. rewrite Qmult_0_l.
      change 0 with (inject_Z 0). rewrite <- Zle_Qle. lia.
    + apply Qle_shift_div_r; [done|]. rewrite Qmult_1_l.
      rewrite <- Zle_Qle. lia.
  - split; by vm_compute.
Qed.

Lemma trigger_rate_bounds (total : Z) :
  (0 <= total)%Z ->
  0 <= py_min (inject_Z total / 100) 1 /\ py_min (inject_Z total / 100) 1 <= 1.
Proof.
  intros Ht. rewrite py_min_Qmin. split; [|apply Q.le_min_l].
  apply Q.min_glb; [by vm_compute|].
  apply Qle_shift_div_l; [by vm_compute|]. rewrite Qmult_0_l.
  change 0 with (inject_Z 0). rewrite <- Zle_Qle. lia.
Qed.

(** X12. The drift score is between 0 and 1 for every store, rule and
    window; and in a store built from the default analytics by
    [record_trigger] calls, the stored precision, effectiveness and drift
    of every rule are between 0 and 1, the effectiveness never above the
    precision. *)
Theorem metrics_within_bounds calls created_at cid a :
  constraints (run_triggers calls (_create_default_analytics created_at)) !! cid
  = Some a ->
  (0 <= precision a /\ precision a <= 1)
  /\ (0 <= effectiveness_score a /\ effectiveness_score a <= precision a)
  /\ (0 <= drift_score a /\ drift_score a <= 1)
  /\ forall st cid' window_size,
       0 <= detect_drift st cid' window_size
       /\ detect_drift st cid' window_size <= 1.
Proof.
  intros Hl.
  destruct (default_run_metrics_ok calls created_at cid a Hl)
    as (Htp & Hfp & Hp & He & Hd).
  destruct (ratio_bounds _ _ Htp Hfp) as [Hp0 Hp1]. cbv zeta in Hp0, Hp1.
  rewrite <- Hp in Hp0, Hp1.
  destruct (trigger_rate_bounds (true_positives a + false_positives a))
    as [Hr0 Hr1]; [lia|].
  split; [done|]. split.
  { rewrite He. split; [by apply Qmult_le_0_compat|].
    revert Hp0 Hr1. generalize (precision a).
    generalize (py_min (inject_Z (true_positives a + false_positives a) / 100) 1).
    intros r p Hp0 Hr1. nra. }
  split; [rewrite Hd; apply drift_of_history_bounds|].
  intros st cid' w. unfold detect_drift.
  destruct (constraints st !! cid'); [apply drift_of_history_bounds|].
  split; by vm_compute.
Qed.

End MetricBounds.

(** ** Rules with a short history *)

Section YoungRules.
Context `{FloatRounding}.
Import ConstraintSupervisor FeedbackSpec.
Open Scope Q_scope.

Lemma drift_of_history_single_window h w :
  (0 < w)%Z -> (w <= Z.of_nat (length h) < 2 * w)%Z ->
  let r := window_precision (last_entries (Z.to_nat w) h) in
  drift_of_history h w == (3 # 10) * (r * (1 - r))
  /\ drift_of_history h w <= 3 # 40.
Proof.
  intros Hw [Hlo Hhi] r.
  assert (drift_of_history h w == (3 # 10) * (r * (1 - r))) as Heq.
  { unfold drift_of_history.
    assert ((Z.of_nat (length h) <? w)%Z = false) as -> by (apply Z.ltb_ge; lia).
    assert ((2 * w <=? Z.of_nat (length h))%Z = false) as ->
      by (apply Z.leb_gt; lia).
    cbv zeta. rewrite slice_recent by lia.
    rewrite calculate_precision_window, calculate_variance_population.
    fold r.
    pose proof (variance_closed_form (last_entries (Z.to_nat w) h)) as Hv.
    fold r in Hv.
    pose proof (variance_le_quarter (last_entries (Z.to_nat w) h)) as Hq.
    revert Hv Hq.
    generalize (population_variance (map indicator (last_entries (Z.to_nat w) h))).
    intros v Hv Hq.
    assert (py_max 0 (r - r) = 0) as ->.
    { unfold py_max. destruct (Qltb 0 (r - r)) eqn:Hlt; [|done].
      apply Qltb_lt in Hlt. exfalso. lra. }
    unfold py_min.
    destruct (Qltb 1 (0 * (7 # 10) + v * (3 # 10))) eqn:Hlt.
    { apply Qltb_lt in Hlt. exfalso. lra. }
    rewrite Hv. ring. }
  split; [done|]. rewrite Heq.
  pose proof (variance_closed_form (last_entries (Z.to_nat w) h)) as Hv.
  pose proof (variance_le_quarter (last_entries (Z.to_nat w) h)) as Hq.
  fold r in Hv. rewrite Hv in Hq. lra.
Qed.

Lemma drift_of_history_short h w :
  (0 < w)%Z -> (Z.of_nat (length h) < 2 * w)%Z ->
  0 <= drift_of_history h w /\ drift_of_history h w <= 3 # 40.
Proof.
  intros Hw Hhi. split; [apply drift_of_history_bounds|].
  destruct (decide (Z.of_nat (length h) < w)%Z) as [Hlt|Hge].
  - unfold drift_of_history.
    assert ((Z.of_nat (length h) <? w)%Z = true) as -> by (apply Z.ltb_lt; lia).
    by vm_compute.
  - apply drift_of_history_single_window; lia.
Qed.

(** X13. While the history of a rule holds at least one window but fewer
    than two, there is no older window to compare with: the drift is 0.3
    times the variance [r (1 - r)] of the recent window, where [r] is the
    share of true positives among the last [window_size] entries, and so
    never exceeds 0.075. *)
Theorem single_window_drift st cid a window_size :
  constraints st !! cid = Some a ->
  (0 < window_size)%Z ->
  (window_size <= Z.of_nat (length (trigger_history a)) < 2 * window_size)%Z ->
  let r := window_precision
             (last_entries (Z.to_nat window_size) (trigger_history a)) in
  detect_drift st cid window_size == (3 # 10) * (r * (1 - r))
  /\ detect_drift st cid window_size <= 3 # 40.
Proof.
  intros Hl Hw Hlen. rewrite (detect_drift_lookup _ _ _ _ Hl).
  by apply drift_of_history_single_window.
Qed.

(** X14. A rule that has been fed fewer than 20 times since the default
    analytics is judged on its precision alone: it is [no_triggers] without
    any true or false positive, else [healthy] from 0.9, [acceptable] from
    0.75 and [needs_review] below; it is never [unhealthy], however low
    the precision. *)
Theorem young_rule_status calls created_at cid a :
  constraints (run_triggers calls (_create_default_analytics created_at)) !! cid
  = Some a ->
  (total_triggers a < 20)%Z ->
  let st := run_triggers calls (_create_default_analytics created_at) in
  let tp := true_positives a in
  let fp := false_positives a in
  status (analyze_constraint_health st cid)
  = (if (tp + fp =? 0)%Z then "no_triggers"
     else if Qle_bool (90 # 100) (inject_Z tp / inject_Z (tp + fp)) then "healthy"
     else if Qle_bool (75 # 100) (inject_Z tp / inject_Z (tp + fp))
     then "acceptable"
     else "needs_review")
  /\ status (analyze_constraint_health st cid) <> "unhealthy".
Proof.
  intros Hl Hyoung st tp fp.
  destruct (default_run_metrics_ok calls created_at cid a Hl)
    as (Htp & Hfp & _ & _ & Hd).
  destruct (default_run_fields calls created_at cid a Hl)
    as (Htot & _ & _ & _ & Hhist).
  assert (Z.of_nat (length (trigger_history a)) < 2 * 10)%Z as Hlen.
  { rewrite Hhist, length_last_entries, length_map. lia. }
  destruct (drift_of_history_short (trigger_history a) 10) as [_ Hdrift];
    [lia|done|]. rewrite <- Hd in Hdrift.
  assert (status (analyze_constraint_health st cid)
          = (if (tp + fp =? 0)%Z then "no_triggers"
             else if Qle_bool (90 # 100) (inject_Z tp / inject_Z (tp + fp))
             then "healthy"
             else if Qle_bool (75 # 100) (inject_Z tp / inject_Z (tp + fp))
             then "acceptable"
             else "needs_review")) as Hs.
  { subst st. unfold analyze_constraint_health. rewrite Hl. fold tp fp.
    destruct (tp + fp =? 0)%Z eqn:Hz; [done|].
    apply Z.eqb_neq in Hz.
    assert ((0 <? tp + fp)%Z = true) as -> by (apply Z.ltb_lt; subst tp fp; lia).
    cbn [status]. unfold health_status.
    assert (Qltb (drift_score a) (2 # 10) = true) as ->
      by (apply Qltb_lt; lra).
    assert (Qltb (drift_score a) (5 # 10) = true) as ->
      by (apply Qltb_lt; lra).
    assert (Qltb (drift_score a) (7 # 10) = true) as ->
      by (apply Qltb_lt; lra).
    rewrite !andb_true_r, orb_true_r. done. }
  split; [done|]. rewrite Hs.
  destruct (tp + fp =? 0)%Z; [done|].
  destruct (Qle_bool (90 # 100) _); [done|].
  destruct (Qle_bool (75 # 100) _); done.
Qed.

End YoungRules.

(** ** Recommendations and suggestions *)

Section Advice.
Import ConstraintSupervisor FeedbackSpec.
Context `{RegexEngine}.
Variable format_2f : Q -> string.

(** X15. The recommendations are never empty and at most four; the
    all-clear message is the whole answer exactly when the precision is at
    least 0.7, the false-positive rate at most 0.3 and the drift at most
    0.5, and is never mixed with a warning; the critical drift message
    only comes together with the high drift message. *)
Theorem health_recommendations_spec (precision fp_rate drift_score : Q) :
  let recs := _generate_health_recommendations precision fp_rate drift_score in
  let all_clear := "Constraint is performing well - no action needed" in
  recs <> []
  /\ (length recs <= 4)%nat
  /\ (recs = [all_clear]
      <-> (70 # 100 <= precision)%Q /\ (fp_rate <= 30 # 100)%Q
          /\ (drift_score <= 50 # 100)%Q)
  /\ (all_clear ∈ recs -> recs = [all_clear])
  /\ ("CRITICAL: Very high drift - Consider disabling or rewriting this constraint"
        ∈ recs
      -> "High drift detected - Constraint effectiveness is declining over time"
           ∈ recs).
Proof.
  intros recs all_clear. subst recs all_clear.
  unfold _generate_health_recommendations.
  destruct (Qltb precision (70 # 100)) eqn:Hp;
    destruct (Qltb (30 # 100) fp_rate) eqn:Hf;
    destruct (Qltb (50 # 100) drift_score) eqn:Hd;
    destruct (Qltb (70 # 100) drift_score) eqn:Hc;
    cbn [app length];
    repeat match goal with
           | Hb : Qltb _ _ = true |- _ => apply Qltb_lt in Hb
           | Hb : Qltb _ _ = false |- _ => apply Qltb_ge in Hb
           end;
    (split; [done|]); (split; [lia|]);
    (split;
     [first [ split; [intros [=]|intros (? & ? & ?); exfalso; lra]
            | split; [intros _; repeat split; lra|done] ] |]);
    (split; [intros Hin; repeat (apply elem_of_cons in Hin as [[=]|Hin]);
             first [by apply elem_of_nil in Hin | done] |]);
    intros Hin; repeat (apply elem_of_cons in Hin as [[=]|Hin]);
    first [by apply elem_of_nil in Hin
          | exfalso; lra
          | not_in_list
          | (repeat first [by left | right]) ].
Qed.

(** X16. A rule that is in the rule store and whose triggers, recorded
    since the default analytics, were never rated as true or false
    positive has stored precision 0: the one suggestion made for it is to
    disable it. *)
Theorem unrated_rule_suggestion calls created_at manager cid a c :
  constraints (run_triggers calls (_create_default_analytics created_at)) !! cid
  = Some a ->
  ConstraintManager.get_constraint manager cid = Some c ->
  true_positives a = 0 -> false_positives a = 0 ->
  suggest_improvements format_2f
    (run_triggers calls (_create_default_analytics created_at)) manager cid
  = [ {| type := "disable_constraint";
         reason := ("Very low precision (" ++ format_2f 0%Q ++ ")")%string;
         suggestion := "Consider disabling this constraint and reviewing patterns";
         confidence := 90 # 100 |} ].
Proof.
  intros Hl Hg Htp Hfp.
  destruct (default_run_metrics_ok calls created_at cid a Hl)
    as (_ & _ & Hp & _ & _).
  rewrite Htp, Hfp in Hp. cbn in Hp.
  unfold suggest_improvements. rewrite Hl, Hg.
  assert (suggestion_fp_rate a == 0)%Q as Hrate.
  { unfold suggestion_fp_rate. rewrite Hfp. unfold Qdiv. apply Qmult_0_l. }
  assert (Qltb (20 # 100) (suggestion_fp_rate a) = false) as ->.
  { apply Qltb_ge. rewrite Hrate. by vm_compute. }
  assert (Qltb (15 # 100) (suggestion_fp_rate a) = false) as ->.
  { apply Qltb_ge. rewrite Hrate. by vm_compute. }
  rewrite Hp. reflexivity.
Qed.

(** X17. For a rule with an analytics record that is found in the rule
    store, an [add_context_filter] suggestion is made exactly when
    [false_positives / max(total_triggers, 1)] exceeds 0.15 and the rule
    has no context filters, and an [increase_enforcement] suggestion
    exactly when the stored precision exceeds 0.95 and the action is
    [warn]; escalating and disabling are never suggested together, and no
    other type of suggestion than the four is made. *)
Theorem suggestion_conditions_escalation (st : Store)
  (manager : ConstraintManager.Manager) (cid : string) (analytics : Analytics)
  (constraint : ConstraintManager.Constraint) :
  constraints st !! cid = Some analytics ->
  ConstraintManager.get_constraint manager cid = Some constraint ->
  let out := suggest_improvements format_2f st manager cid in
  ((exists s, s ∈ out /\ type s = "add_context_filter")
   <-> (15 # 100 < suggestion_fp_rate analytics)%Q
       /\ ConstraintManager.context_filters constraint = ∅)
  /\ ((exists s, s ∈ out /\ type s = "increase_enforcement")
      <-> (95 # 100 < precision analytics)%Q
          /\ ConstraintManager.enforcement_action constraint = "warn")
  /\ ~ ((exists s, s ∈ out /\ type s = "increase_enforcement")
        /\ (exists s, s ∈ out /\ type s = "disable_constraint"))
  /\ (forall s, s ∈ out ->
        type s ∈ ["narrow_pattern"; "add_context_filter";
                  "increase_enforcement"; "disable_constraint"]).
Proof.
  intros Hl Hg out. subst out. unfold suggest_improvements. rewrite Hl, Hg.
  set (narrow := if Qltb (20 # 100)%Q (suggestion_fp_rate analytics)
                 then map _ _ else []).
  set (ctx := if Qltb (15 # 100)%Q (suggestion_fp_rate analytics) && _
              then [_] else []).
  set (incr := if Qltb (95 # 100)%Q (precision analytics) && _ then [_] else []).
  set (dis := if Qltb (precision analytics) (50 # 100)%Q then [_] else []).
  assert (forall s, s ∈ narrow -> type s = "narrow_pattern") as Hnarrow.
  { intros s Hs. subst narrow.
    destruct (Qltb (20 # 100)%Q (suggestion_fp_rate analytics));
      [|by apply elem_of_nil in Hs].
    by apply elem_of_map_iff in Hs as (p & -> & _). }
  assert (forall s, s ∈ ctx -> type s = "add_context_filter"
                    /\ (15 # 100 < suggestion_fp_rate analytics)%Q
                    /\ ConstraintManager.context_filters constraint = ∅) as Hctx.
  { intros s Hs. subst ctx. apply elem_of_if_singleton in Hs as [-> Hb].
    apply andb_true_iff in Hb as [Hq He]. apply bool_decide_eq_true in He.
    repeat split; [by apply Qltb_lt|done]. }
  assert (forall s, s ∈ incr -> type s = "increase_enforcement"
                    /\ (95 # 100 < precision analytics)%Q
                    /\ ConstraintManager.enforcement_action constraint = "warn")
    as Hincr.
  { intros s Hs. subst incr. apply elem_of_if_singleton in Hs as [-> Hb].
    apply andb_true_iff in Hb as [Hq He]. apply String.eqb_eq in He.
    repeat split; [by apply Qltb_lt|done]. }
  assert (forall s, s ∈ dis -> type s = "disable_constraint"
                    /\ (precision analytics < 50 # 100)%Q) as Hdis.
  { intros s Hs. subst dis. apply elem_of_if_singleton in Hs as [-> Hq].
    split; [done|]. by apply Qltb_lt. }
  assert (forall s, s ∈ narrow ++ ctx ++ incr ++ dis ->
                    s ∈ narrow \/ s ∈ ctx \/ s ∈ incr \/ s ∈ dis) as Hsplit.
  { intros s. rewrite !elem_of_app. tauto. }
  assert ((exists s, s ∈ narrow ++ ctx ++ incr ++ dis
                     /\ type s = "increase_enforcement")
          -> (95 # 100 < precision analytics)%Q
             /\ ConstraintManager.enforcement_action constraint = "warn") as Hup.
  { intros (s & Hs & Hty). apply Hsplit in Hs as [Hs|[Hs|[Hs|Hs]]].
    - apply Hnarrow in Hs. congruence.
    - apply Hctx in Hs as [Hs _]. congruence.
    - by destruct (Hincr s Hs) as (_ & ? & ?).
    - apply Hdis in Hs as [Hs _]. congruence. }
  split; [|split; [|split]].
  - split.
    + intros (s & Hs & Hty). apply Hsplit in Hs as [Hs|[Hs|[Hs|Hs]]].
      * apply Hnarrow in Hs. congruence.
      * by destruct (Hctx s Hs) as (_ & ? & ?).
      * apply Hincr in Hs as [Hs _]. congruence.
      * apply Hdis in Hs as [Hs _]. congruence.
    + intros [Hq He]. eexists. split.
      * rewrite !elem_of_app. right. left. subst ctx.
        rewrite (proj2 (Qltb_lt _ _) Hq), bool_decide_eq_true_2 by done.
        apply list_elem_of_here.
      * reflexivity.
  - split; [exact Hup|].
    intros [Hq He]. eexists. split.
    + rewrite !elem_of_app. right. right. left. subst incr.
      rewrite (proj2 (Qltb_lt _ _) Hq), (proj2 (String.eqb_eq _ _) He).
      apply list_elem_of_here.
    + reflexivity.
  - intros [Hi (s & Hs & Hty)]. apply Hup in Hi as [Hhigh _].
    apply Hsplit in Hs as [Hs|[Hs|[Hs|Hs]]].
    + apply Hnarrow in Hs. congruence.
    + apply Hctx in Hs as [Hs _]. congruence.
    + apply Hincr in Hs as [Hs _]. congruence.
    + apply Hdis in Hs as [_ Hlow].
      apply (Qlt_irrefl (95 # 100)).
      apply Qlt_trans with (precision analytics); [done|].
      apply Qlt_trans with (50 # 100)%Q; [done|]. by vm_compute.
  - intros s Hs. apply Hsplit in Hs as [Hs|[Hs|[Hs|Hs]]].
    + apply Hnarrow in Hs as ->. apply list_elem_of_here.
    + apply Hctx in Hs as [-> _]. apply list_elem_of_further, list_elem_of_here.
    + apply Hincr in Hs as [-> _]. do 2 apply list_elem_of_further.
      apply list_elem_of_here.
    + apply Hdis in Hs as [-> _]. do 3 apply list_elem_of_further.
      apply list_elem_of_here.
Qed.

End Advice.

(** ** Suggested new rules *)

Section KeywordFrequency.
Import NewConstraints.

Lemma freq_get_bump word k keyword_freq :
  freq_get k (bump word keyword_freq)
  = if String.eqb k word
    then Some (default 0 (freq_get word keyword_freq) + 1)
    else freq_get k keyword_freq.
Proof.
  unfold freq_get.
  induction keyword_freq as [|[k' v] rest IH]; cbn [bump find fst].
  - rewrite (String.eqb_sym word k). by destruct (String.eqb k word).
  - destruct (String.eqb k' word) eqn:Hk'; cbn [find fst]; rewrite ?Hk'.
    + apply String.eqb_eq in Hk' as ->.
      rewrite (String.eqb_sym word k).
      by destruct (String.eqb k word).
    + destruct (String.eqb k' k) eqn:Hkk.
      * apply String.eqb_eq in Hkk as ->. by rewrite Hk'.
      * apply IH.
Qed.

Lemma keys_bump word keyword_freq :
  map fst (bump word keyword_freq)
  = if bool_decide (word ∈ map fst keyword_freq) then map fst keyword_freq
    else map fst keyword_freq ++ [word].
Proof.
  induction keyword_freq as [|[k v] rest IH]; [done|].
  cbn [bump map fst]. destruct (String.eqb k word) eqn:Hk.
  - apply String.eqb_eq in Hk as ->.
    rewrite bool_decide_eq_true_2 by apply list_elem_of_here. done.
  - apply String.eqb_neq in Hk. cbn [map fst]. rewrite IH.
    destruct (bool_decide (word ∈ map fst rest)) eqn:Hin.
    + apply bool_decide_eq_true in Hin.
      rewrite bool_decide_eq_true_2; [done|by apply list_elem_of_further].
    + apply bool_decide_eq_false in Hin.
      rewrite bool_decide_eq_false_2; [done|].
      intros [?|?]%elem_of_cons; congruence.
Qed.

Lemma NoDup_keys_bump word keyword_freq :
  NoDup (map fst keyword_freq) -> NoDup (map fst (bump word keyword_freq)).
Proof.
  intros Hnd. rewrite keys_bump. case_bool_decide as Hin; [done|].
  apply NoDup_app. split; [done|]. split; [|apply NoDup_singleton].
  intros x Hx ->%list_elem_of_singleton. done.
Qed.

Lemma counts_nil : counts [] [].
Proof. split; [constructor|done]. Qed.

Lemma counts_bump ws word keyword_freq :
  counts ws keyword_freq -> counts (ws ++ [word]) (bump word keyword_freq).
Proof.
  intros [Hnd Hget]. split; [by apply NoDup_keys_bump|].
  intros k. rewrite freq_get_bump, count_occ_app. cbn [count_occ].
  destruct (String.eqb k word) eqn:Hk.
  - apply String.eqb_eq in Hk as ->. rewrite Hget.
    destruct (string_dec word word) as [_|?]; [|done].
    destruct (count_occ string_dec ws word) as [|n]; cbn [Nat.eqb].
    + done.
    + replace (S n + 1)%nat with (S (S n)) by lia. cbn [Nat.eqb].
      unfold default. cbn [from_option id]. f_equal. lia.
  - apply String.eqb_neq in Hk.
    destruct (string_dec word k) as [?|_]; [congruence|].
    by rewrite Nat.add_0_r.
Qed.

Lemma counts_words ws :
  forall seen keyword_freq,
  counts seen keyword_freq ->
  counts (seen ++ List.filter (fun word => Nat.leb 3 (String.length word)) ws)
    (fold_left count_word ws keyword_freq).
Proof.
  induction ws as [|w ws IH]; intros seen freq Hc; cbn [fold_left List.filter].
  - by rewrite app_nil_r.
  - unfold count_word at 2. destruct (Nat.leb 3 (String.length w)).
    + change (seen ++ w :: ?l) with (seen ++ [w] ++ l).
      rewrite (assoc_L (++) seen [w]). apply IH. by apply counts_bump.
    + by apply IH.
Qed.

Lemma counts_history query_history :
  forall seen keyword_freq,
  counts seen keyword_freq ->
  counts (seen ++ counted_words query_history)
    (fold_left (fun keyword_freq query =>
                  fold_left count_word (ConstraintManager.query_words query)
                    keyword_freq)
       query_history keyword_freq).
Proof.
  unfold counted_words.
  induction query_history as [|q qs IH]; intros seen freq Hc;
    cbn [fold_left map concat List.filter].
  - by rewrite app_nil_r.
  - rewrite List.filter_app, (assoc_L (++)). apply IH. by apply counts_words.
Qed.

Lemma analyze_keyword_frequency_counts query_history :
  counts (counted_words query_history) (_analyze_keyword_frequency query_history).
Proof. apply (counts_history query_history [] []), counts_nil. Qed.

Lemma freq_get_elem_of k v keyword_freq :
  NoDup (map fst keyword_freq) ->
  (k, v) ∈ keyword_freq <-> freq_get k keyword_freq = Some v.
Proof.
  unfold freq_get. induction keyword_freq as [|[k' v'] rest IH]; intros Hnd.
  - cbn. split; [by intros ?%elem_of_nil|done].
  - cbn [map fst] in Hnd. apply NoDup_cons in Hnd as [Hnotin Hnd].
    cbn [find fst]. destruct (String.eqb k' k) eqn:Hk.
    + apply String.eqb_eq in Hk as ->. cbn [option_map snd]. split.
      * intros [[= ->]|Hin]%elem_of_cons; [done|].
        exfalso. apply Hnotin. apply list_elem_of_fmap. by exists (k, v).
      * intros [= ->]. apply list_elem_of_here.
    + apply String.eqb_neq in Hk. rewrite <- IH by done. split.
      * intros [[= -> ->]|Hin]%elem_of_cons; [done|done].
      * apply list_elem_of_further.
Qed.

End KeywordFrequency.

Section NewConstraintSuggestions.
Import NewConstraints.
Context `{RegexEngine}.

Lemma NoDup_keys_filter {A B} (f : A * B -> bool) (l : list (A * B)) :
  NoDup (map fst l) -> NoDup (map fst (List.filter f l)).
Proof.
  induction l as [|x l IH]; [done|]. cbn [map List.filter].
  intros [Hnotin Hnd]%NoDup_cons. destruct (f x); [|by apply IH].
  cbn [map]. apply NoDup_cons. split; [|by apply IH].
  intros Hin. apply Hnotin.
  apply list_elem_of_fmap in Hin as (y & Hy & Hin).
  apply elem_of_filter_bool in Hin as [Hin _].
  apply list_elem_of_fmap. by exists y.
Qed.

Lemma existing_keywords_spec (manager : ConstraintManager.Manager) word :
  word ∈ existing_keywords manager
  <-> exists c, c ∈ ConstraintManager.constraints manager
                /\ word ∈ ConstraintManager.trigger_keywords c.
Proof.
  unfold existing_keywords, ManagerOps.list_constraints.
  assert (forall cs (acc : gset string),
            word ∈ fold_left (fun acc c =>
                                acc ∪ list_to_set
                                        (ConstraintManager.trigger_keywords c))
                     cs acc
            <-> word ∈ acc
                \/ exists c, c ∈ cs
                             /\ word ∈ ConstraintManager.trigger_keywords c)
    as Hfold.
  { induction cs as [|c cs IH]; intros acc; cbn [fold_left].
    - split; [by left|]. intros [?|(c & Hc & _)]; [done|].
      by apply elem_of_nil in Hc.
    - rewrite IH, elem_of_union, elem_of_list_to_set. split.
      + intros [[?|?]|(c' & Hc' & Hw)]; [by left| |].
        * right. exists c. split; [apply list_elem_of_here|done].
        * right. exists c'. split; [by apply list_elem_of_further|done].
      + intros [?|(c' & Hc' & Hw)]; [by left; left|].
        apply elem_of_cons in Hc' as [->|Hc']; [by left; right|].
        right. by exists c'. }
  rewrite Hfold. split; [|by right].
  intros [Hin|?]; [|done]. by apply elem_of_empty in Hin.
Qed.

Lemma confidence_bounds (freq : Z) :
  3 <= freq ->
  (ConstraintSupervisor.py_min (inject_Z freq / 10) (95 # 100)
   == Qmin (95 # 100) (inject_Z freq / 10))%Q
  /\ (3 # 10 <= ConstraintSupervisor.py_min (inject_Z freq / 10) (95 # 100))%Q
  /\ (ConstraintSupervisor.py_min (inject_Z freq / 10) (95 # 100) <= 95 # 100)%Q.
Proof.
  intros Hf. split; [apply py_min_Qmin|]. rewrite py_min_Qmin.
  split; [|apply Q.le_min_l].
  apply Q.min_glb; [by vm_compute|].
  apply Qle_shift_div_l; [by vm_compute|].
  apply Qle_trans with (inject_Z 3); [by vm_compute|].
  rewrite <- Zle_Qle. lia.
Qed.

(** X18. [suggest_new_constraints] proposes no word twice: a word is
    proposed exactly when it occurs at least three times among the words
    of three or more characters of the queries and is a trigger keyword of
    no stored rule.  The suggestion
    carries the number of occurrences as its frequency, a confidence of a
    tenth of it capped at 0.95, hence between 0.3 and 0.95, and the action
    [warn]. *)
Theorem suggest_new_constraints_spec (manager : ConstraintManager.Manager)
  (query_history : list string) :
  let out := suggest_new_constraints manager query_history in
  NoDup (map pattern out)
  /\ (forall word,
        (exists s, s ∈ out /\ pattern s = word)
        <-> 3 <= occurrences query_history word
            /\ ~ exists c, c ∈ ConstraintManager.constraints manager
                           /\ word ∈ ConstraintManager.trigger_keywords c)
  /\ forall s, s ∈ out ->
       type s = "new_constraint"
       /\ frequency s = occurrences query_history (pattern s)
       /\ (3 <= String.length (pattern s))%nat
       /\ (confidence s == Qmin (95 # 100) (inject_Z (frequency s) / 10))%Q
       /\ (3 # 10 <= confidence s)%Q /\ (confidence s <= 95 # 100)%Q
       /\ enforcement_action s = "warn".
Proof.
  intros out. subst out. unfold suggest_new_constraints. cbv zeta.
  destruct (analyze_keyword_frequency_counts query_history) as [Hnd Hget].
  set (freq := _analyze_keyword_frequency query_history) in *.
  set (mk := fun '(pattern, freq) => mkNewConstraint _ pattern freq _ _ _).
  set (kept := List.filter _ (_find_uncovered_patterns manager freq)).
  assert (forall k v,
            (k, v) ∈ kept
            <-> v = occurrences query_history k /\ 3 <= v
                /\ ~ exists c, c ∈ ConstraintManager.constraints manager
                               /\ k ∈ ConstraintManager.trigger_keywords c)
    as Hkept.
  { intros k v. subst kept. unfold _find_uncovered_patterns.
    rewrite !elem_of_filter_bool, negb_true_iff, bool_decide_eq_false,
      existing_keywords_spec, Z.leb_le, (freq_get_elem_of k v freq Hnd), Hget.
    unfold occurrences.
    destruct (count_occ string_dec (counted_words query_history) k) as [|n];
      cbn [Nat.eqb].
    - split; [by intros [[[=] _] _]|]. intros (-> & Hv & _). cbn in Hv. lia.
    - split.
      + intros [[[= <-] Hc] Hv]. done.
      + intros (-> & Hv & Hc). done. }
  assert (map pattern (map mk kept) = map fst kept) as Hpat.
  { rewrite map_map. apply map_ext. by intros [k v]. }
  split; [|split].
  - rewrite Hpat. subst kept. unfold _find_uncovered_patterns.
    by do 2 apply NoDup_keys_filter.
  - intros word. split.
    + intros (s & Hs & <-). apply elem_of_map_iff in Hs as ([k v] & -> & Hkv).
      apply Hkept in Hkv as (-> & Hv & Hc). done.
    + intros [Hocc Hc]. exists (mk (word, occurrences query_history word)).
      split; [|done]. apply elem_of_map_iff. eexists. split; [done|].
      by apply Hkept.
  - intros s Hs. apply elem_of_map_iff in Hs as ([k v] & -> & Hkv).
    apply Hkept in Hkv as (-> & Hv & Hc). cbn [mk type frequency pattern
      confidence enforcement_action].
    destruct (confidence_bounds _ Hv) as (Hq & Hlo & Hhi).
    repeat split; try done.
    unfold occurrences in Hv.
    assert (k ∈ counted_words query_history) as Hin.
    { apply list_elem_of_In, (count_occ_In string_dec). lia. }
    unfold counted_words in Hin. apply elem_of_filter_bool in Hin as [_ Hlen].
    by apply Nat.leb_le in Hlen.
Qed.

End NewConstraintSuggestions.

(** ** The dashboard *)

Section DashboardCounts.
Context `{FloatRounding}.
Import ConstraintSupervisor Dashboard.

Lemma health_status_cases (precision drift_score : Q) :
  health_status precision drift_score
    ∈ ["healthy"; "acceptable"; "needs_review"; "unhealthy"].
Proof.
  unfold health_status.
  destruct (_ && _); [apply list_elem_of_here|].
  destruct (_ && _); [apply list_elem_of_further, list_elem_of_here|].
  destruct (_ || _).
  - do 2 apply list_elem_of_further. apply list_elem_of_here.
  - do 3 apply list_elem_of_further. apply list_elem_of_here.
Qed.

Lemma status_of_rated st cid :
  if rated st cid
  then status_of st cid ∈ ["healthy"; "acceptable"; "needs_review"; "unhealthy"]
  else status_of st cid ∈ ["no_data"; "no_triggers"].
Proof.
  unfold rated, status_of, analyze_constraint_health.
  destruct (constraints st !! cid) as [a|]; [|apply list_elem_of_here].
  destruct (true_positives a + false_positives a =? 0); cbn [negb status].
  - apply list_elem_of_further, list_elem_of_here.
  - apply health_status_cases.
Qed.

Lemma tally_step_spec st t cid :
  let health := analyze_constraint_health st cid in
  healthy (tally_step st t cid)
  = healthy t ++ (if listed_healthy st cid then [health] else [])
  /\ needs_review (tally_step st t cid)
     = needs_review t
       ++ (if String.eqb (status_of st cid) "needs_review" then [health] else [])
  /\ unhealthy (tally_step st t cid)
     = unhealthy t
       ++ (if String.eqb (status_of st cid) "unhealthy" then [health] else [])
  /\ count (tally_step st t cid) = count t + (if rated st cid then 1 else 0).
Proof.
  intros health. subst health. pose proof (status_of_rated st cid) as Hr.
  unfold tally_step, listed_healthy.
  change (status (analyze_constraint_health st cid)) with (status_of st cid).
  revert Hr. generalize (status_of st cid). intros s Hr.
  destruct (rated st cid).
  - repeat (apply elem_of_cons in Hr as [->|Hr]);
      [..|by apply elem_of_nil in Hr];
      cbn; rewrite ?app_nil_r; done.
  - repeat (apply elem_of_cons in Hr as [->|Hr]);
      [..|by apply elem_of_nil in Hr];
      cbn; rewrite ?app_nil_r, ?Z.add_0_r; done.
Qed.

Lemma tally_fold_spec st keys :
  forall t,
  let t' := fold_left (tally_step st) keys t in
  healthy t'
  = healthy t
    ++ map (analyze_constraint_health st) (List.filter (listed_healthy st) keys)
  /\ needs_review t'
     = needs_review t
       ++ map (analyze_constraint_health st)
            (List.filter (fun cid => String.eqb (status_of st cid) "needs_review")
               keys)
  /\ unhealthy t'
     = unhealthy t
       ++ map (analyze_constraint_health st)
            (List.filter (fun cid => String.eqb (status_of st cid) "unhealthy")
               keys)
  /\ count t' = count t + Z.of_nat (length (List.filter (rated st) keys)).
Proof.
  induction keys as [|cid keys IH]; intros t; cbn [fold_left List.filter].
  - cbn. rewrite !app_nil_r, Z.add_0_r. done.
  - destruct (IH (tally_step st t cid)) as (Hh & Hn & Hu & Hc).
    destruct (tally_step_spec st t cid) as (Sh & Sn & Su & Sc).
    cbv zeta in *. rewrite Hh, Hn, Hu, Hc, Sh, Sn, Su, Sc.
    rewrite <- !(assoc_L (++)).
    repeat split.
    + by destruct (listed_healthy st cid).
    + by destruct (String.eqb (status_of st cid) "needs_review").
    + by destruct (String.eqb (status_of st cid) "unhealthy").
    + destruct (rated st cid); cbn [length]; lia.
Qed.

Lemma rated_filter_lengths st keys :
  length (List.filter (rated st) keys)
  = (length (List.filter (listed_healthy st) keys)
     + length (List.filter
                 (fun cid => String.eqb (status_of st cid) "needs_review") keys)
     + length (List.filter
                 (fun cid => String.eqb (status_of st cid) "unhealthy") keys))%nat.
Proof.
  induction keys as [|cid keys IH]; [done|]. cbn [List.filter].
  pose proof (status_of_rated st cid) as Hr. unfold listed_healthy at 1.
  revert Hr. generalize (status_of st cid). intros s Hr.
  destruct (rated st cid);
    repeat (apply elem_of_cons in Hr as [->|Hr]);
    [..|by apply elem_of_nil in Hr| | |by apply elem_of_nil in Hr];
    cbn; lia.
Qed.

(** X19. Whatever the order of the rule ids, the dashboard lists under
    [healthy_constraints] the health of the rules whose status is
    [healthy] or [acceptable], under [needs_review] and [unhealthy] those
    of that status, each in the order of the ids; [total_constraints] is
    the sum of the three counts and counts exactly the rules that have at
    least one true or false positive; the overall status is [healthy]
    exactly without unhealthy rule and with at most two to review, and
    [needs_attention] exactly from two unhealthy rules on. *)
Theorem dashboard_counts (keys : list string) (total_suggestions_generated : Z)
  (st : Store) :
  let d := get_dashboard_data keys total_suggestions_generated st in
  let o := overall_health d in
  healthy_constraints d
  = map (analyze_constraint_health st) (List.filter (listed_healthy st) keys)
  /\ needs_review_list d
     = map (analyze_constraint_health st)
         (List.filter (fun cid => String.eqb (status_of st cid) "needs_review")
            keys)
  /\ unhealthy_list d
     = map (analyze_constraint_health st)
         (List.filter (fun cid => String.eqb (status_of st cid) "unhealthy")
            keys)
  /\ healthy_count o = length (healthy_constraints d)
  /\ needs_review_count o = length (needs_review_list d)
  /\ unhealthy_count o = length (unhealthy_list d)
  /\ total_constraints o = Z.of_nat (length (List.filter (rated st) keys))
  /\ total_constraints o
     = Z.of_nat (healthy_count o + needs_review_count o + unhealthy_count o)
  /\ (overall_status o = "healthy"
      <-> unhealthy_count o = 0%nat /\ (needs_review_count o <= 2)%nat)
  /\ (overall_status o = "needs_attention" <-> (2 <= unhealthy_count o)%nat).
Proof.
  intros d o. subst o d. unfold get_dashboard_data.
  cbn [overall_health healthy_constraints needs_review_list unhealthy_list
       healthy_count needs_review_count unhealthy_count total_constraints
       overall_status].
  destruct (tally_fold_spec st keys (mkTally [] [] [] 0%Q 0))
    as (Hh & Hn & Hu & Hc).
  cbv zeta in Hh, Hn, Hu, Hc. cbn [healthy needs_review unhealthy count] in *.
  rewrite app_nil_l in Hh, Hn, Hu. rewrite Z.add_0_l in Hc.
  set (t := fold_left (tally_step st) keys _) in *.
  split; [done|]. split; [done|]. split; [done|].
  split; [done|]. split; [done|]. split; [done|]. split; [done|].
  split.
  { rewrite Hc, Hh, Hn, Hu, !length_map, rated_filter_lengths. done. }
  split.
  - destruct (Nat.eqb (length (unhealthy t)) 0) eqn:Hz.
    + apply Nat.eqb_eq in Hz.
      destruct (Nat.leb (length (needs_review t)) 2) eqn:Hl; cbn [andb].
      * apply Nat.leb_le in Hl. done.
      * apply Nat.leb_gt in Hl.
        assert (Nat.leb (length (unhealthy t)) 1 = true) as ->
          by (apply Nat.leb_le; lia).
        split; [done|]. lia.
    + apply Nat.eqb_neq in Hz. cbn [andb].
      destruct (Nat.leb (length (unhealthy t)) 1); (split; [done|lia]).
  - destruct (Nat.eqb (length (unhealthy t)) 0) eqn:Hz.
    + apply Nat.eqb_eq in Hz.
      assert (Nat.leb (length (unhealthy t)) 1 = true) as ->
        by (apply Nat.leb_le; lia).
      destruct (Nat.leb (length (needs_review t)) 2); cbn [andb];
        (split; [done|lia]).
    + cbn [andb]. destruct (Nat.leb (length (unhealthy t)) 1) eqn:Hl.
      * apply Nat.leb_le in Hl. split; [done|lia].
      * apply Nat.leb_gt in Hl. done.
Qed.

End DashboardCounts.

(** ** Templates: export and import *)

Section TemplateRoundTrip.
Import Templates.
Context `{RegexEngine}.

Lemma add_constraint_constraints new_id now io_ok descr keywords action message
  (m : ConstraintManager.Manager) :
  exists c,
    ConstraintManager.constraints
      (snd (ConstraintManager.add_constraint new_id now io_ok descr keywords
              action message m))
    = ConstraintManager.constraints m ++ [c]
    /\ ConstraintManager.constraint_id c = new_id.
Proof.
  unfold ConstraintManager.add_constraint. cbn [snd]. eexists. split.
  - rewrite save_keeps_constraints. reflexivity.
  - reflexivity.
Qed.

Lemma add_constraint_v2_outcome new_id now io_ok descr patterns keywords
  logic filters action message (m : ConstraintManager.Manager) :
  match ConstraintManager.validate_patterns (default [] patterns) with
  | None =>
      exists c m',
        ConstraintManager.add_constraint_v2 new_id now io_ok descr patterns
          keywords logic filters action message m
        = Returns (new_id, m')
        /\ ConstraintManager.constraints m'
           = ConstraintManager.constraints m ++ [c]
        /\ ConstraintManager.constraint_id c = new_id
  | Some e =>
      ConstraintManager.add_constraint_v2 new_id now io_ok descr patterns
        keywords logic filters action message m
      = Raises e
  end.
Proof.
  unfold ConstraintManager.add_constraint_v2.
  destruct (ConstraintManager.validate_patterns (default [] patterns)); [done|].
  eexists _, _. split; [reflexivity|].
  rewrite save_keeps_constraints. split; reflexivity.
Qed.

Lemma import_loop_cons fresh i data entries (m : ConstraintManager.Manager) :
  match ConstraintManager.validate_patterns
          (default [] (trigger_patterns data)) with
  | None =>
      exists c m',
        import_loop fresh i (data :: entries) m
        = import_loop fresh (S i) entries m'
        /\ ConstraintManager.constraints m'
           = ConstraintManager.constraints m ++ [c]
        /\ ConstraintManager.constraint_id c = fst (fst (fresh i))
  | Some e => import_loop fresh i (data :: entries) m = (Raises e, m)
  end.
Proof.
  cbn [import_loop]. destruct (fresh i) as [[new_id now] io_ok].
  cbn [fst snd].
  pose proof (add_constraint_v2_outcome new_id now io_ok
                (default "Imported constraint" (description data))
                (trigger_patterns data) (trigger_keywords data)
                (default "OR" (trigger_logic data)) (context_filters data)
                (default "warn" (enforcement_action data))
                (enforcement_message data) m) as Hv2.
  destruct (trigger_patterns data) as [ps|] eqn:Hps.
  - rewrite (bool_decide_eq_true_2 (is_Some (Some ps))) by eauto. cbn [orb].
    destruct (ConstraintManager.validate_patterns (default [] (Some ps))).
    + by rewrite Hv2.
    + destruct Hv2 as (c & m' & -> & Hc & Hid). by exists c, m'.
  - change (ConstraintManager.validate_patterns (default [] None))
      with (@None exception) in *.
    destruct Hv2 as (c & m' & Hadd & Hc & Hid).
    destruct (_ || _).
    + rewrite Hadd. by exists c, m'.
    + destruct (add_constraint_constraints new_id now io_ok
                  (default "Imported constraint" (description data))
                  (default [] (trigger_keywords data))
                  (default "warn" (enforcement_action data))
                  (enforcement_message data) m) as (c' & Hc' & Hid').
      by eexists c', _.
Qed.

Lemma import_loop_returns fresh entries :
  forall i (m : ConstraintManager.Manager),
  Forall importable entries ->
  exists added m',
    import_loop fresh i entries m = (Returns (i + length entries)%nat, m')
    /\ ConstraintManager.constraints m'
       = ConstraintManager.constraints m ++ added
    /\ map ConstraintManager.constraint_id added
       = map (fun j => fst (fst (fresh j))) (seq i (length entries)).
Proof.
  induction entries as [|data entries IH]; intros i m Hall.
  - exists [], m. cbn. rewrite app_nil_r, Nat.add_0_r. done.
  - apply Forall_cons in Hall as [Hdata Hall].
    pose proof (import_loop_cons fresh i data entries m) as Hstep.
    unfold importable in Hdata. rewrite Hdata in Hstep.
    destruct Hstep as (c & m1 & -> & Hc & Hid).
    destruct (IH (S i) m1 Hall) as (added & m' & -> & Hcs & Hids).
    exists (c :: added), m'. rewrite Hcs, Hc, <- (assoc_L (++)).
    cbn [length seq map]. rewrite Hid, Hids.
    split; [do 2 f_equal; lia|done].
Qed.

Lemma import_loop_raises fresh pre data post e :
  forall i (m : ConstraintManager.Manager),
  Forall importable pre ->
  ConstraintManager.validate_patterns (default [] (trigger_patterns data))
  = Some e ->
  exists added m',
    import_loop fresh i (pre ++ data :: post) m = (Raises e, m')
    /\ ConstraintManager.constraints m'
       = ConstraintManager.constraints m ++ added
    /\ map ConstraintManager.constraint_id added
       = map (fun j => fst (fst (fresh j))) (seq i (length pre)).
Proof.
  induction pre as [|data' pre IH]; intros i m Hall Hbad.
  - pose proof (import_loop_cons fresh i data post m) as Hstep.
    rewrite Hbad in Hstep. exists [], m. cbn [app]. rewrite Hstep.
    cbn. by rewrite app_nil_r.
  - apply Forall_cons in Hall as [Hdata Hall].
    pose proof (import_loop_cons fresh i data' (pre ++ data :: post) m) as Hstep.
    unfold importable in Hdata. rewrite Hdata in Hstep.
    destruct Hstep as (c & m1 & Hstep & Hc & Hid).
    destruct (IH (S i) m1 Hall Hbad) as (added & m' & Hrest & Hcs & Hids).
    exists (c :: added), m'. cbn [app]. rewrite Hstep, Hrest, Hcs, Hc.
    rewrite <- (assoc_L (++)). cbn [length seq map]. by rewrite Hid, Hids.
Qed.

(** X20. Importing a template all of whose patterns pass the validation
    of [add_constraint_v2] adds one rule for each entry, in order, after
    the rules already stored, which it leaves as they are, and returns
    their number; the new rules carry the fresh ids.  At the first entry
    with a pattern on which [re.compile] raises an exception other than
    [re.error], the import stops with the rules of the entries before it
    added: it answers -1 for a [KeyError] or [TypeError] and raises any
    other exception.  Without a template the answer is -1 and nothing
    changes. *)
Theorem import_template_appends (t : Template)
  (fresh : nat -> string * string * bool) (m : ConstraintManager.Manager) :
  import_template None fresh m = (Returns (-1), m)
  /\ (Forall importable (constraints t) ->
      exists added,
        fst (import_template (Some t) fresh m)
        = Returns (Z.of_nat (length (constraints t)))
        /\ ConstraintManager.constraints (snd (import_template (Some t) fresh m))
           = ConstraintManager.constraints m ++ added
        /\ map ConstraintManager.constraint_id added
           = map (fun j => fst (fst (fresh j)))
               (seq 0 (length (constraints t))))
  /\ (forall pre data post e,
        constraints t = pre ++ data :: post ->
        Forall importable pre ->
        ConstraintManager.validate_patterns
          (default [] (trigger_patterns data)) = Some e ->
        exists added,
          fst (import_template (Some t) fresh m)
          = match e with
            | KeyError | TypeError => Returns (-1)
            | _ => Raises e
            end
          /\ ConstraintManager.constraints
               (snd (import_template (Some t) fresh m))
             = ConstraintManager.constraints m ++ added
          /\ map ConstraintManager.constraint_id added
             = map (fun j => fst (fst (fresh j))) (seq 0 (length pre))).
Proof.
  split; [done|]. unfold import_template. split.
  - intros Hall.
    destruct (import_loop_returns fresh (constraints t) O m Hall)
      as (added & m' & -> & Hcs & Hids).
    exists added. done.
  - intros pre data post e Ht Hall Hbad. rewrite Ht.
    destruct (import_loop_raises fresh pre data post e O m Hall Hbad)
      as (added & m' & -> & Hcs & Hids).
    exists added. by destruct e.
Qed.

Lemma if_list_default (l : list string) : default [] (if_list l) = l.
Proof. by destruct l. Qed.

Lemma if_dict_default (d : gmap string (list string)) :
  default ∅ (if_dict d) = d.
Proof. unfold if_dict. by case_bool_decide. Qed.

Lemma or_default_Some message descr :
  ConstraintManager.or_default (Some message) descr
  = if String.eqb message EmptyString then descr else message.
Proof. done. Qed.

Lemma import_loop_constraint_data_cons fresh i c entries
  (m : ConstraintManager.Manager) :
  as_added c ->
  exists m',
    import_loop fresh i (constraint_data c :: entries) m
    = import_loop fresh (S i) entries m'
    /\ ConstraintManager.constraints m'
       = ConstraintManager.constraints m ++ [reimported fresh i c].
Proof.
  intros Hc. cbn [import_loop]. unfold reimported.
  destruct (fresh i) as [[new_id now] io_ok]. cbn [fst snd].
  destruct c as [cid v descr kws ps logic filters action msg cr tc lt en fpc].
  unfold as_added in Hc. cbn in Hc. unfold constraint_data.
  cbn [ConstraintManager.version ConstraintManager.description
       ConstraintManager.trigger_keywords ConstraintManager.trigger_patterns
       ConstraintManager.trigger_logic ConstraintManager.context_filters
       ConstraintManager.enforcement_action
       ConstraintManager.enforcement_message].
  destruct Hc as [(-> & Hlogic & Hvalid)|(-> & -> & -> & ->)].
  - change (2 =? 2) with true. cbv iota.
    cbn [description enforcement_action enforcement_message trigger_patterns
         trigger_keywords trigger_logic context_filters].
    assert (if_str logic = Some logic) as Hs.
    { unfold if_str.
      repeat (apply elem_of_cons in Hlogic as [->|Hlogic]); try done.
      by apply elem_of_nil in Hlogic. }
    rewrite Hs.
    rewrite (bool_decide_eq_true_2 (is_Some (Some logic))) by eauto.
    rewrite orb_true_r. cbn [orb].
    unfold ConstraintManager.add_constraint_v2.
    rewrite !if_list_default, if_dict_default, Hvalid.
    eexists. split; [reflexivity|].
    rewrite save_keeps_constraints.
    cbn [ConstraintManager.constraints]. f_equal. f_equal.
    change (default ?d (Some ?x)) with x.
    assert ((if String.eqb logic "OR" || String.eqb logic "AND"
                || String.eqb logic "NOT" then logic else "OR") = logic) as ->.
    { repeat (apply elem_of_cons in Hlogic as [->|Hlogic]); try done.
      by apply elem_of_nil in Hlogic. }
    reflexivity.
  - change (1 =? 2) with false. cbv iota.
    cbn [description enforcement_action enforcement_message trigger_patterns
         trigger_keywords trigger_logic context_filters].
    rewrite !(bool_decide_eq_false_2 (is_Some None)) by (by intros [? [=]]).
    cbn [orb]. eexists. split; [reflexivity|].
    unfold ConstraintManager.add_constraint. cbn [snd].
    rewrite save_keeps_constraints.
    cbn [ConstraintManager.constraints]. reflexivity.
Qed.

Lemma import_loop_constraint_data fresh cs :
  forall i (m : ConstraintManager.Manager),
  Forall as_added cs ->
  exists m',
    import_loop fresh i (map constraint_data cs) m
    = (Returns (i + length cs)%nat, m')
    /\ ConstraintManager.constraints m'
       = ConstraintManager.constraints m
         ++ imap (fun j => reimported fresh (i + j)) cs.
Proof.
  induction cs as [|c cs IH]; intros i m Hall; cbn [map].
  - exists m. cbn. by rewrite app_nil_r, Nat.add_0_r.
  - apply Forall_cons in Hall as [Hc Hall].
    destruct (import_loop_constraint_data_cons fresh i c
                (map constraint_data cs) m Hc) as (m1 & -> & Hm1).
    destruct (IH (S i) m1 Hall) as (m' & -> & Hm').
    exists m'. rewrite Hm', Hm1, <- (assoc_L (++)).
    cbn [imap app length]. rewrite Nat.add_0_r. split; [do 2 f_equal; lia|].
    do 2 f_equal. apply imap_ext. intros j x _. cbn. f_equal. lia.
Qed.

(** X21. Exporting all the rules of a non-empty store, the file being
    written, and importing the template into any store adds the exported
    rules again, in order, and returns their number: each keeps its
    version, description, patterns, logic, context filters and action,
    its keywords lower-cased and stripped, and its message unless that is
    empty; it gets a fresh id and creation time, zeroed counters and is
    enabled.  This holds for rules as [add_constraint] and
    [add_constraint_v2] leave them, whose patterns passed the validation
    of [add_constraint_v2]. *)
Theorem export_import_round_trip (now stem : string)
  (m m' : ConstraintManager.Manager) (fresh : nat -> string * string * bool) :
  Forall as_added (ConstraintManager.constraints m) ->
  ConstraintManager.constraints m <> [] ->
  exists t,
    export_constraints now stem true None m = (true, Some t)
    /\ fst (import_template (Some t) fresh m')
       = Returns (Z.of_nat (length (ConstraintManager.constraints m)))
    /\ ConstraintManager.constraints (snd (import_template (Some t) fresh m'))
       = ConstraintManager.constraints m'
         ++ imap (reimported fresh) (ConstraintManager.constraints m).
Proof.
  intros Hall Hne. unfold export_constraints, ManagerOps.list_constraints.
  destruct (ConstraintManager.constraints m) as [|c cs] eqn:Hcs; [done|].
  eexists. split; [reflexivity|].
  unfold import_template. cbn [constraints].
  destruct (import_loop_constraint_data fresh (c :: cs) O m' Hall)
    as (m'' & -> & Hadd).
  cbn [fst snd]. split; [done|]. exact Hadd.
Qed.

End TemplateRoundTrip.

(** ** Instances on the example stores *)

Lemma history_is_last_fifty_witness :
  exists a,
    ConstraintSupervisor.constraints
      (ConstraintSupervisor.run_triggers FeedbackExamples.three_false_seven_true
         (ConstraintSupervisor._create_default_analytics "t00"))
      !! "abc12345" = Some a
    /\ Z.of_nat (length (ConstraintSupervisor.trigger_history a))
       = Z.min (ConstraintSupervisor.total_triggers a) 50.
Proof.
  eassert (ConstraintSupervisor.constraints
             (ConstraintSupervisor.run_triggers
                FeedbackExamples.three_false_seven_true
                (ConstraintSupervisor._create_default_analytics "t00"))
             !! "abc12345" = Some _) as Hl by (vm_compute; reflexivity).
  destruct (history_is_last_fifty FeedbackExamples.three_false_seven_true
              "t00" "abc12345" _ Hl) as (_ & Hlen & _).
  eexists. split; [exact Hl|exact Hlen].
Defined.

Lemma metrics_within_bounds_witness :
  exists a,
    ConstraintSupervisor.constraints
      (ConstraintSupervisor.run_triggers FeedbackExamples.three_false_seven_true
         (ConstraintSupervisor._create_default_analytics "t00"))
      !! "abc12345" = Some a
    /\ (0 <= ConstraintSupervisor.effectiveness_score a)%Q
    /\ (ConstraintSupervisor.effectiveness_score a
        <= ConstraintSupervisor.precision a)%Q.
Proof.
  eassert (ConstraintSupervisor.constraints
             (ConstraintSupervisor.run_triggers
                FeedbackExamples.three_false_seven_true
                (ConstraintSupervisor._create_default_analytics "t00"))
             !! "abc12345" = Some _) as Hl by (vm_compute; reflexivity).
  destruct (metrics_within_bounds FeedbackExamples.three_false_seven_true
              "t00" "abc12345" _ Hl) as (_ & He & _).
  eexists. split; [exact Hl|exact He].
Defined.

Lemma single_window_drift_witness :
  (ConstraintSupervisor.detect_drift
     (ConstraintSupervisor.run_triggers FeedbackExamples.three_false_seven_true
        (ConstraintSupervisor._create_default_analytics "t00"))
     "abc12345" 10 <= 3 # 40)%Q.
Proof.
  eassert (ConstraintSupervisor.constraints
             (ConstraintSupervisor.run_triggers
                FeedbackExamples.three_false_seven_true
                (ConstraintSupervisor._create_default_analytics "t00"))
             !! "abc12345" = Some _) as Hl by (vm_compute; reflexivity).
  refine (proj2 (single_window_drift _ "abc12345" _ 10 Hl _ _)).
  - lia.
  - split; by vm_compute.
Defined.

Lemma young_rule_status_witness :
  ConstraintSupervisor.status
    (ConstraintSupervisor.analyze_constraint_health
       (ConstraintSupervisor.run_triggers FeedbackExamples.three_false_seven_true
          (ConstraintSupervisor._create_default_analytics "t00"))
       "abc12345")
  <> "unhealthy".
Proof.
  eassert (ConstraintSupervisor.constraints
             (ConstraintSupervisor.run_triggers
                FeedbackExamples.three_false_seven_true
                (ConstraintSupervisor._create_default_analytics "t00"))
             !! "abc12345" = Some _) as Hl by (vm_compute; reflexivity).
  refine (proj2 (young_rule_status FeedbackExamples.three_false_seven_true
                   "t00" "abc12345" _ Hl _)).
  by vm_compute.
Defined.

Lemma unrated_rule_suggestion_witness :
  map ConstraintSupervisor.type
    (ConstraintSupervisor.suggest_improvements (fun _ => "0.00")
       (ConstraintSupervisor.run_triggers
          [("t1", "dddd4444", "mock api", "skipped")]
          (ConstraintSupervisor._create_default_analytics "t0"))
       FeedbackExamples.broad_rule_manager "dddd4444")
  = ["disable_constraint"].
Proof.
  eassert (ConstraintSupervisor.constraints
             (ConstraintSupervisor.run_triggers
                [("t1", "dddd4444", "mock api", "skipped")]
                (ConstraintSupervisor._create_default_analytics "t0"))
             !! "dddd4444" = Some _) as Hl by (vm_compute; reflexivity).
  eassert (ConstraintManager.get_constraint FeedbackExamples.broad_rule_manager
             "dddd4444" = Some _) as Hg by (vm_compute; reflexivity).
  rewrite (unrated_rule_suggestion (fun _ => "0.00")
             [("t1", "dddd4444", "mock api", "skipped")] "t0"
             FeedbackExamples.broad_rule_manager "dddd4444" _ _ Hl Hg
             eq_refl eq_refl).
  reflexivity.
Defined.

Lemma suggestion_conditions_escalation_witness :
  exists s,
    s ∈ ConstraintSupervisor.suggest_improvements (fun _ => "1.00")
          FeedbackExamples.broad_rule_store
          FeedbackExamples.broad_rule_manager "dddd4444"
    /\ ConstraintSupervisor.type s = "add_context_filter".
Proof.
  eassert (ConstraintSupervisor.constraints FeedbackExamples.broad_rule_store
             !! "dddd4444" = Some _) as Hl by (vm_compute; reflexivity).
  eassert (ConstraintManager.get_constraint FeedbackExamples.broad_rule_manager
             "dddd4444" = Some _) as Hg by (vm_compute; reflexivity).
  destruct (suggestion_conditions_escalation (fun _ => "1.00")
              FeedbackExamples.broad_rule_store
              FeedbackExamples.broad_rule_manager "dddd4444" _ _ Hl Hg)
    as (Hctx & _).
  apply Hctx. split; by vm_compute.
Defined.

Lemma import_template_appends_witness :
  exists added,
    fst (Templates.import_template (Some TemplateExamples.overflow_template)
           TemplateExamples.sample_ids (ConstraintManager.init []))
    = Raises OverflowError
    /\ ConstraintManager.constraints
         (snd (Templates.import_template
                 (Some TemplateExamples.overflow_template)
                 TemplateExamples.sample_ids (ConstraintManager.init [])))
       = ConstraintManager.constraints (ConstraintManager.init []) ++ added
    /\ map ConstraintManager.constraint_id added = ["eeee0001"].
Proof.
  destruct (import_template_appends TemplateExamples.overflow_template
              TemplateExamples.sample_ids (ConstraintManager.init []))
    as (_ & _ & Hstop).
  apply (Hstop [TemplateExamples.keyword_entry] TemplateExamples.overflow_entry
           [] OverflowError).
  - reflexivity.
  - apply Forall_cons. split; [reflexivity|apply Forall_nil_2].
  - reflexivity.
Defined.

Lemma export_import_round_trip_witness :
  exists t,
    Templates.export_constraints "t1" "rules" true None
      FeedbackExamples.broad_rule_manager = (true, Some t)
    /\ fst (Templates.import_template (Some t)
              (fun i => ("eeee5555", "t2", true)) (ConstraintManager.init []))
       = Returns (Z.of_nat (length (ConstraintManager.constraints
                                      FeedbackExamples.broad_rule_manager)))
    /\ ConstraintManager.constraints
         (snd (Templates.import_template (Some t)
                 (fun i => ("eeee5555", "t2", true))
                 (ConstraintManager.init [])))
       = ConstraintManager.constraints (ConstraintManager.init [])
         ++ imap (Templates.reimported (fun i => ("eeee5555", "t2", true)))
              (ConstraintManager.constraints FeedbackExamples.broad_rule_manager).
Proof.
  apply (export_import_round_trip "t1" "rules"
           FeedbackExamples.broad_rule_manager (ConstraintManager.init [])
           (fun i => ("eeee5555", "t2", true))).
  - apply Forall_cons. split; [|apply Forall_nil_2].
    left. split; [reflexivity|]. split; [apply list_elem_of_here|reflexivity].
  - discriminate.
Defined.
